(** * postqe: field reconstruction and file codecs of [readutils.py]

    A shallow embedding of the readers and writers of
    [src/postqe/readutils.py] and the properties of the specification
    that were checked against it.

    Conventions of the embedding:
    - a Python exception is a value [Raise e] of the [result] type, and a
      statement sequence is a chain of [bind]s;
    - a three-dimensional numpy array is its shape together with its
      elements in row-major (C) order;
    - a Python [str] is a [list ascii];
    - numpy, h5py and ElementTree are libraries, not code of the
      repository: their functions are modelled from their documented
      behaviour ([np.zeros], indexing, [np.fft.ifftn], [str.split],
      [str.replace], [int]) or taken as parameters ([float],
      ["{:.9E}".format], [ET.fromstringlist]);
    - a 64-bit float is idealised as a real number in the Fourier
      transform, and is an abstract type in the text codec;
    - memory is not bounded: [zeros] gives a grid for all dimensions that
      are not negative, and what is stated of the reader of the text dump
      for the grids numpy allocates says so ([array_fits]);
    - [int], and [format] on an integer, keep Python's limit of 4300
      digits. *)

From Stdlib Require Import ZArith List Ascii String Reals Lia Lra.
From stdpp Require Import base list.
Import ListNotations.
Open Scope Z_scope.
Set Warnings "-register-all".

(** ** Exceptions as values *)

(** The built-in exceptions the functions can meet, and [FormatError],
    the error kind the specification names: [readutils.py] defines no
    such class and has no [raise] statement. *)
Inductive exn : Set :=
| IndexError | ValueError | KeyError | TypeError | AttributeError | OverflowError
| FormatError.

Inductive result (A : Type) : Type :=
| Ok (a : A)
| Raise (e : exn).
Arguments Ok {A} a.
Arguments Raise {A} e.

Definition bind {A B} (m : result A) (k : A -> result B) : result B :=
  match m with
  | Ok a => k a
  | Raise e => Raise e
  end.

Notation "x <- m ;; k" := (bind m (fun x => k))
  (at level 60, m at next level, right associativity).

(** The computations that do not end in [FormatError]. *)
Definition builtin_only {A} (m : result A) : Prop := m <> Raise FormatError.

(** [try: m except: h] with a bare [except]. *)
Definition try_except {A} (m : result A) (h : result A) : result A :=
  match m with
  | Ok a => Ok a
  | Raise _ => h
  end.

(** [for x in xs: body], threading the variables the body assigns. *)
Fixpoint for_each {X S} (xs : list X) (body : X -> S -> result S) (s : S)
  : result S :=
  match xs with
  | [] => Ok s
  | x :: rest => s' <- body x s ;; for_each rest body s'
  end.

(** [range(0, n)] *)
Definition range (n : Z) : list Z := seqZ 0 n.

(** ** numpy arrays of rank three *)

Module NdArray.

Abbreviation dims := (Z * Z * Z)%type.

Record ndarray (A : Type) : Type := mk { shape : dims; data : list A }.
Arguments mk {A} shape data.
Arguments shape {A} _.
Arguments data {A} _.

Definition size (nr : dims) : Z := let '(n1, n2, n3) := nr in n1 * n2 * n3.

(** [np.zeros([nr1,nr2,nr3])]: a negative dimension is a [ValueError].
    The size of a grid is not bounded here: numpy also refuses a grid that
    is too large, and the properties of the reader of the text dump that
    depend on it carry the bound ([array_fits]) as a hypothesis. *)
Definition zeros {A} (zero : A) (nr : dims) : result (ndarray A) :=
  let '(n1, n2, n3) := nr in
  if (n1 <? 0) || (n2 <? 0) || (n3 <? 0) then Raise ValueError
  else Ok (mk nr (replicate (Z.to_nat (n1 * n2 * n3)) zero)).

(** An integer index on an axis of length [n]: [0 <= i < n] is taken as
    it is, [-n <= i < 0] counts from the end, anything else is an
    [IndexError]. *)
Definition norm_index (n i : Z) : result Z :=
  if i <? 0 then (if - n <=? i then Ok (i + n) else Raise IndexError)
  else if i <? n then Ok i else Raise IndexError.

(** Row-major offset of a position already brought into range. *)
Definition offset (nr : dims) (p : dims) : Z :=
  let '(n1, n2, n3) := nr in
  let '(i, j, k) := p in
  (i * n2 + j) * n3 + k.

Definition locate (nr : dims) (p : dims) : result dims :=
  let '(n1, n2, n3) := nr in
  let '(i, j, k) := p in
  i' <- norm_index n1 i ;;
  j' <- norm_index n2 j ;;
  k' <- norm_index n3 k ;;
  Ok (i', j', k').

(** [a[i,j,k]] *)
Definition getitem {A} (a : ndarray A) (p : dims) : result A :=
  q <- locate (shape a) p ;;
  match data a !! Z.to_nat (offset (shape a) q) with
  | Some v => Ok v
  | None => Raise IndexError
  end.

(** [a[i,j,k] = v] *)
Definition setitem {A} (a : ndarray A) (p : dims) (v : A) : result (ndarray A) :=
  q <- locate (shape a) p ;;
  Ok (mk (shape a) (<[Z.to_nat (offset (shape a) q) := v]> (data a))).

(** Elementwise map, as in [a * c] or [a.real]. *)
Definition map {A B} (f : A -> B) (a : ndarray A) : ndarray B :=
  mk (shape a) (f <$> data a).

(** The arrays numpy builds: non-negative dimensions and as many elements
    as the shape says. *)
Definition wf {A} (a : ndarray A) : Prop :=
  let '(n1, n2, n3) := shape a in
  0 <= n1 /\ 0 <= n2 /\ 0 <= n3 /\ Z.of_nat (length (data a)) = n1 * n2 * n3.

Definition in_grid (nr : dims) (p : dims) : Prop :=
  let '(n1, n2, n3) := nr in
  let '(i, j, k) := p in
  0 <= i < n1 /\ 0 <= j < n2 /\ 0 <= k < n3.

(** The indices numpy accepts on a grid: each component within
    [-n <= i < n] for its axis. *)
Definition in_bounds (nr : dims) (p : dims) : Prop :=
  let '(n1, n2, n3) := nr in
  let '(i, j, k) := p in
  - n1 <= i < n1 /\ - n2 <= j < n2 /\ - n3 <= k < n3.

End NdArray.
Import NdArray.

(** ** The scatter loop of [read_charge_file_hdf5]

    [for el in zip(h5f['MillerIndices'], rhotot_g):
       (i,j,k), rho = el
       rho_temp[i,j,k] = rho] *)
Fixpoint scatter {A} (rho_temp : ndarray A) (els : list (dims * A))
  : result (ndarray A) :=
  match els with
  | [] => Ok rho_temp
  | (ijk, rho) :: rest => g <- setitem rho_temp ijk rho ;; scatter g rest
  end.

(** ** Complex numbers, with floats idealised as reals *)

Module Complex.

Abbreviation C := (R * R)%type.

Definition RtoC (x : R) : C := (x, 0%R).
Definition Czero : C := RtoC 0.
Definition Ci : C := (0%R, 1%R).
Definition Cadd (a b : C) : C := (fst a + fst b, snd a + snd b)%R.
Definition Cmul (a b : C) : C :=
  (fst a * fst b - snd a * snd b, fst a * snd b + snd a * fst b)%R.
Definition Cre (a : C) : R := fst a.
Definition Csum (l : list C) : C := foldr Cadd Czero l.

(** [exp(2 pi i m / n)] *)
Definition root_of_unity (n m : Z) : C :=
  (cos (2 * PI * IZR m / IZR n), sin (2 * PI * IZR m / IZR n))%R.

End Complex.
Import Complex.

(** ** [np.fft.ifftn] on a rank-three array

    numpy documents the inverse transform as
    [a[x,y,z] = 1/N * sum_{i,j,k} A[i,j,k] * exp(2 pi i (i x/n1 + j y/n2 + k z/n3))]
    with [N = n1*n2*n3], and refuses an axis without data points. *)

(** The positions of a grid in row-major order, the order of [data]. *)
Definition positions (nr : dims) : list dims :=
  let '(n1, n2, n3) := nr in
  i ← range n1; j ← range n2; k ← range n3; [(i, j, k)].

Definition kernel (nr : dims) (p q : dims) : C :=
  let '(n1, n2, n3) := nr in
  let '(i, j, k) := p in
  let '(x, y, z) := q in
  Cmul (Cmul (root_of_unity n1 (i * x)) (root_of_unity n2 (j * y)))
       (root_of_unity n3 (k * z)).

(** [sum_{p} A[p] * kernel p q] *)
Definition fourier_sum (a : ndarray C) (q : dims) : C :=
  Csum ((fun pv : dims * C => Cmul (snd pv) (kernel (shape a) (fst pv) q))
          <$> zip (positions (shape a)) (data a)).

Definition ifftn (a : ndarray C) : result (ndarray C) :=
  let '(n1, n2, n3) := shape a in
  if (n1 =? 0) || (n2 =? 0) || (n3 =? 0) then Raise ValueError
  else Ok (mk (shape a)
              ((fun q => Cmul (RtoC (/ IZR (n1 * n2 * n3))) (fourier_sum a q))
                 <$> positions (shape a))).

(** ** [read_charge_file_hdf5] *)

(** What the function reads of the HDF5 file: the attribute [ngm_g] and
    three datasets, each of which may be missing. *)
Record h5file : Type := {
  attr_ngm_g : option Z;
  MillerIndices : option (list dims);
  rhotot_g : option (list R);
  rhodiff_g : option (list R) }.

(** [h5f[name]] *)
Definition dataset {A} (d : option A) : result A :=
  match d with
  | Some x => Ok x
  | None => Raise KeyError
  end.

Fixpoint rows2 (l : list R) : list (R * R) :=
  match l with
  | a :: b :: rest => (a, b) :: rows2 rest
  | _ => []
  end.

(** [np.array(d).reshape([ngm_g, 2])]: [ngm_g] has to be an integer, the
    element count has to be [2*ngm_g], and a negative [ngm_g] stands for
    the count that fits. *)
Definition reshape2 (ngm_g : option Z) (l : list R) : result (list (R * R)) :=
  match ngm_g with
  | None => Raise TypeError
  | Some n =>
      if n <? 0 then
        (if Z.of_nat (length l) mod 2 =? 0 then Ok (rows2 l) else Raise ValueError)
      else if Z.of_nat (length l) =? n * 2 then Ok (rows2 l)
      else Raise ValueError
  end.

(** [x.dot((1e0, 1.j))] on a row [x = [a, b]] *)
Definition dot_1_i (x : R * R) : C :=
  Cadd (Cmul (RtoC (fst x)) (RtoC 1)) (Cmul (RtoC (snd x)) Ci).

(** [a * n] for a complex array and a Python integer *)
Definition times (n : Z) (a : ndarray C) : ndarray C :=
  NdArray.map (fun c => Cmul c (RtoC (IZR n))) a.

(** The block that the function runs on [rhotot_g] and again on
    [rhodiff_g]:
    [aux = np.array(h5f[name]).reshape([ngm_g,2])
     rho_g = np.array(list(map(lambda x: x.dot((1e0,1.j)), aux)))
     rho_temp = np.zeros([nr1,nr2,nr3],dtype=np.complex128)
     for el in zip(h5f['MillerIndices'], rho_g): ...
     rho_r = np.fft.ifftn(rho_temp) * nr1 * nr2 * nr3] *)
Definition reconstruct (h5f : h5file) (name : option (list R)) (nr : dims)
  : result (ndarray C) :=
  let '(nr1, nr2, nr3) := nr in
  d <- dataset name ;;
  aux <- reshape2 (attr_ngm_g h5f) d ;;
  let rho_g := dot_1_i <$> aux in
  rho_temp <- zeros Czero nr ;;
  miller <- dataset (MillerIndices h5f) ;;
  rho_temp <- scatter rho_temp (zip miller rho_g) ;;
  f <- ifftn rho_temp ;;
  Ok (times nr3 (times nr2 (times nr1 f))).

Definition real (a : ndarray C) : ndarray R := NdArray.map Cre a.

Definition read_charge_file_hdf5 (h5f : h5file) (nr : dims)
  : result (ndarray R * ndarray R) :=
  rhotot_r <- reconstruct h5f (rhotot_g h5f) nr ;;
  rhodiff_r <- try_except (reconstruct h5f (rhodiff_g h5f) nr)
                 (zeros Czero nr) ;;
  Ok (real rhotot_r, real rhodiff_r).

(** ** Python strings *)

Module Str.

Abbreviation str := (list ascii).

Definition lit (s : string) : str := list_ascii_of_string s.

Definition LF : ascii := ascii_of_nat 10.
Definition CR : ascii := ascii_of_nat 13.

(** [c.isspace()] on the code points below 256 *)
Definition isspace (c : ascii) : bool :=
  let n := nat_of_ascii c in
  ((9 <=? n) && (n <=? 13) || (28 <=? n) && (n <=? 32)
   || (n =? 133) || (n =? 160))%nat.

Fixpoint eqb (a b : str) : bool :=
  match a, b with
  | [], [] => true
  | x :: a', y :: b' => Ascii.eqb x y && eqb a' b'
  | _, _ => false
  end.

(** [s.split()]: the maximal runs of characters that are not white space,
    in order. *)
Fixpoint split (s : str) : list str :=
  match s with
  | [] => []
  | c :: s' =>
      if isspace c then split s'
      else match s' with
           | [] => [[c]]
           | c' :: _ =>
               if isspace c' then [c] :: split s'
               else match split s' with
                    | t :: ts => (c :: t) :: ts
                    | [] => [[c]]
                    end
           end
  end.

(** The lines a file opened in text mode for reading iterates over: a
    line ends at ["\n"], at ["\r\n"] or at a lone ["\r"], and is handed
    over with a final ["\n"]; a last line without line end is handed over
    as it is. *)
Fixpoint file_lines (s : str) : list str :=
  match s with
  | [] => []
  | c :: s' =>
      if Ascii.eqb c LF then [LF] :: file_lines s'
      else if Ascii.eqb c CR then
        match s' with
        | c' :: _ => if Ascii.eqb c' LF then file_lines s'
                     else [LF] :: file_lines s'
        | [] => [[LF]]
        end
      else match file_lines s' with
           | l :: ls => (c :: l) :: ls
           | [] => [[c]]
           end
  end.

Fixpoint starts_with (p s : str) : bool :=
  match p, s with
  | [], _ => true
  | a :: p', b :: s' => Ascii.eqb a b && starts_with p' s'
  | _ :: _, [] => false
  end.

(** [s.replace(old, new)] for a non-empty [old]: scanning from the left,
    each occurrence of [old] found is replaced by [new] and the scan goes
    on behind it; [skip] counts the characters of a found occurrence that
    are still to be passed over. *)
Fixpoint replace_skip (skip : nat) (old new s : str) : str :=
  match s with
  | [] => []
  | c :: s' =>
      match skip with
      | S k => replace_skip k old new s'
      | O =>
          if starts_with old s
          then new ++ replace_skip (length old - 1) old new s'
          else c :: replace_skip 0 old new s'
      end
  end.

Definition replace (old new s : str) : str := replace_skip 0 old new s.

Definition digit_value (c : ascii) : option Z :=
  let n := nat_of_ascii c in
  if ((48 <=? n) && (n <=? 57))%nat then Some (Z.of_nat n - 48) else None.

(** The digits of an [int] literal: decimal digits, with single
    underscores allowed between two digits. *)
Fixpoint int_digits (after_digit : bool) (acc : Z) (s : str) : option Z :=
  match s with
  | [] => if after_digit then Some acc else None
  | c :: s' =>
      match digit_value c with
      | Some d => int_digits true (10 * acc + d) s'
      | None =>
          if Ascii.eqb c "_"%char && after_digit then int_digits false acc s'
          else None
      end
  end.

(** The largest number of digits that [int] reads and that [str] and
    [format] write: [sys.get_int_max_str_digits()], which is 4300 unless
    the program changes it, and [readutils.py] and [cli.py] do not. *)
Definition max_str_digits : nat := 4300.

Definition is_digit (c : ascii) : bool :=
  match digit_value c with
  | Some _ => true
  | None => false
  end.

(** [int(s)] on a token without white space: a literal with more digits
    than the limit is refused like a string that is no literal. *)
Definition int (s : str) : result Z :=
  let parsed :=
    match s with
    | c :: s' =>
        if Ascii.eqb c "-"%char then Z.opp <$> int_digits false 0 s'
        else if Ascii.eqb c "+"%char then int_digits false 0 s'
        else int_digits false 0 s
    | [] => None
    end in
  match parsed with
  | Some n =>
      if (length (List.filter is_digit s) <=? max_str_digits)%nat then Ok n
      else Raise ValueError
  | None => Raise ValueError
  end.

(** [l[i]] on a Python list *)
Definition item {A} (l : list A) (i : Z) : result A :=
  match norm_index (Z.of_nat (length l)) i with
  | Ok i' => match l !! Z.to_nat i' with
             | Some x => Ok x
             | None => Raise IndexError
             end
  | Raise e => Raise e
  end.

End Str.
Import Str.

(** ** The text dump of a field: [write_charge] and [read_postqe_output_file] *)

Section TextCodec.

(** The float type with the two library conversions the codec uses:
    ["{:.9E}".format(v)] and [float(s)], which raises [ValueError] on a
    string that is no number. *)
Variable V : Type.
Variable format9E : V -> str.
Variable float : str -> option V.
Variable zero : V.

Definition to_float (s : str) : result V :=
  match float s with
  | Some v => Ok v
  | None => Raise ValueError
  end.

(** The body of the innermost loop of [write_charge]; the state is the
    text written so far and [count]. *)
Definition write_value (charge : ndarray V) (x y z : Z) (st : str * Z)
  : result (str * Z) :=
  v <- getitem charge (x, y, z) ;;
  let out := fst st ++ lit "  " ++ format9E v in
  let count := snd st + 1 in
  Ok (if count mod 5 =? 0 then out ++ [LF] else out, count).

(** The text of the file after [write_charge(filename, charge, header)]. *)
Definition write_charge (charge : ndarray V) (header : str) : result str :=
  let '(nr0, nr1, nr2) := shape charge in
  st <- for_each (range nr2) (fun z =>
          for_each (range nr1) (fun y =>
            for_each (range nr0) (fun x => write_value charge x y z)))
          (header, 0) ;;
  Ok (fst st).

(** The variables of the first loop of [read_postqe_output_file]. *)
Record reader_state : Type := {
  tempcharge : list V;
  count : Z;
  nr : dims }.

(** A value stored into an array of [dtype=int] has to fit 64 bits. *)
Definition to_int64 (n : Z) : result Z :=
  if (- 2 ^ 63 <=? n) && (n <? 2 ^ 63) then Ok n else Raise OverflowError.

Definition read_dims (linesplit : list str) : result dims :=
  t1 <- item linesplit 1 ;; n0 <- int t1 ;; n0 <- to_int64 n0 ;;
  t2 <- item linesplit 2 ;; n1 <- int t2 ;; n1 <- to_int64 n1 ;;
  t3 <- item linesplit 3 ;; n2 <- int t3 ;; n2 <- to_int64 n2 ;;
  Ok (n0, n1, n2).

Definition append_floats (linesplit : list str) (acc : list V)
  : result (list V) :=
  for_each linesplit (fun tok acc => v <- to_float tok ;; Ok (acc ++ [v])) acc.

(** The body of [for line in lines]. *)
Definition read_line (line : str) (st : reader_state) : result reader_state :=
  let linesplit := split line in
  nr' <- (if count st =? 1 then read_dims linesplit else Ok (nr st)) ;;
  first <- item linesplit 0 ;;
  temp' <- (if negb (eqb first (lit "#")) then append_floats linesplit (tempcharge st)
            else Ok (tempcharge st)) ;;
  Ok {| tempcharge := temp'; count := count st + 1; nr := nr' |}.

(** The body of the innermost loop that folds the values into the grid;
    the state is [charge] and [count]. *)
Definition fold_value (temp : list V) (x y z : Z) (st : ndarray V * Z)
  : result (ndarray V * Z) :=
  v <- item temp (snd st) ;;
  charge <- setitem (fst st) (x, y, z) v ;;
  Ok (charge, snd st + 1).

(** The first loop: the lines of the file. *)
Definition scan_lines (content : str) : result reader_state :=
  for_each (file_lines content) read_line
    {| tempcharge := []; count := 0; nr := (0, 0, 0) |}.

(** The second loop: the values into the grid. *)
Definition fold_grid (st : reader_state) : result (ndarray V) :=
  let '(nr0, nr1, nr2) := nr st in
  charge <- zeros zero (nr st) ;;
  fin <- for_each (range nr2) (fun z =>
           for_each (range nr1) (fun y =>
             for_each (range nr0) (fun x => fold_value (tempcharge st) x y z)))
           (charge, 0) ;;
  Ok (fst fin).

Definition read_postqe_output_file (content : str) : result (ndarray V) :=
  st <- scan_lines content ;;
  fold_grid st.

(** *** Vocabulary for the properties of the codec *)

(** The positions of a grid in the order of the file: the third axis in
    the outer loop, the first axis in the inner loop. *)
Definition file_order (nr : dims) : list dims :=
  let '(nr0, nr1, nr2) := nr in
  z ← range nr2; y ← range nr1; x ← range nr0; [(x, y, z)].

(** The values of a field at a list of positions. *)
Fixpoint gather (charge : ndarray V) (ps : list dims) : result (list V) :=
  match ps with
  | [] => Ok []
  | p :: rest =>
      v <- getitem charge p ;; vs <- gather charge rest ;; Ok (v :: vs)
  end.

(** Groups of five, the last one with what is left. *)
Fixpoint chunks5 {A} (l : list A) : list (list A) :=
  match l with
  | a :: b :: c :: d :: e :: rest => [a; b; c; d; e] :: chunks5 rest
  | [] => []
  | _ => [l]
  end.

(** The values of one line, each behind two blanks. *)
Definition line_of (toks : list str) : str :=
  concat ((fun t => lit "  " ++ t) <$> toks).

(** The value section as the writer lays it out: a line break closes a
    group of five, and only a group of five. *)
Definition value_section (toks : list str) : str :=
  concat ((fun g => line_of g ++ (if (length g =? 5)%nat then [LF] else []))
            <$> chunks5 toks).

(** The value section with a line break behind every group, the last
    one included. *)
Definition value_section_closed (toks : list str) : str :=
  concat ((fun g => line_of g ++ [LF]) <$> chunks5 toks).

(** What the loop of the writer appends for the values [toks] when
    [count] values were written before. *)
Fixpoint layout (count : Z) (toks : list str) : str :=
  match toks with
  | [] => []
  | t :: rest =>
      lit "  " ++ t ++ (if (count + 1) mod 5 =? 0 then [LF] else [])
        ++ layout (count + 1) rest
  end.

(** A token as [split] returns it: not empty and free of white space. *)
Definition token (t : str) : Prop :=
  t <> [] /\ Forall (fun c => isspace c = false) t.

(** A line of a header: it ends with its only line end and its first
    token is [#]. *)
Definition header_line (l : str) : Prop :=
  exists txt rest,
    l = txt ++ [LF] /\ (LF ∉ txt) /\ (CR ∉ txt) /\ split l = lit "#" :: rest.

(** The lines the reader skips. *)
Definition is_header (linesplit : list str) : bool :=
  match linesplit with
  | first :: _ => eqb first (lit "#")
  | [] => false
  end.

End TextCodec.

(** A fragment of the floats for examples: four values with the text
    Python prints for them under ["{:.9E}"] and the spellings [float]
    reads them from. *)
Module Sample.

Inductive float4 : Set := f_zero | f_one | f_half | f_minus_two.

Definition format9E (v : float4) : str :=
  match v with
  | f_zero => lit "0.000000000E+00"
  | f_one => lit "1.000000000E+00"
  | f_half => lit "5.000000000E-01"
  | f_minus_two => lit "-2.000000000E+00"
  end.

Definition float (s : str) : option float4 :=
  if eqb s (lit "0.000000000E+00") || eqb s (lit "0.0") || eqb s (lit "0")
  then Some f_zero
  else if eqb s (lit "1.000000000E+00") || eqb s (lit "1.0") || eqb s (lit "1")
  then Some f_one
  else if eqb s (lit "5.000000000E-01") || eqb s (lit "0.5")
  then Some f_half
  else if eqb s (lit "-2.000000000E+00") || eqb s (lit "-2.0") || eqb s (lit "-2")
  then Some f_minus_two
  else None.

(** A header as [create_header] writes it for a grid of one point. *)
Definition header111 : str :=
  lit "# si" ++ [LF]
  ++ lit "#        1        1        1        1        1        1        1        1"
  ++ [LF].

Definition charge111 : ndarray float4 := mk (1, 1, 1) [f_one].

(** A 2 x 2 x 2 field. *)
Definition header222 : str :=
  lit "# si" ++ [LF]
  ++ lit "#        2        2        2        2        2        2        1        1"
  ++ [LF].

Definition charge222 : ndarray float4 :=
  mk (2, 2, 2)
     [f_zero; f_one; f_half; f_minus_two; f_one; f_half; f_zero; f_one].

End Sample.

(** ** The pseudopotential reader: [read_pseudo_file] *)

(** An [xml.etree.ElementTree.Element]: tag, attributes in document
    order, the text before the first child (or [None]) and the children. *)
Inductive Element : Type :=
| Elem (tag : str) (attrib : list (str * str)) (text : option str)
       (children : list Element).

Definition tag (e : Element) : str := let 'Elem t _ _ _ := e in t.
Definition attrib (e : Element) : list (str * str) := let 'Elem _ a _ _ := e in a.
Definition text (e : Element) : option str := let 'Elem _ _ t _ := e in t.
Definition children (e : Element) : list Element := let 'Elem _ _ _ c := e in c.

Definition children_named (name : str) (e : Element) : list Element :=
  List.filter (fun c => eqb (tag c) name) (children e).

(** [e.find('./a')] and [e.find('./a/b')]: the first match in document
    order, or [None]. *)
Definition find1 (a : str) (e : Element) : option Element :=
  head (children_named a e).

Definition find2 (a b : str) (e : Element) : option Element :=
  head (children_named a e ≫= children_named b).

(** [p in s] for strings *)
Fixpoint contains (p s : str) : bool :=
  starts_with p s ||
  match s with
  | [] => false
  | _ :: s' => contains p s'
  end.

Section Pseudo.

Variable V : Type.
Variable float : str -> option V.

(** The parser of the library, [ET.fromstringlist]; [None] stands for its
    [ParseError]. *)
Variable fromstringlist : list str -> option Element.

(** The Python values the reader builds. A [dict] is kept as the list of
    its items in insertion order. *)
Inductive pyval : Type :=
| PyNone
| PyStr (s : str)
| PyArray (a : list V)
| PyList (l : list pyval)
| PyDict (d : list (str * pyval)).

Abbreviation pydict := (list (str * pyval)).

(** [d[k] = v] *)
Fixpoint dict_set (d : pydict) (k : str) (v : pyval) : pydict :=
  match d with
  | [] => [(k, v)]
  | (k', v') :: d' =>
      if eqb k' k then (k, v) :: d' else (k', v') :: dict_set d' k v
  end.

(** [d.update(other)] *)
Definition dict_update (d other : pydict) : pydict :=
  fold_left (fun d kv => dict_set d (fst kv) (snd kv)) other d.

(** [dict(pairs)] *)
Definition dict_of (pairs : pydict) : pydict := dict_update [] pairs.

(** [dict(e.items())] *)
Definition items_dict (e : Element) : pydict :=
  dict_of ((fun kv : str * str => (fst kv, PyStr (snd kv))) <$> attrib e).

(** An attribute access on the result of [find]: [None] has none. *)
Definition node (o : option Element) : result Element :=
  match o with
  | Some e => Ok e
  | None => Raise AttributeError
  end.

Definition opt_str (o : option str) : pyval :=
  match o with
  | Some s => PyStr s
  | None => PyNone
  end.

(** [np.array([float(x) for x in e.text.split()])] *)
Definition floats (e : Element) : result (list V) :=
  match text e with
  | None => Raise AttributeError
  | Some t =>
      for_each (split t)
        (fun x acc =>
           match float x with
           | Some v => Ok (acc ++ [v])
           | None => Raise ValueError
           end) []
  end.

Definition opt_array (o : option (list V)) : pyval :=
  match o with
  | Some a => PyArray a
  | None => PyNone
  end.

(** The variables of the loop over the children of [PP_AUGMENTATION]. *)
Record aug_state : Type := {
  pp_qijl : list pyval;
  pp_qij : list pyval;
  pp_q : option (list V) }.

Definition aug_child (q : Element) (st : aug_state) : result aug_state :=
  if contains (lit "PP_QIJL") (tag q) then
    val <- floats q ;;
    let qijl := dict_update (items_dict q) [(lit "qijl", PyArray val)] in
    Ok {| pp_qijl := pp_qijl st ++ [PyDict qijl]; pp_qij := pp_qij st;
          pp_q := pp_q st |}
  else if contains (lit "PP_QIJ") (tag q) then
    val <- floats q ;;
    let qij := dict_update (items_dict q) [(lit "qij", PyArray val)] in
    Ok {| pp_qijl := pp_qijl st; pp_qij := pp_qij st ++ [PyDict qij];
          pp_q := pp_q st |}
  else if eqb (tag q) (lit "PP_Q") then
    val <- floats q ;;
    Ok {| pp_qijl := pp_qijl st; pp_qij := pp_qij st; pp_q := Some val |}
  else Ok st.

(** The variables of the loop over the children of [PP_NONLOCAL]. *)
Record nonlocal_state : Type := {
  betas : list pyval;
  dij : option (list V);
  pp_aug : option pydict;
  nl_pp_q : option (list V) }.

Definition nonlocal_child (el : Element) (st : nonlocal_state)
  : result nonlocal_state :=
  if contains (lit "PP_BETA") (tag el) then
    val <- floats el ;;
    let beta := dict_update (items_dict el) [(lit "beta", PyArray val)] in
    Ok {| betas := betas st ++ [PyDict beta]; dij := dij st;
          pp_aug := pp_aug st; nl_pp_q := nl_pp_q st |}
  else if contains (lit "PP_DIJ") (tag el) then
    val <- floats el ;;
    Ok {| betas := betas st; dij := Some val; pp_aug := pp_aug st;
          nl_pp_q := nl_pp_q st |}
  else if contains (lit "PP_AUGMENTATION") (tag el) then
    a <- for_each (children el) aug_child
           {| pp_qijl := []; pp_qij := []; pp_q := nl_pp_q st |} ;;
    let aug := dict_update (items_dict el)
                 [(lit "PP_QIJL", PyList (pp_qijl a));
                  (lit "PP_QIJ", PyList (pp_qij a));
                  (lit "PP_Q", opt_array (pp_q a))] in
    Ok {| betas := betas st; dij := dij st; pp_aug := Some aug;
          nl_pp_q := pp_q a |}
  else Ok st.

Definition opt_dict (o : option pydict) : pyval :=
  match o with
  | Some d => PyDict d
  | None => PyNone
  end.

(** The part of [read_pseudo_file] behind the parser. *)
Definition read_tree (psroot : Element) : result pydict :=
  let pseudo : pydict := [] in
  (* PP_INFO *)
  info <- node (find1 (lit "PP_INFO") psroot) ;;
  let pp_info := opt_str (text info) in
  pp_input <- try_except
                (e <- node (find2 (lit "PP_INFO") (lit "PP_INPUTFILE") psroot) ;;
                 Ok (opt_str (text e)))
                (Ok (PyStr [])) ;;
  let pseudo := dict_update pseudo
    [(lit "PP_INFO",
      PyDict (dict_of [(lit "INFO", pp_info); (lit "PP_INPUT", pp_input)]))] in
  (* PP_HEADER *)
  header <- node (find1 (lit "PP_HEADER") psroot) ;;
  let pseudo := dict_update pseudo [(lit "PP_HEADER", PyDict (items_dict header))] in
  (* PP_MESH *)
  mesh <- node (find1 (lit "PP_MESH") psroot) ;;
  let pp_mesh := items_dict mesh in
  r <- node (find2 (lit "PP_MESH") (lit "PP_R") psroot) ;;
  pp_r <- floats r ;;
  rab <- node (find2 (lit "PP_MESH") (lit "PP_RAB") psroot) ;;
  pp_rab <- floats rab ;;
  let pp_mesh := dict_update pp_mesh
    [(lit "PP_R", PyArray pp_r); (lit "PP_RAB", PyArray pp_rab)] in
  let pseudo := dict_update pseudo [(lit "PP_MESH", PyDict pp_mesh)] in
  (* PP_LOCAL *)
  pp_local <- match find1 (lit "PP_LOCAL") psroot with
              | Some n => a <- floats n ;; Ok (PyArray a)
              | None => Ok PyNone
              end ;;
  let pseudo := dict_update pseudo [(lit "PP_LOCAL", pp_local)] in
  (* PP_RHOATOM *)
  pp_rhoatom <- match find1 (lit "PP_RHOATOM") psroot with
                | Some n => a <- floats n ;; Ok (PyArray a)
                | None => Ok PyNone
                end ;;
  let pseudo := dict_update pseudo [(lit "PP_RHOATOM", pp_rhoatom)] in
  (* PP_NONLOCAL *)
  pp_nonlocal <- match find1 (lit "PP_NONLOCAL") psroot with
                 | Some n =>
                     st <- for_each (children n) nonlocal_child
                             {| betas := []; dij := None; pp_aug := None;
                                nl_pp_q := None |} ;;
                     Ok (PyDict (dict_of
                           [(lit "PP_BETA", PyList (betas st));
                            (lit "PP_DIJ", opt_array (dij st));
                            (lit "PP_AUGMENTATION", opt_dict (pp_aug st))]))
                 | None => Ok PyNone
                 end ;;
  let pseudo := dict_update pseudo [(lit "PP_NONLOCAL", pp_nonlocal)] in
  Ok pseudo.

(** The rewriting applied to every line before parsing. *)
Definition escape_input (line : str) : str :=
  replace (lit "&input") (lit "&amp;input") line.

(** [read_pseudo_file] on the text of the file. *)
Definition read_pseudo_file (content : str) : result pydict :=
  let pseudo : pydict := [] in
  let pslines := escape_input <$> file_lines content in
  match fromstringlist pslines with
  | None => Ok pseudo
  | Some psroot => read_tree psroot
  end.

End Pseudo.

(** Sample documents, with the trees ElementTree builds for them. *)
Module SamplePseudo.

Definition DQ : ascii := ascii_of_nat 34.

(** A pseudopotential with [&input] in its [PP_INFO]. *)
Definition upf_text : str :=
  lit "<UPF version=" ++ [DQ] ++ lit "2.0.1" ++ [DQ] ++ lit ">" ++ [LF]
  ++ lit "<PP_INFO>" ++ [LF]
  ++ lit "&input" ++ [LF]
  ++ lit "</PP_INFO>" ++ [LF]
  ++ lit "<PP_HEADER element=" ++ [DQ] ++ lit "Si" ++ [DQ] ++ lit "/>" ++ [LF]
  ++ lit "<PP_MESH><PP_R>0.0 1.0</PP_R><PP_RAB>0.5 0.5</PP_RAB></PP_MESH>" ++ [LF]
  ++ lit "</UPF>" ++ [LF].

(** The text the parser has to be given for it. *)
Definition upf_escaped : str :=
  lit "<UPF version=" ++ [DQ] ++ lit "2.0.1" ++ [DQ] ++ lit ">" ++ [LF]
  ++ lit "<PP_INFO>" ++ [LF]
  ++ lit "&amp;input" ++ [LF]
  ++ lit "</PP_INFO>" ++ [LF]
  ++ lit "<PP_HEADER element=" ++ [DQ] ++ lit "Si" ++ [DQ] ++ lit "/>" ++ [LF]
  ++ lit "<PP_MESH><PP_R>0.0 1.0</PP_R><PP_RAB>0.5 0.5</PP_RAB></PP_MESH>" ++ [LF]
  ++ lit "</UPF>" ++ [LF].

Definition upf_tree : Element :=
  Elem (lit "UPF") [(lit "version", lit "2.0.1")] (Some [LF])
    [ Elem (lit "PP_INFO") [] (Some ([LF] ++ lit "&input" ++ [LF])) [];
      Elem (lit "PP_HEADER") [(lit "element", lit "Si")] None [];
      Elem (lit "PP_MESH") [] None
        [ Elem (lit "PP_R") [] (Some (lit "0.0 1.0")) [];
          Elem (lit "PP_RAB") [] (Some (lit "0.5 0.5")) [] ] ].

(** A well-formed document without [PP_HEADER]. *)
Definition no_header_text : str :=
  lit "<UPF><PP_INFO>info</PP_INFO></UPF>" ++ [LF].

Definition no_header_tree : Element :=
  Elem (lit "UPF") [] None [Elem (lit "PP_INFO") [] (Some (lit "info")) []].

(** A text that is not well formed: the element is not closed. *)
Definition unclosed_text : str := lit "<UPF>" ++ [LF].

(** [ET.fromstringlist] on the sample documents; a text outside the table
    is answered like the text that is not well formed. *)
Definition fromstringlist (lines : list str) : option Element :=
  if eqb (concat lines) upf_escaped then Some upf_tree
  else if eqb (concat lines) no_header_text then Some no_header_tree
  else None.

End SamplePseudo.

(** The rewriting in the words of the specification: every occurrence of
    [&input], met from the left, becomes [&amp;input], and every other
    character stays. *)
Inductive rewritten : str -> str -> Prop :=
| rewritten_nil : rewritten [] []
| rewritten_occurrence s s' :
    rewritten s s' ->
    rewritten (lit "&input" ++ s) (lit "&amp;input" ++ s')
| rewritten_char c s s' :
    starts_with (lit "&input") (c :: s) = false ->
    rewritten s s' ->
    rewritten (c :: s) (c :: s').

(** Lines as a file hands them over: each one but the last ends with a
    line end. *)
Inductive lines_ok : list str -> Prop :=
| lines_ok_nil : lines_ok []
| lines_ok_last l : lines_ok [l]
| lines_ok_cons txt ls : lines_ok ls -> lines_ok ((txt ++ [LF]) :: ls).

(** ** Further vocabulary and sample data *)

(** What may follow a token: the end of the string or white space. *)
Definition boundary (s : str) : Prop :=
  match s with
  | [] => True
  | c :: _ => isspace c = true
  end.

(** The grids numpy allocates: the number of bytes, counted over the
    dimensions that are not zero, has to fit its index type of 63 bits and
    a sign; [np.zeros] refuses any other grid with a [ValueError]. *)
Definition array_fits (itemsize : Z) (nr : dims) : Prop :=
  let '(n0, n1, n2) := nr in
  itemsize * ((if n0 =? 0 then 1 else n0) * (if n1 =? 0 then 1 else n1)
              * (if n2 =? 0 then 1 else n2)) < 2 ^ 63.

(** The line that sets the dimensions when the loop starts with [count]
    at [c]. *)
Definition dims_line (c : Z) (lines : list str) : option str :=
  if c <=? 1 then lines !! Z.to_nat (1 - c) else None.

(** The tokens of the lines that are not skipped. *)
Definition value_tokens (lines : list str) : list str :=
  concat (List.filter (fun ts => negb (is_header ts)) (split <$> lines)).


(** A charge file with one coefficient [1 + 0i] at the Miller index
    [(-1,0,0)] and no [rhodiff_g]. *)
Definition sample_h5 : h5file :=
  {| attr_ngm_g := Some 1;
     MillerIndices := Some [(-1, 0, 0)];
     rhotot_g := Some [1%R; 0%R];
     rhodiff_g := None |}.

(** A grid of two cells. *)
Definition sample_grid : ndarray Z := mk (2, 1, 1) [0; 0].

(** The sample header with two values for a grid of one point. *)
Definition surplus_text : str :=
  Sample.header111 ++ lit "  1.000000000E+00  5.000000000E-01" ++ [LF].

(** ** More of Python's strings *)

Module StrMore.

(** [s.split(sep)] for a separator of one character: the pieces between
    the separators, empty ones included; never the empty list. *)
Fixpoint split_on (sep : ascii) (s : str) : list str :=
  match s with
  | [] => [[]]
  | c :: s' =>
      if Ascii.eqb c sep then [] :: split_on sep s'
      else match split_on sep s' with
           | p :: ps => (c :: p) :: ps
           | [] => [[c]]
           end
  end.

Fixpoint lstrip (f : ascii -> bool) (s : str) : str :=
  match s with
  | c :: s' => if f c then lstrip f s' else s
  | [] => []
  end.

Definition rstrip (f : ascii -> bool) (s : str) : str :=
  rev (lstrip f (rev s)).

(** [s.strip(chars)], with the set of characters as a test. *)
Definition strip (f : ascii -> bool) (s : str) : str := rstrip f (lstrip f s).

Definition one_of (chars : str) (c : ascii) : bool :=
  existsb (Ascii.eqb c) chars.

(** The white space [int] passes over at both ends of its argument. *)
Definition int_space (c : ascii) : bool :=
  let n := nat_of_ascii c in
  ((9 <=? n) && (n <=? 13) || (n =? 32) || (n =? 133) || (n =? 160))%nat.

(** [int(s)] on any string. *)
Definition int_of (s : str) : result Z := int (strip int_space s).

Definition digit_char (d : Z) : ascii := ascii_of_nat (48 + Z.to_nat d).

(** The decimal digits of a number that is not negative, in front of
    [acc]; [fuel] bounds the number of digits. *)
Fixpoint digits_of (fuel : nat) (n : Z) (acc : str) : str :=
  match fuel with
  | O => acc
  | S fuel' =>
      let acc' := digit_char (n mod 10) :: acc in
      if n <? 10 then acc' else digits_of fuel' (n / 10) acc'
  end.

(** The decimal notation of an integer, which is what [str(n)] returns
    for a number within the limit of digits; a number below [2^k] has at
    most [k] digits. *)
Definition str_of_int (n : Z) : str :=
  if n <? 0 then "-"%char :: digits_of (S (Z.to_nat (Z.log2 (- n)))) (- n) []
  else digits_of (S (Z.to_nat (Z.log2 n))) n [].

(** The least number that has more digits than [str] and [format]
    write: [10^4300]. *)
Definition str_limit : Z := 10 ^ Z.of_nat max_str_digits.

(** The decimal notation behind as many blanks as are missing to the
    width [w]. *)
Definition pad_d (w : nat) (n : Z) : str :=
  let s := str_of_int n in
  replicate (w - length s) " "%char ++ s.

(** ["{:wd}".format(n)]: a [ValueError] for a number with more digits
    than the limit. *)
Definition format_d (w : nat) (n : Z) : result str :=
  if Z.abs n <? str_limit then Ok (pad_d w n) else Raise ValueError.

(** The characters of a decimal number: the digits and the minus sign. *)
Definition dec_char (c : ascii) : bool :=
  match digit_value c with
  | Some _ => true
  | None => Ascii.eqb c "-"%char
  end.

End StrMore.
Import StrMore.

(** ** [read_EtotV] *)

Section EtotV.

Variable V : Type.
Variable float : str -> option V.

(** The body of the loop; the state is [Vx] and [Ex]. *)
Definition read_EtotV_line (line : str) (st : list V * list V)
  : result (list V * list V) :=
  let linesplit := split line in
  t0 <- item linesplit 0 ;;
  v <- to_float V float t0 ;;
  t1 <- item linesplit 1 ;;
  e <- to_float V float t1 ;;
  Ok (fst st ++ [v], snd st ++ [e]).

Definition read_EtotV (content : str) : result (list V * list V) :=
  for_each (file_lines content) read_EtotV_line ([], []).

(** A line of the file with the pair of numbers it gives. *)
Definition row (line : str) (ve : V * V) : Prop :=
  exists t0 t1 rest,
    split line = t0 :: t1 :: rest /\
    float t0 = Some (fst ve) /\ float t1 = Some (snd ve).

End EtotV.

(** ** [vector] of [cli.py] *)

(** How a call of [vector] ends: with its value, with the
    [argparse.ArgumentTypeError] it raises, or with another exception that
    passes through its [except] clause. *)
Inductive outcome (A : Type) : Type :=
| Return (a : A)
| ArgumentTypeError
| Passes (e : exn).
Arguments Return {A} a.
Arguments ArgumentTypeError {A}.
Arguments Passes {A} e.

(** [x, y, z = map(int, pieces)]: [map] is lazy, so the pieces are
    converted one by one while the values are unpacked, and a fourth piece
    is converted before the surplus is found. *)
Definition unpack3 (pieces : list str) : result (Z * Z * Z) :=
  match pieces with
  | a :: rest1 =>
      x <- int_of a ;;
      match rest1 with
      | b :: rest2 =>
          y <- int_of b ;;
          match rest2 with
          | c :: rest3 =>
              z <- int_of c ;;
              match rest3 with
              | [] => Ok (x, y, z)
              | d :: _ => _ <- int_of d ;; Raise ValueError
              end
          | [] => Raise ValueError
          end
      | [] => Raise ValueError
      end
  | [] => Raise ValueError
  end.

Definition vector (s : str) : outcome (Z * Z * Z) :=
  match unpack3 (split_on ","%char s) with
  | Ok v => Return v
  | Raise ValueError => ArgumentTypeError
  | Raise AttributeError => ArgumentTypeError
  | Raise e => Passes e
  end.

(** ** [get_tag] *)

(** An optional slash. *)
Definition slash (b : bool) : str := if b then ["/"%char] else [].

(** [\w] on the code points below 256. *)
Definition is_word (c : ascii) : bool :=
  let n := nat_of_ascii c in
  ((48 <=? n) && (n <=? 57) || (65 <=? n) && (n <=? 90) || (n =? 95)
   || (97 <=? n) && (n <=? 122) || (n =? 170) || (n =? 178) || (n =? 179)
   || (n =? 181) || (n =? 185) || (n =? 186) || (188 <=? n) && (n <=? 190)
   || (192 <=? n) && (n <=? 214) || (216 <=? n) && (n <=? 246)
   || (248 <=? n))%nat.

Definition DQUOTE : ascii := ascii_of_nat 34.

(** The character class of the pattern: a word character, a blank, or
    one of [=], [+], [-], [.] and the double quote. *)
Definition tag_char (c : ascii) : bool :=
  is_word c || one_of (" "%char :: "="%char :: "+"%char :: "-"%char
                       :: "."%char :: [DQUOTE]) c.

(** One optional slash at the head of a string. *)
Definition skip_slash (s : str) : str :=
  match s with
  | c :: s' => if Ascii.eqb c "/"%char then s' else s
  | [] => []
  end.

(** [pat.match(line)]: the pattern is [<], an optional slash, one or
    more characters of the class, an optional slash and [>]. It has to
    match at the head of the line, and what follows the match is not
    looked at. Neither the slash nor [>] is in the class, so the longest
    run of class characters is the only one that can be followed by a
    match of the rest. *)
Definition tag_match (line : str) : bool :=
  match line with
  | c :: s =>
      Ascii.eqb c "<"%char
      && (let s1 := skip_slash s in
          let s2 := lstrip tag_char s1 in
          negb (length s2 =? length s1)%nat
          && match skip_slash s2 with
             | c' :: _ => Ascii.eqb c' ">"%char
             | [] => false
             end)
  | [] => false
  end.

Definition get_tag (line : str) : option str :=
  let line := strip (one_of (" "%char :: LF :: [ascii_of_nat 9])) line in
  if tag_match line
  then Some (strip (one_of (" "%char :: "<"%char :: [">"%char])) line)
  else None.

(** ** [create_header] *)

(** A string without line end. *)
Definition no_line_end (s : str) : Prop := (LF ∉ s) /\ (CR ∉ s).

(** [args[i]] for a replacement field [{}] of [str.format]: a missing
    argument is an [IndexError], a surplus one is ignored. *)
Definition arg {A} (args : list A) (i : nat) : result A :=
  match args !! i with
  | Some x => Ok x
  | None => Raise IndexError
  end.

(** The integers [create_header] formats on the second and the third line
    of the header. *)
Definition header_ints (nr nr_smooth : dims) (nat_ ntyp ibrav : Z) : list Z :=
  let '(nr0, nr1, nr2) := nr in
  let '(ns0, ns1, ns2) := nr_smooth in
  [nr0; nr1; nr2; ns0; ns1; ns2; nat_; ntyp; ibrav].

Section CreateHeader.

(** The floats with the two formats of the header, ["{:8E}".format] and
    ["{:9E}".format], and the items of a position with the conversion
    [float(x)]. *)
Variable V : Type.
Variable formatE8 : V -> str.
Variable formatE9 : V -> str.
Variable T : Type.
Variable float_of : T -> option V.

(** An entry of [atomic_positions]: the values under the keys ['$'] and
    ['@name'], each of which may be missing. An entry of [atomic_species]
    is the value under ['@name'], which may be missing. *)
Record position : Type := {
  coords : option (list T);
  pos_name : option str }.

(** [[float(x) for x in l]] *)
Definition floats_of (l : list T) : result (list V) :=
  for_each l
    (fun x acc =>
       match float_of x with
       | Some v => Ok (acc ++ [v])
       | None => Raise ValueError
       end) [].

(** The body of the loop over [atomic_species]; the state is [text] and
    [ityp]. *)
Definition species_line (typ : option str) (st : str * Z) : result (str * Z) :=
  ityp <- format_d 4 (snd st) ;;
  name <- dataset typ ;;
  Ok (fst st ++ lit "# " ++ ityp ++ lit " " ++ name ++ [LF], snd st + 1).

(** The body of the loop over [atomic_positions]; the state is [text] and
    [ipos]. *)
Definition position_line (pos : position) (st : str * Z) : result (str * Z) :=
  ipos <- format_d 4 (snd st) ;;
  let text := fst st ++ lit "# " ++ ipos ++ lit "  " in
  xs <- dataset (coords pos) ;;
  cs <- floats_of xs ;;
  c0 <- arg cs 0 ;;
  c1 <- arg cs 1 ;;
  c2 <- arg cs 2 ;;
  let text := text ++ lit " " ++ formatE9 c0 ++ lit " " ++ formatE9 c1
                   ++ lit " " ++ formatE9 c2 ++ lit "  " in
  name <- dataset (pos_name pos) ;;
  Ok (text ++ name ++ [LF], snd st + 1).

(** A position [create_header] can print: three or more items under
    ['$'] that convert to floats, and a name. *)
Definition printable (pos : position) : Prop :=
  (exists xs, coords pos = Some xs /\ (3 <= length xs)%nat /\
              Forall (fun x => is_Some (float_of x)) xs) /\
  is_Some (pos_name pos).

Definition create_header (prefix : str) (nr nr_smooth : dims) (ibrav : Z)
    (celldms : list V) (nat_ ntyp : Z) (atomic_species : list (option str))
    (atomic_positions : list position) : result str :=
  let '(nr0, nr1, nr2) := nr in
  let '(ns0, ns1, ns2) := nr_smooth in
  let text := lit "# " ++ prefix ++ [LF] in
  f0 <- format_d 8 nr0 ;;
  f1 <- format_d 8 nr1 ;;
  f2 <- format_d 8 nr2 ;;
  f3 <- format_d 8 ns0 ;;
  f4 <- format_d 8 ns1 ;;
  f5 <- format_d 8 ns2 ;;
  f6 <- format_d 8 nat_ ;;
  f7 <- format_d 8 ntyp ;;
  let text := text ++ lit "# " ++ f0 ++ lit " " ++ f1 ++ lit " " ++ f2
                   ++ lit " " ++ f3 ++ lit " " ++ f4 ++ lit " " ++ f5
                   ++ lit " " ++ f6 ++ lit " " ++ f7 ++ [LF] in
  fb <- format_d 6 ibrav ;;
  c0 <- arg celldms 0 ;;
  c1 <- arg celldms 1 ;;
  c2 <- arg celldms 2 ;;
  c3 <- arg celldms 3 ;;
  c4 <- arg celldms 4 ;;
  c5 <- arg celldms 5 ;;
  let text := text ++ lit "# " ++ fb ++ lit "    " ++ formatE8 c0
                   ++ lit "  " ++ formatE8 c1 ++ lit "  " ++ formatE8 c2
                   ++ lit "  " ++ formatE8 c3 ++ lit "  " ++ formatE8 c4
                   ++ lit "  " ++ formatE8 c5 ++ [LF] in
  let text := text ++ lit "#      " ++ concat (replicate 4 (lit "XXXX   "))
                   ++ [LF] in
  st <- for_each atomic_species species_line (text, 1) ;;
  st <- for_each atomic_positions position_line (fst st, 1) ;;
  Ok (fst st).

End CreateHeader.

(** The sample floats under ["{:8E}"] and ["{:9E}"], which print the
    same text for them. *)
Definition sample_formatE (v : Sample.float4) : str :=
  match v with
  | Sample.f_zero => lit "0.000000E+00"
  | Sample.f_one => lit "1.000000E+00"
  | Sample.f_half => lit "5.000000E-01"
  | Sample.f_minus_two => lit "-2.000000E+00"
  end.

(** ** [read_wavefunction_file_hdf5] *)

(** A mapping with strings as keys, kept as the list of its items in
    insertion order: [d.get(k)], [d[k]] and [d[k] = v]. *)
Fixpoint lookup_key {X} (k : str) (d : list (str * X)) : option X :=
  match d with
  | [] => None
  | (k', x) :: d' => if eqb k' k then Some x else lookup_key k d'
  end.

Definition getitem_key {X} (d : list (str * X)) (k : str) : result X :=
  match lookup_key k d with
  | Some x => Ok x
  | None => Raise KeyError
  end.

Fixpoint setitem_key {X} (d : list (str * X)) (k : str) (x : X)
  : list (str * X) :=
  match d with
  | [] => [(k, x)]
  | (k', x') :: d' =>
      if eqb k' k then (k, x) :: d' else (k', x') :: setitem_key d' k x
  end.

(** The exceptions a computation may end with. *)
Definition raises_within {A} (es : list exn) (m : result A) : Prop :=
  forall e, m = Raise e -> e ∈ es.

Section Wavefunction.

(** The values of the file: an attribute holds an integer or a value of
    another kind, a data set holds data. *)
Variable A : Type.
Variable D : Type.

Inductive attr_value : Type :=
| AInt (n : Z)
| AOther (a : A).

(** A group of the file with its attributes and its data sets, by name.
    The members of the file are taken to be groups of data sets. *)
Record kgroup : Type := {
  g_attrs : list (str * attr_value);
  g_bands : list (str * D) }.

Abbreviation wfc_file := (list (str * kgroup)).

(** The values of the dictionary of a k-point: [None], an attribute or
    the array of a band. *)
Inductive wfc_value : Type :=
| WNone
| WAttr (v : attr_value)
| WArray (d : D).

Abbreviation wfc_dict := (list (str * wfc_value)).

Definition attrs_to_read : list str :=
  [lit "gamma_only"; lit "igwx"; lit "ik"; lit "ispin"; lit "ngw"; lit "nk";
   lit "nbnd"; lit "nspin"; lit "scale_factor"].

(** [group.attrs.get(attr)] *)
Definition attrs_get (g : kgroup) (attr : str) : wfc_value :=
  match lookup_key attr (g_attrs g) with
  | Some v => WAttr v
  | None => WNone
  end.

(** ["KPOINT"+str(i+1)] and ["BAND"+str(iband+1)]: the numbers are below
    the length of a list or the value of an integer attribute of the
    file, which hold 64 bits, so that [str] does not meet its limit of
    digits. *)
Definition kpoint_label (i : Z) : str := lit "KPOINT" ++ str_of_int (i + 1).
Definition band_label (iband : Z) : str := lit "BAND" ++ str_of_int (iband + 1).

(** The body of [for attr in attrs_to_read]. *)
Definition read_attr (f : wfc_file) (label : str) (attr : str) (temp : wfc_dict)
  : result wfc_dict :=
  g <- getitem_key f label ;;
  Ok (setitem_key temp attr (attrs_get g attr)).

(** The bound of [range(0, temp[nbnd])]: the value has to be an integer. *)
Definition band_count (temp : wfc_dict) : result Z :=
  v <- getitem_key temp (lit "nbnd") ;;
  match v with
  | WAttr (AInt n) => Ok n
  | _ => Raise TypeError
  end.

(** The body of [for iband in range(0, temp[nbnd])]. *)
Definition read_band (f : wfc_file) (label : str) (iband : Z) (temp : wfc_dict)
  : result wfc_dict :=
  g <- getitem_key f label ;;
  d <- getitem_key (g_bands g) (band_label iband) ;;
  Ok (setitem_key temp (band_label iband) (WArray d)).

(** The body of [for i in range(0, nkpoints)]. *)
Definition read_kpoint (f : wfc_file) (i : Z)
    (wavefunctions : list (str * wfc_dict)) : result (list (str * wfc_dict)) :=
  let temp : wfc_dict := [] in
  temp <- for_each attrs_to_read (read_attr f (kpoint_label i)) temp ;;
  nbnd <- band_count temp ;;
  temp <- for_each (range nbnd) (read_band f (kpoint_label i)) temp ;;
  Ok (setitem_key wavefunctions (kpoint_label i) temp).

Definition read_wavefunction_file_hdf5 (f : wfc_file)
  : result (list (str * wfc_dict)) :=
  g <- getitem_key f (lit "KPOINT1") ;;
  let nkpoints := Z.of_nat (length (g_attrs g)) in
  for_each (range nkpoints) (read_kpoint f) [].

(** What the reader stores for a group: the nine attributes, then the
    bands. *)
Definition kpoint_dict (g : kgroup) (bands : list D) : wfc_dict :=
  ((fun attr => (attr, attrs_get g attr)) <$> attrs_to_read)
  ++ zip (band_label <$> range (Z.of_nat (length bands))) (WArray <$> bands).

(** A group the reader can take in, with the data of its bands: it has an
    integer [nbnd] and the data sets [BAND1] to [BANDnbnd]. *)
Definition complete (g : kgroup) (bands : list D) : Prop :=
  exists nbnd,
    lookup_key (lit "nbnd") (g_attrs g) = Some (AInt nbnd) /\
    Forall2 (fun j d => lookup_key (band_label j) (g_bands g) = Some d)
      (range nbnd) bands.

(** The group [KPOINTi+1] of the file is there and complete, and [temp]
    is what the reader stores for it. *)
Definition kpoint_entry (f : wfc_file) (i : Z) (temp : wfc_dict) : Prop :=
  exists g bands,
    lookup_key (kpoint_label i) f = Some g /\ complete g bands /\
    temp = kpoint_dict g bands.

End Wavefunction.

(** ** Further vocabulary for the pseudopotential reader *)

(** The keys of the dictionary [read_pseudo_file] builds from a tree. *)
Definition pseudo_keys : list str :=
  [lit "PP_INFO"; lit "PP_HEADER"; lit "PP_MESH"; lit "PP_LOCAL";
   lit "PP_RHOATOM"; lit "PP_NONLOCAL"].

(** The children of [PP_NONLOCAL] that are taken for projectors: those
    with [PP_BETA] somewhere in their tag. *)
Definition beta_children (n : Element) : list Element :=
  List.filter (fun el => contains (lit "PP_BETA") (tag el)) (children n).

Section PseudoVocabulary.

Variable V : Type.
Variable float : str -> option V.

(** The entry of the list under [PP_BETA] made from a child: its
    attributes, and its numbers under the key [beta]. *)
Definition beta_entry (el : Element) (b : pyval V) : Prop :=
  exists val,
    floats V float el = Ok val /\
    b = PyDict V (dict_update V (items_dict V el) [(lit "beta", PyArray V val)]).

End PseudoVocabulary.

(** A pseudopotential with two projectors around a [PP_DIJ]. *)
Definition nonlocal_tree : Element :=
  Elem (lit "UPF") [] None
    [ Elem (lit "PP_INFO") [] (Some (lit "info")) [];
      Elem (lit "PP_HEADER") [(lit "element", lit "Si")] None [];
      Elem (lit "PP_MESH") [] None
        [ Elem (lit "PP_R") [] (Some (lit "0.0 1.0")) [];
          Elem (lit "PP_RAB") [] (Some (lit "0.5 0.5")) [] ];
      Elem (lit "PP_NONLOCAL") [] None
        [ Elem (lit "PP_BETA.1") [(lit "index", lit "1")] (Some (lit "1.0 0.5")) [];
          Elem (lit "PP_DIJ") [] (Some (lit "1.0")) [];
          Elem (lit "PP_BETA.2") [(lit "index", lit "2")] (Some (lit "0.5")) [] ] ].

(** A file of wave functions with one group, which has two attributes and
    one band. *)
Definition sample_wfc : list (str * kgroup unit Z) :=
  [(lit "KPOINT1",
    {| g_attrs := [(lit "nbnd", AInt unit 1); (lit "ik", AInt unit 1)];
       g_bands := [(lit "BAND1", 7)] |})].

(** The same group with the attribute [nbnd] only. *)
Definition sample_wfc1 : list (str * kgroup unit Z) :=
  [(lit "KPOINT1",
    {| g_attrs := [(lit "nbnd", AInt unit 1)];
       g_bands := [(lit "BAND1", 7)] |})].

(** ** Sample data for the further properties *)

(** The arguments of a call of [create_header] for silicon. *)
Definition sample_celldms : list Sample.float4 :=
  [Sample.f_one; Sample.f_zero; Sample.f_zero; Sample.f_zero; Sample.f_zero;
   Sample.f_zero].

Definition sample_species : list (option str) := [Some (lit "Si")].

Definition sample_positions : list (position str) :=
  [ {| coords := Some [lit "0.0"; lit "0.5"; lit "0.0"];
       pos_name := Some (lit "Si") |} ].

Definition sample_header (nr : dims) : result str :=
  create_header Sample.float4 sample_formatE sample_formatE str Sample.float
    (lit "si") nr nr 2 sample_celldms 1 1 sample_species sample_positions.


Definition sample_h5_odd : h5file :=
  {| attr_ngm_g := Some 1;
     MillerIndices := Some [(-1, 0, 0)];
     rhotot_g := Some [1%R; 0%R];
     rhodiff_g := Some [1%R] |}.

Definition sample_h5_origin : h5file :=
  {| attr_ngm_g := Some 1;
     MillerIndices := Some [(0, 0, 0)];
     rhotot_g := Some [3%R; 0%R];
     rhodiff_g := None |}.

(** Texts for the reader of the text codec: a header with a negative
    dimension, a single line of values, and a field followed by an empty
    line. *)
Definition negative_text : str :=
  lit "# si" ++ [LF] ++ lit "# -1 1 1" ++ [LF].

Definition one_line_text : str := lit "1.0 0.5" ++ [LF].

Definition blank_line_text : str :=
  Sample.header111 ++ lit "  1.000000000E+00" ++ [LF] ++ [LF].

(** A table of volumes and energies whose second line has one number. *)
Definition short_EtotV_text : str :=
  lit "1.0 0.5" ++ [LF] ++ lit "1.0" ++ [LF].

(** * Properties *)

(** ** The error monad *)

Lemma bind_Ok {A B} (m : result A) (k : A -> result B) b :
  bind m k = Ok b -> exists a, m = Ok a /\ k a = Ok b.
Proof. destruct m as [a|e]; simpl; [eauto | discriminate]. Qed.

Lemma for_each_app {X S} (xs ys : list X) (body : X -> S -> result S) s :
  for_each (xs ++ ys) body s = bind (for_each xs body s) (for_each ys body).
Proof.
  revert s. induction xs as [|x xs IH]; intros s; simpl; [reflexivity|].
  destruct (body x s); simpl; auto.
Qed.

(** ** No [FormatError]

    A computation that does not end in [FormatError]; the functions are
    built from parts of that kind. *)

Lemma builtin_Ok {A} (a : A) : builtin_only (Ok a).
Proof. discriminate. Qed.

Lemma builtin_Raise {A} e : e <> FormatError -> builtin_only (@Raise A e).
Proof. intros He [= E]. contradiction. Qed.

Lemma builtin_bind {A B} (m : result A) (k : A -> result B) :
  builtin_only m -> (forall a, builtin_only (k a)) -> builtin_only (bind m k).
Proof. intros Hm Hk. destruct m as [a|e]; simpl; [apply Hk|]. intros [= ->]. apply Hm. reflexivity. Qed.

Lemma builtin_for_each {X S} (l : list X) (body : X -> S -> result S) s :
  (forall x s, builtin_only (body x s)) -> builtin_only (for_each l body s).
Proof.
  intros Hb. revert s. induction l as [|x l IH]; intros s; simpl.
  - apply builtin_Ok.
  - apply builtin_bind; [apply Hb|exact IH].
Qed.

Lemma builtin_try_except {A} (m h : result A) :
  builtin_only h -> builtin_only (try_except m h).
Proof. intros Hh. destruct m; simpl; [apply builtin_Ok|exact Hh]. Qed.

Ltac builtin :=
  repeat first
    [ apply builtin_Ok
    | apply builtin_Raise; discriminate
    | apply builtin_bind; [|intros ?]
    | apply builtin_for_each; intros ? ?
    | apply builtin_try_except
    | match goal with
      | |- builtin_only (match ?x with _ => _ end) => destruct x
      end ].

Ltac inv_bind H :=
  let a := fresh "a" in
  let Ha := fresh "Ha" in
  apply bind_Ok in H; destruct H as (a & Ha & H).

Tactic Notation "bind_inv" hyp(H) "as" ident(a) ident(Ha) :=
  apply bind_Ok in H; destruct H as (a & Ha & H).

(** ** Indexing *)

Lemma norm_index_range n i :
  - n <= i < n -> norm_index n i = Ok (i mod n).
Proof.
  intros Hi. unfold norm_index.
  destruct (Z.ltb_spec i 0).
  - destruct (Z.leb_spec (- n) i); [|lia].
    f_equal. apply Z.mod_unique with (q := -1); lia.
  - destruct (Z.ltb_spec i n); [|lia].
    f_equal. symmetry. apply Z.mod_small. lia.
Qed.

Lemma norm_index_Ok n i i' :
  norm_index n i = Ok i' -> - n <= i < n /\ i' = i mod n.
Proof.
  intros H. assert (Hr : - n <= i < n).
  { unfold norm_index in H.
    destruct (Z.ltb_spec i 0); [destruct (Z.leb_spec (- n) i)|
                                destruct (Z.ltb_spec i n)];
      try discriminate; lia. }
  split; [exact Hr|]. rewrite norm_index_range in H by exact Hr. congruence.
Qed.

Lemma locate_range n1 n2 n3 i j k :
  - n1 <= i < n1 -> - n2 <= j < n2 -> - n3 <= k < n3 ->
  locate (n1, n2, n3) (i, j, k) = Ok (i mod n1, j mod n2, k mod n3).
Proof.
  intros. unfold locate. rewrite !norm_index_range by assumption. reflexivity.
Qed.

Lemma locate_in_grid nr p : in_grid nr p -> locate nr p = Ok p.
Proof.
  destruct nr as [[n1 n2] n3], p as [[i j] k]. intros (Hi & Hj & Hk).
  rewrite locate_range by lia. rewrite !Z.mod_small by lia. reflexivity.
Qed.

Lemma locate_Ok nr p q : locate nr p = Ok q -> in_grid nr q.
Proof.
  destruct nr as [[n1 n2] n3], p as [[i j] k]. unfold locate. intros H.
  inv_bind H. inv_bind H. inv_bind H. injection H as <-.
  apply norm_index_Ok in Ha, Ha0, Ha1.
  destruct Ha as [? ->], Ha0 as [? ->], Ha1 as [? ->].
  repeat split; apply Z.mod_pos_bound; lia.
Qed.

Lemma offset_bound nr p :
  in_grid nr p -> 0 <= offset nr p < size nr.
Proof.
  destruct nr as [[n1 n2] n3], p as [[i j] k]. simpl. intros (Hi & Hj & Hk).
  assert (0 <= i * n2) by (apply Z.mul_nonneg_nonneg; lia).
  assert (0 <= (i * n2 + j) * n3) by (apply Z.mul_nonneg_nonneg; lia).
  split; [lia|].
  assert (i * n2 <= (n1 - 1) * n2) by (apply Z.mul_le_mono_nonneg_r; lia).
  assert ((i * n2 + j) * n3 <= (n1 * n2 - 1) * n3)
    by (apply Z.mul_le_mono_nonneg_r; lia).
  lia.
Qed.

Lemma offset_inj nr p q :
  in_grid nr p -> in_grid nr q -> offset nr p = offset nr q -> p = q.
Proof.
  destruct nr as [[n1 n2] n3], p as [[i j] k], q as [[x y] z]. simpl.
  intros (Hi & Hj & Hk) (Hx & Hy & Hz) H.
  assert (Hkz : k = z).
  { assert (E : ((i * n2 + j) * n3 + k) mod n3 = ((x * n2 + y) * n3 + z) mod n3)
      by (rewrite H; reflexivity).
    rewrite !(Z.add_comm _ k), !(Z.add_comm _ z), !Z.mod_add in E by lia.
    rewrite !Z.mod_small in E by lia. exact E. }
  subst z.
  assert (H' : i * n2 + j = x * n2 + y) by nia.
  assert (Hjy : j = y).
  { assert (E : (i * n2 + j) mod n2 = (x * n2 + y) mod n2)
      by (rewrite H'; reflexivity).
    rewrite !(Z.add_comm _ j), !(Z.add_comm _ y), !Z.mod_add in E by lia.
    rewrite !Z.mod_small in E by lia. exact E. }
  subst y. assert (i = x) by nia. congruence.
Qed.

Lemma setitem_Ok {A} (a g : ndarray A) p v :
  setitem a p v = Ok g ->
  exists q, locate (shape a) p = Ok q /\
            g = mk (shape a) (<[Z.to_nat (offset (shape a) q) := v]> (data a)).
Proof. unfold setitem. intros H. inv_bind H. injection H as <-. eauto. Qed.

Lemma setitem_shape {A} (a g : ndarray A) p v :
  setitem a p v = Ok g -> shape g = shape a.
Proof. intros H. apply setitem_Ok in H as (q & _ & ->). reflexivity. Qed.

Lemma setitem_wf {A} (a g : ndarray A) p v :
  wf a -> setitem a p v = Ok g -> wf g.
Proof.
  intros Hwf H. apply setitem_Ok in H as (q & _ & ->).
  unfold wf in *. simpl. destruct (shape a) as [[n1 n2] n3].
  rewrite length_insert. exact Hwf.
Qed.

Lemma wf_length {A} (a : ndarray A) :
  wf a -> Z.of_nat (length (data a)) = size (shape a).
Proof. unfold wf, size. destruct (shape a) as [[n1 n2] n3]. tauto. Qed.

Lemma getitem_setitem_eq {A} (a g : ndarray A) p v :
  wf a -> setitem a p v = Ok g -> getitem g p = Ok v.
Proof.
  intros Hwf H. apply setitem_Ok in H as (q & Hq & ->).
  unfold getitem. simpl. rewrite Hq. simpl.
  pose proof (offset_bound _ _ (locate_Ok _ _ _ Hq)) as Hb.
  rewrite list_lookup_insert_eq; [reflexivity|].
  apply wf_length in Hwf. lia.
Qed.

Lemma getitem_setitem_ne {A} (a g : ndarray A) p p' v :
  setitem a p v = Ok g -> locate (shape a) p' <> locate (shape a) p ->
  getitem g p' = getitem a p'.
Proof.
  intros H Hne. apply setitem_Ok in H as (q & Hq & ->).
  unfold getitem. simpl. destruct (locate (shape a) p') as [q'|e] eqn:Hq';
    simpl; [|reflexivity].
  rewrite list_lookup_insert_ne; [reflexivity|].
  intros E. apply Hne. rewrite Hq. f_equal.
  apply (offset_inj (shape a)); eauto using locate_Ok.
  pose proof (offset_bound _ _ (locate_Ok _ _ _ Hq)).
  pose proof (offset_bound _ _ (locate_Ok _ _ _ Hq')). lia.
Qed.

(** ** The scatter loop *)

Lemma scatter_app {A} (a : ndarray A) l1 l2 :
  scatter a (l1 ++ l2) = bind (scatter a l1) (fun g => scatter g l2).
Proof.
  revert a. induction l1 as [|[p c] l1 IH]; intros a; simpl; [reflexivity|].
  destruct (setitem a p c); simpl; auto.
Qed.

Lemma scatter_shape {A} (a g : ndarray A) l :
  scatter a l = Ok g -> shape g = shape a.
Proof.
  revert a. induction l as [|[p c] l IH]; intros a H; simpl in H.
  - congruence.
  - inv_bind H. rewrite (IH _ H). eauto using setitem_shape.
Qed.

Lemma scatter_wf {A} (a g : ndarray A) l :
  wf a -> scatter a l = Ok g -> wf g.
Proof.
  revert a. induction l as [|[p c] l IH]; intros a Hwf H; simpl in H.
  - congruence.
  - inv_bind H. eauto using setitem_wf.
Qed.

(** Writes to other cells leave a cell as it is. *)
Lemma scatter_untouched {A} (a g : ndarray A) l p :
  scatter a l = Ok g ->
  (forall q, q ∈ l.*1 -> locate (shape a) q <> locate (shape a) p) ->
  getitem g p = getitem a p.
Proof.
  revert a. induction l as [|[q c] l IH]; intros a H Hne; simpl in H.
  - congruence.
  - inv_bind H. rewrite (IH _ H).
    + eapply getitem_setitem_ne; [eassumption|].
      intros E. apply (Hne q); [left | symmetry; exact E].
    + rewrite (setitem_shape _ _ _ _ Ha). intros q' Hq'. apply Hne. right.
      exact Hq'.
Qed.

(** Two grids that differ in one cell only are the same again once the
    loop has written that cell. *)
Lemma scatter_overwritten {A} nr (d : list A) o x y l p q :
  locate nr p = Ok q -> Z.to_nat (offset nr q) = o -> p ∈ l.*1 ->
  scatter (mk nr (<[o:=x]> d)) l = scatter (mk nr (<[o:=y]> d)) l.
Proof.
  intros Hq Ho. revert d. induction l as [|[p' c] l IH]; intros d Hin.
  - inversion Hin.
  - simpl. unfold setitem. simpl.
    destruct (locate nr p') as [q'|e] eqn:Hq'; simpl; [|reflexivity].
    destruct (decide (Z.to_nat (offset nr q') = o)) as [->|Hne].
    + rewrite !list_insert_insert_eq. reflexivity.
    + rewrite !(list_insert_insert_ne _ _ o) by exact Hne.
      apply IH. simpl in Hin. apply elem_of_cons in Hin as [->|Hin]; [|exact Hin].
      exfalso. apply Hne. rewrite <- Ho. congruence.
Qed.

(** C9. A Miller index whose components lie in [-nr1 <= i < nr1],
    [-nr2 <= j < nr2], [-nr3 <= k < nr3] does not fail in the scatter
    step: the assignment stores the coefficient in the cell
    [(i mod nr1, j mod nr2, k mod nr3)], so a negative component counts
    from the end of its axis, every other cell keeps its value, and the
    loop goes on with that grid. *)
Theorem scatter_step_wraps {A} (rho_temp : ndarray A) nr1 nr2 nr3 i j k
    (rho : A) (rest : list (dims * A)) :
  wf rho_temp -> shape rho_temp = (nr1, nr2, nr3) ->
  - nr1 <= i < nr1 -> - nr2 <= j < nr2 -> - nr3 <= k < nr3 ->
  exists g,
    setitem rho_temp (i, j, k) rho = Ok g /\
    scatter rho_temp (((i, j, k), rho) :: rest) = scatter g rest /\
    shape g = (nr1, nr2, nr3) /\
    in_grid (nr1, nr2, nr3) (i mod nr1, j mod nr2, k mod nr3) /\
    getitem g (i mod nr1, j mod nr2, k mod nr3) = Ok rho /\
    forall q, in_grid (nr1, nr2, nr3) q ->
              q <> (i mod nr1, j mod nr2, k mod nr3) ->
              getitem g q = getitem rho_temp q.
Proof.
  intros Hwf Hs Hi Hj Hk.
  pose proof (locate_range _ _ _ _ _ _ Hi Hj Hk) as Hloc.
  pose proof (locate_Ok _ _ _ Hloc) as Hgrid.
  destruct (setitem rho_temp (i, j, k) rho) as [g|e] eqn:Hset.
  2:{ unfold setitem in Hset. rewrite Hs, Hloc in Hset. discriminate. }
  exists g. split; [reflexivity|]. split; [simpl; rewrite Hset; reflexivity|].
  split; [rewrite (setitem_shape _ _ _ _ Hset); exact Hs|].
  split; [exact Hgrid|]. split.
  - pose proof (getitem_setitem_eq _ _ _ _ Hwf Hset) as Hget.
    unfold getitem in *. rewrite (setitem_shape _ _ _ _ Hset), Hs in *.
    rewrite Hloc in Hget. rewrite (locate_in_grid _ _ Hgrid). exact Hget.
  - intros q Hq Hne. eapply getitem_setitem_ne; [exact Hset|].
    rewrite Hs, Hloc, (locate_in_grid _ _ Hq). congruence.
Qed.

(** C7. The scatter loop assigns. When an index occurs again later in
    the list, the coefficient paired with the earlier occurrence has no
    effect on the outcome of the loop; and when an occurrence is the last
    that addresses its cell, the cell ends up holding the coefficient
    paired with it. *)
Theorem scatter_last_write_wins {A} (rho_temp : ndarray A)
    (before mid after : list (dims * A)) (ijk : dims) (rho rho_last : A) :
  wf rho_temp ->
  (forall q, q ∈ after.*1 ->
             locate (shape rho_temp) q <> locate (shape rho_temp) ijk) ->
  (forall rho',
      scatter rho_temp (before ++ (ijk, rho') :: mid ++ (ijk, rho_last) :: after)
      = scatter rho_temp (before ++ (ijk, rho) :: mid ++ (ijk, rho_last) :: after))
  /\
  (forall g,
      scatter rho_temp (before ++ (ijk, rho) :: mid ++ (ijk, rho_last) :: after)
      = Ok g ->
      getitem g ijk = Ok rho_last).
Proof.
  intros Hwf Hlast. split.
  - intros rho'. rewrite !scatter_app.
    destruct (scatter rho_temp before) as [a|e]; simpl; [|reflexivity].
    unfold setitem.
    destruct (locate (shape a) ijk) as [q|e] eqn:Hq; simpl; [|reflexivity].
    eapply scatter_overwritten; [exact Hq|reflexivity|].
    rewrite fmap_app. apply elem_of_app. right. left.
  - intros g H.
    replace (before ++ (ijk, rho) :: mid ++ (ijk, rho_last) :: after)
      with ((before ++ (ijk, rho) :: mid) ++ (ijk, rho_last) :: after) in H
      by (rewrite <- app_assoc; reflexivity).
    rewrite scatter_app in H. inv_bind H. simpl in H. inv_bind H.
    pose proof (scatter_shape _ _ _ Ha) as Hs.
    pose proof (scatter_wf _ _ _ Hwf Ha) as Hwfa.
    pose proof (setitem_shape _ _ _ _ Ha0) as Hs0.
    rewrite (scatter_untouched _ _ _ ijk H).
    + eapply getitem_setitem_eq; eassumption.
    + rewrite Hs0, Hs. exact Hlast.
Qed.

(** ** Grids of zeros and the positions of a grid *)

Lemma zeros_Ok {A} (zero : A) nr1 nr2 nr3 :
  0 <= nr1 -> 0 <= nr2 -> 0 <= nr3 ->
  zeros zero (nr1, nr2, nr3)
  = Ok (mk (nr1, nr2, nr3) (replicate (Z.to_nat (nr1 * nr2 * nr3)) zero)).
Proof.
  intros. unfold zeros.
  destruct (Z.ltb_spec nr1 0), (Z.ltb_spec nr2 0), (Z.ltb_spec nr3 0);
    simpl; try lia; reflexivity.
Qed.

Lemma zeros_wf {A} (zero : A) nr a : zeros zero nr = Ok a -> wf a /\ shape a = nr.
Proof.
  destruct nr as [[n1 n2] n3]. unfold zeros.
  destruct (Z.ltb_spec n1 0), (Z.ltb_spec n2 0), (Z.ltb_spec n3 0);
    simpl; try discriminate.
  intros [= <-]. split; [|reflexivity]. unfold wf. simpl.
  rewrite length_replicate.
  assert (0 <= n1 * n2) by (apply Z.mul_nonneg_nonneg; lia).
  assert (0 <= n1 * n2 * n3) by (apply Z.mul_nonneg_nonneg; lia).
  lia.
Qed.

Lemma length_bind_const {X Y} (f : X -> list Y) (l : list X) m :
  (forall x, length (f x) = m) -> length (l ≫= f) = (length l * m)%nat.
Proof.
  intros Hf. induction l as [|x l IH]; [reflexivity|].
  rewrite bind_cons, length_app, Hf, IH. reflexivity.
Qed.

Lemma length_positions nr1 nr2 nr3 :
  0 <= nr1 -> 0 <= nr2 -> 0 <= nr3 ->
  length (positions (nr1, nr2, nr3)) = Z.to_nat (nr1 * nr2 * nr3).
Proof.
  intros. unfold positions, range.
  rewrite (length_bind_const _ _ (Z.to_nat nr2 * Z.to_nat nr3)%nat).
  - rewrite length_seqZ. lia.
  - intros i. rewrite (length_bind_const _ _ (Z.to_nat nr3)).
    + rewrite length_seqZ. reflexivity.
    + intros j. rewrite (length_bind_const _ _ 1%nat).
      * rewrite length_seqZ. lia.
      * reflexivity.
Qed.

(** The loop does not fail on indices within bounds. *)
Lemma scatter_Ok {A} (a : ndarray A) (l : list (dims * A)) :
  Forall (in_bounds (shape a)) l.*1 -> exists g, scatter a l = Ok g.
Proof.
  revert a. induction l as [|[p c] l IH]; intros a Hall; simpl.
  - eauto.
  - apply Forall_cons in Hall as [Hp Hall].
    destruct (shape a) as [[n1 n2] n3] eqn:Hs, p as [[i j] k].
    destruct Hp as (Hi & Hj & Hk).
    assert (Hset : setitem a (i, j, k) c
                   = Ok (mk (shape a)
                           (<[Z.to_nat (offset (shape a) (i mod n1, j mod n2, k mod n3)) := c]>
                              (data a)))).
    { unfold setitem. rewrite Hs, locate_range by assumption. reflexivity. }
    rewrite Hset. simpl. apply IH. simpl. rewrite Hs. exact Hall.
Qed.

(** ** Complex arithmetic *)

Lemma Cmul_RtoC_r c r : Cmul c (RtoC r) = (fst c * r, snd c * r)%R.
Proof. unfold Cmul, RtoC. simpl. f_equal; ring. Qed.

Lemma Cmul_RtoC_l r c : Cmul (RtoC r) c = (r * fst c, r * snd c)%R.
Proof. unfold Cmul, RtoC. simpl. f_equal; ring. Qed.

Lemma Cmul_zero_l c : Cmul Czero c = Czero.
Proof. unfold Czero. rewrite Cmul_RtoC_l. unfold RtoC. f_equal; ring. Qed.

Lemma dot_1_i_pair (x : R * R) : dot_1_i x = x.
Proof.
  destruct x as [a b]. unfold dot_1_i, Cadd, Cmul, RtoC, Ci. simpl.
  f_equal; ring.
Qed.

Lemma fmap_dot_1_i (l : list (R * R)) : dot_1_i <$> l = l.
Proof.
  induction l as [|x l IH]; [reflexivity|].
  rewrite fmap_cons, IH, dot_1_i_pair. reflexivity.
Qed.

Lemma Csum_zeros (l : list C) : Forall (fun c => c = Czero) l -> Csum l = Czero.
Proof.
  induction 1 as [|c l -> _ IH]; simpl; [reflexivity|].
  rewrite IH. unfold Cadd, Czero, RtoC. simpl. f_equal; ring.
Qed.

(** Multiplying by [nr1], [nr2] and [nr3] in turn takes the factor
    [1/(nr1*nr2*nr3)] of the inverse transform away. *)
Lemma rescale_cancels nr1 nr2 nr3 (s : C) :
  0 < nr1 -> 0 < nr2 -> 0 < nr3 ->
  Cmul (Cmul (Cmul (Cmul (RtoC (/ IZR (nr1 * nr2 * nr3))) s) (RtoC (IZR nr1)))
             (RtoC (IZR nr2))) (RtoC (IZR nr3)) = s.
Proof.
  intros H1 H2 H3. rewrite !Cmul_RtoC_r, Cmul_RtoC_l. simpl.
  rewrite !mult_IZR.
  assert (IZR nr1 <> 0%R) by (apply not_0_IZR; lia).
  assert (IZR nr2 <> 0%R) by (apply not_0_IZR; lia).
  assert (IZR nr3 <> 0%R) by (apply not_0_IZR; lia).
  destruct s as [a b]. simpl. f_equal; field; auto.
Qed.

Lemma rows2_flatten (coefs : list C) :
  rows2 (coefs ≫= fun c => [fst c; snd c]) = coefs.
Proof.
  induction coefs as [|[a b] l IH]; [reflexivity|].
  rewrite bind_cons. simpl. rewrite IH. reflexivity.
Qed.

Lemma length_flatten (coefs : list C) :
  length (coefs ≫= fun c => [fst c; snd c]) = (2 * length coefs)%nat.
Proof.
  rewrite (length_bind_const _ _ 2%nat) by reflexivity. lia.
Qed.

(** ** The charge reconstruction *)

#[local] Arguments zeros : simpl never.
#[local] Arguments positions : simpl never.
#[local] Arguments ifftn : simpl never.

Lemma ifftn_Ok (a : ndarray C) nr1 nr2 nr3 :
  shape a = (nr1, nr2, nr3) -> 0 < nr1 -> 0 < nr2 -> 0 < nr3 ->
  ifftn a
  = Ok (mk (nr1, nr2, nr3)
          ((fun q => Cmul (RtoC (/ IZR (nr1 * nr2 * nr3))) (fourier_sum a q))
             <$> positions (nr1, nr2, nr3))).
Proof.
  intros Hs H1 H2 H3. unfold ifftn. rewrite Hs.
  destruct (Z.eqb_spec nr1 0), (Z.eqb_spec nr2 0), (Z.eqb_spec nr3 0);
    simpl; try lia; reflexivity.
Qed.

(** The block of the function on a dataset that holds the coefficients
    [coefs] as pairs of reals. *)
Lemma reconstruct_Ok (h5f : h5file) name nr1 nr2 nr3 idx (coefs : list C) :
  0 < nr1 -> 0 < nr2 -> 0 < nr3 ->
  length idx = length coefs ->
  Forall (in_bounds (nr1, nr2, nr3)) idx ->
  attr_ngm_g h5f = Some (Z.of_nat (length coefs)) ->
  MillerIndices h5f = Some idx ->
  name = Some (coefs ≫= fun c => [fst c; snd c]) ->
  exists rho_temp f,
    scatter (mk (nr1, nr2, nr3) (replicate (Z.to_nat (nr1 * nr2 * nr3)) Czero))
      (zip idx coefs) = Ok rho_temp /\
    shape rho_temp = (nr1, nr2, nr3) /\
    ifftn rho_temp = Ok f /\
    reconstruct h5f name (nr1, nr2, nr3) = Ok (times nr3 (times nr2 (times nr1 f))).
Proof.
  intros H1 H2 H3 Hlen Hidx Hngm Hmi ->.
  set (grid0 := mk (nr1, nr2, nr3) (replicate (Z.to_nat (nr1 * nr2 * nr3)) Czero)).
  destruct (scatter_Ok grid0 (zip idx coefs)) as [rho_temp Hsc].
  { rewrite fst_zip by lia. exact Hidx. }
  pose proof (scatter_shape _ _ _ Hsc) as Hs. simpl in Hs.
  exists rho_temp. eexists. split; [exact Hsc|]. split; [exact Hs|].
  split; [apply (ifftn_Ok _ _ _ _ Hs); assumption|].
  unfold reconstruct. simpl. unfold reshape2. rewrite Hngm.
  destruct (Z.eqb_spec (Z.of_nat (length coefs)) (-1)); [lia|].
  destruct (Z.ltb_spec (Z.of_nat (length coefs)) 0); [lia|].
  rewrite length_flatten.
  destruct (Z.eqb_spec (Z.of_nat (2 * length coefs)) (Z.of_nat (length coefs) * 2));
    [|lia].
  simpl. rewrite rows2_flatten.
  rewrite fmap_dot_1_i.
  rewrite zeros_Ok by lia. simpl. rewrite Hmi. simpl.
  fold grid0. rewrite Hsc. simpl.
  rewrite (ifftn_Ok _ _ _ _ Hs) by assumption. reflexivity.
Qed.

(** C1. For coefficient and Miller-index sequences of equal length, with
    every index within the bounds of a grid of positive dimensions
    [(nr1,nr2,nr3)] (the precondition of the reconstruction), the function
    builds the total field in the stated steps: a grid of complex zeros of
    that shape, the scatter of the coefficients, [ifftn], the
    multiplication by [nr1*nr2*nr3] and the real part. The field has the
    shape [(nr1,nr2,nr3)], its value at a position is the real part of the
    Fourier sum without the factor [1/N], and without coefficients it is
    zero everywhere. *)
Theorem charge_reconstruction (h5f : h5file) nr1 nr2 nr3
    (idx : list dims) (coefs : list C) :
  0 < nr1 -> 0 < nr2 -> 0 < nr3 ->
  length idx = length coefs ->
  Forall (in_bounds (nr1, nr2, nr3)) idx ->
  attr_ngm_g h5f = Some (Z.of_nat (length coefs)) ->
  MillerIndices h5f = Some idx ->
  rhotot_g h5f = Some (coefs ≫= fun c => [fst c; snd c]) ->
  exists grid0 rho_temp f rhotot_r rhodiff_r,
    zeros Czero (nr1, nr2, nr3) = Ok grid0 /\
    data grid0 = replicate (Z.to_nat (nr1 * nr2 * nr3)) Czero /\
    scatter grid0 (zip idx coefs) = Ok rho_temp /\
    ifftn rho_temp = Ok f /\
    read_charge_file_hdf5 h5f (nr1, nr2, nr3) = Ok (rhotot_r, rhodiff_r) /\
    rhotot_r
    = NdArray.map (fun c => Cre (Cmul c (RtoC (IZR (nr1 * nr2 * nr3))))) f /\
    shape rhotot_r = (nr1, nr2, nr3) /\
    data rhotot_r
    = (fun q => Cre (fourier_sum rho_temp q)) <$> positions (nr1, nr2, nr3) /\
    (idx = [] ->
     data rhotot_r = replicate (Z.to_nat (nr1 * nr2 * nr3)) 0%R).
Proof.
  intros H1 H2 H3 Hlen Hidx Hngm Hmi Htot.
  destruct (reconstruct_Ok h5f (rhotot_g h5f) nr1 nr2 nr3 idx coefs)
    as (rho_temp & f & Hsc & Hs & Hf & Hrec); try assumption.
  pose proof Hf as Hf'. rewrite (ifftn_Ok _ _ _ _ Hs) in Hf' by assumption.
  injection Hf' as Hf'.
  assert (Hdiff : exists d, try_except (reconstruct h5f (rhodiff_g h5f) (nr1, nr2, nr3))
                              (zeros Czero (nr1, nr2, nr3)) = Ok d).
  { destruct (reconstruct h5f (rhodiff_g h5f) (nr1, nr2, nr3)); simpl; eauto.
    rewrite zeros_Ok by lia. eauto. }
  destruct Hdiff as [d Hd].
  assert (Hdata : data (real (times nr3 (times nr2 (times nr1 f))))
                  = (fun q => Cre (fourier_sum rho_temp q))
                      <$> positions (nr1, nr2, nr3)).
  { unfold real. simpl. rewrite <- Hf'. simpl.
    rewrite <- !list_fmap_compose. apply list_fmap_ext. intros _ q _.
    unfold compose. rewrite rescale_cancels by assumption. reflexivity. }
  eexists _, rho_temp, f, (real (times nr3 (times nr2 (times nr1 f)))), (real d).
  split; [apply zeros_Ok; lia|]. split; [reflexivity|].
  split; [exact Hsc|]. split; [exact Hf|]. split.
  { unfold read_charge_file_hdf5. rewrite Hrec. cbn [bind]. rewrite Hd.
    reflexivity. }
  split.
  { unfold real, times, NdArray.map. simpl. f_equal.
    rewrite <- !list_fmap_compose. apply list_fmap_ext. intros _ [a b] _. simpl.
    rewrite !mult_IZR. ring. }
  split; [rewrite <- Hf'; reflexivity|].
  split; [exact Hdata|].
  intros ->. rewrite Hdata. simpl in Hsc. injection Hsc as <-.
  assert (Hall : forall q,
             Cre (fourier_sum
                    (mk (nr1, nr2, nr3)
                       (replicate (Z.to_nat (nr1 * nr2 * nr3)) Czero)) q) = 0%R).
  { intros q. unfold fourier_sum. rewrite Csum_zeros; [reflexivity|].
    apply Forall_fmap, Forall_forall. intros [p v] Hin. simpl.
    apply elem_of_zip_r, elem_of_replicate in Hin as [-> _].
    apply Cmul_zero_l. }
  transitivity (replicate (length (positions (nr1, nr2, nr3))) 0%R);
    [|rewrite length_positions by lia; reflexivity].
  generalize (positions (nr1, nr2, nr3)). intros l.
  induction l as [|q l IH]; [reflexivity|].
  rewrite fmap_cons, IH, Hall. reflexivity.
Qed.

(** C5. When the dataset [rhodiff_g] is absent and the total charge is
    reconstructed, the function does not fail: it returns the total field
    together with a difference field of the same dimensions that is zero
    everywhere. *)
Theorem missing_rhodiff_gives_zero_field (h5f : h5file) (nr : dims)
    (rhotot_r : ndarray C) :
  rhodiff_g h5f = None ->
  reconstruct h5f (rhotot_g h5f) nr = Ok rhotot_r ->
  exists rhodiff_r,
    read_charge_file_hdf5 h5f nr = Ok (real rhotot_r, rhodiff_r) /\
    shape rhodiff_r = shape (real rhotot_r) /\
    shape rhodiff_r = nr /\
    data rhodiff_r = replicate (Z.to_nat (size nr)) 0%R.
Proof.
  intros Hnone Htot. unfold read_charge_file_hdf5. rewrite Htot. cbn [bind].
  assert (Hdiff : reconstruct h5f (rhodiff_g h5f) nr = Raise KeyError).
  { unfold reconstruct. rewrite Hnone. destruct nr as [[n1 n2] n3]. reflexivity. }
  rewrite Hdiff. cbn [try_except].
  (* the zero grid was already allocated once for the total charge *)
  destruct nr as [[n1 n2] n3]. unfold reconstruct in Htot.
  bind_inv Htot as d Hd. bind_inv Htot as aux Haux.
  bind_inv Htot as grid0 Hgrid0. bind_inv Htot as miller Hmiller.
  bind_inv Htot as rho_temp Hsc. bind_inv Htot as f Hf. injection Htot as <-.
  rewrite Hgrid0. cbn [bind]. eexists. split; [reflexivity|].
  pose proof (zeros_wf _ _ _ Hgrid0) as [_ Hs0].
  pose proof (scatter_shape _ _ _ Hsc) as Hs1.
  assert (Hs2 : shape f = shape rho_temp).
  { unfold ifftn in Hf. destruct (shape rho_temp) as [[m1 m2] m3].
    destruct ((m1 =? 0) || (m2 =? 0) || (m3 =? 0)); [discriminate|].
    injection Hf as <-. reflexivity. }
  simpl. split; [congruence|]. split; [exact Hs0|].
  unfold zeros in Hgrid0.
  destruct ((n1 <? 0) || (n2 <? 0) || (n3 <? 0)); [discriminate|].
  injection Hgrid0 as <-. simpl. rewrite fmap_replicate. reflexivity.
Qed.

(** ** Strings: tokens and lines *)

Lemma eqb_eq (a b : str) : eqb a b = true <-> a = b.
Proof.
  revert b. induction a as [|x a IH]; intros [|y b]; simpl;
    try (split; [discriminate|discriminate]); [tauto|].
  rewrite andb_true_iff, Ascii.eqb_eq, IH. split.
  - intros [-> ->]. reflexivity.
  - intros [= -> ->]. auto.
Qed.

Lemma eqb_neq (a b : str) : a <> b -> eqb a b = false.
Proof.
  intros Hne. destruct (eqb a b) eqn:E; [|reflexivity].
  apply eqb_eq in E. contradiction.
Qed.

Lemma split_space c s : isspace c = true -> split (c :: s) = split s.
Proof. intros H. simpl. rewrite H. reflexivity. Qed.

Lemma split_token t s :
  t <> [] -> Forall (fun c => isspace c = false) t -> boundary s ->
  split (t ++ s) = t :: split s.
Proof.
  intros Hne Ht Hs. induction t as [|c t IH]; [contradiction|].
  apply Forall_cons in Ht as [Hc Ht].
  destruct t as [|c2 t].
  - simpl. rewrite Hc. destruct s as [|c' s']; [reflexivity|].
    simpl in Hs. rewrite Hs. reflexivity.
  - specialize (IH ltac:(discriminate) Ht).
    change ((c :: c2 :: t) ++ s) with (c :: (c2 :: t) ++ s).
    remember ((c2 :: t) ++ s) as s' eqn:Es'.
    simpl. rewrite Hc. rewrite Es' at 1. simpl.
    apply Forall_cons in Ht as [Hc2 _]. rewrite Hc2.
    rewrite IH. reflexivity.
Qed.

Lemma isspace_blank : isspace " "%char = true.
Proof. reflexivity. Qed.

Lemma isspace_LF : isspace LF = true.
Proof. reflexivity. Qed.

Lemma isspace_CR : isspace CR = true.
Proof. reflexivity. Qed.








(** Lists by groups of five. *)
Lemma list_ind5 {A} (P : list A -> Prop) :
  P [] ->
  (forall l, l <> [] -> (length l < 5)%nat -> P l) ->
  (forall a b c d e r, P r -> P (a :: b :: c :: d :: e :: r)) ->
  forall l, P l.
Proof.
  intros H0 Hshort Hfive l.
  assert (H : forall n l, (length l <= n)%nat -> P l).
  { clear l. induction n as [|n IH]; intros l Hl.
    - destruct l; [exact H0|simpl in Hl; lia].
    - destruct l as [|a [|b [|c [|d [|e r]]]]];
        try exact H0; try (apply Hshort; [discriminate|simpl; lia]).
      apply Hfive, IH. simpl in Hl. lia. }
  apply (H (length l)). lia.
Qed.

Lemma chunks5_short {A} (l : list A) :
  l <> [] -> (length l < 5)%nat -> chunks5 l = [l].
Proof.
  intros Hne Hl. destruct l as [|a [|b [|c [|d [|e r]]]]];
    try reflexivity; [contradiction|simpl in Hl; lia].
Qed.


(** Every line of the value section holds five values, except that the
    last may hold fewer; no line is empty. *)
Lemma chunks5_groups {A} (l : list A) :
  Forall (fun g => g <> [] /\ (length g <= 5)%nat) (chunks5 l) /\
  forall i g, chunks5 l !! i = Some g ->
              (S i < length (chunks5 l))%nat -> length g = 5%nat.
Proof.
  induction l as [|l Hne Hl|a b c d e r [IH1 IH2]] using list_ind5.
  - split; [constructor|]. intros i g H. inversion H.
  - rewrite chunks5_short by assumption. split.
    + constructor; [split; [assumption|lia]|constructor].
    + intros i g _ Hi. simpl in Hi. lia.
  - change (chunks5 (a :: b :: c :: d :: e :: r))
      with ([a; b; c; d; e] :: chunks5 r).
    split.
    + constructor; [split; [discriminate|simpl; lia]|exact IH1].
    + intros [|i] g H Hi; simpl in *.
      * injection H as <-. reflexivity.
      * apply (IH2 i); [exact H|lia].
Qed.

(** ** Loops *)

Lemma bind_ret {A} (m : result A) : bind m Ok = m.
Proof. destruct m; reflexivity. Qed.

Lemma for_each_ext {X S} (l : list X) (b1 b2 : X -> S -> result S) s :
  (forall x s, b1 x s = b2 x s) -> for_each l b1 s = for_each l b2 s.
Proof.
  intros Hb. revert s. induction l as [|x l IH]; intros s; simpl; [reflexivity|].
  rewrite Hb. destruct (b2 x s); simpl; auto.
Qed.

Lemma for_each_bind {X Y S} (l : list X) (f : X -> list Y)
    (body : Y -> S -> result S) s :
  for_each (l ≫= f) body s = for_each l (fun a => for_each (f a) body) s.
Proof.
  revert s. induction l as [|a l IH]; intros s; [reflexivity|].
  rewrite bind_cons, for_each_app. simpl.
  destruct (for_each (f a) body s); simpl; auto.
Qed.

(** The three nested loops of the codec run through [file_order]. *)
Lemma nested_loops {S} (body : Z -> Z -> Z -> S -> result S) nr0 nr1 nr2 s :
  for_each (range nr2) (fun z =>
    for_each (range nr1) (fun y =>
      for_each (range nr0) (fun x => body x y z))) s
  = for_each (file_order (nr0, nr1, nr2))
      (fun p => let '(x, y, z) := p in body x y z) s.
Proof.
  unfold file_order. rewrite for_each_bind. apply for_each_ext. intros z s1.
  rewrite for_each_bind. apply for_each_ext. intros y s2.
  rewrite for_each_bind. apply for_each_ext. intros x s3.
  simpl. apply eq_sym, bind_ret.
Qed.

Lemma elem_of_file_order nr p : p ∈ file_order nr <-> in_grid nr p.
Proof.
  destruct nr as [[n0 n1] n2], p as [[x y] z]. unfold file_order, range. simpl.
  rewrite list_elem_of_bind. split.
  - intros (z' & H & Hz). apply elem_of_seqZ in Hz.
    apply list_elem_of_bind in H as (y' & H & Hy). apply elem_of_seqZ in Hy.
    apply list_elem_of_bind in H as (x' & H & Hx). apply elem_of_seqZ in Hx.
    apply list_elem_of_singleton in H. injection H as -> -> ->. lia.
  - intros (Hx & Hy & Hz). exists z. split; [|apply elem_of_seqZ; lia].
    apply list_elem_of_bind. exists y. split; [|apply elem_of_seqZ; lia].
    apply list_elem_of_bind. exists x. split; [|apply elem_of_seqZ; lia].
    apply list_elem_of_singleton. reflexivity.
Qed.

Lemma NoDup_file_order nr : NoDup (file_order nr).
Proof.
  destruct nr as [[n0 n1] n2]. unfold file_order, range.
  apply NoDup_bind; [| |apply NoDup_seqZ].
  - intros z1 z2 [[x y] z] _ _ H1 H2.
    apply list_elem_of_bind in H1 as (y1 & H1 & _).
    apply list_elem_of_bind in H1 as (x1 & H1 & _).
    apply list_elem_of_singleton in H1.
    apply list_elem_of_bind in H2 as (y2 & H2 & _).
    apply list_elem_of_bind in H2 as (x2 & H2 & _).
    apply list_elem_of_singleton in H2. congruence.
  - intros z _. apply NoDup_bind; [| |apply NoDup_seqZ].
    + intros y1 y2 [[x y] z'] _ _ H1 H2.
      apply list_elem_of_bind in H1 as (x1 & H1 & _).
      apply list_elem_of_singleton in H1.
      apply list_elem_of_bind in H2 as (x2 & H2 & _).
      apply list_elem_of_singleton in H2. congruence.
    + intros y _. apply NoDup_bind; [| |apply NoDup_seqZ].
      * intros x1 x2 p _ _ H1 H2.
        apply list_elem_of_singleton in H1, H2. congruence.
      * intros x _. apply NoDup_singleton.
Qed.

Lemma length_file_order nr0 nr1 nr2 :
  0 <= nr0 -> 0 <= nr1 -> 0 <= nr2 ->
  length (file_order (nr0, nr1, nr2)) = Z.to_nat (nr0 * nr1 * nr2).
Proof.
  intros. unfold file_order, range.
  rewrite (length_bind_const _ _ (Z.to_nat nr1 * Z.to_nat nr0)%nat).
  - rewrite length_seqZ. lia.
  - intros z. rewrite (length_bind_const _ _ (Z.to_nat nr0)).
    + rewrite length_seqZ. reflexivity.
    + intros y. rewrite (length_bind_const _ _ 1%nat).
      * rewrite length_seqZ. lia.
      * reflexivity.
Qed.

(** The first axis runs fastest: the value of position [(x,y,z)] is the
    one with number [x + nr0 * (y + nr1 * z)]. *)
Lemma lookup_bind_const {X Y} (f : X -> list Y) (l : list X) m i j a :
  (forall x, length (f x) = m) -> l !! i = Some a -> (j < m)%nat ->
  (l ≫= f) !! (i * m + j)%nat = f a !! j.
Proof.
  intros Hf. revert i. induction l as [|x l IH]; intros i Hi Hj; [inversion Hi|].
  rewrite bind_cons. destruct i as [|i]; simpl in Hi.
  - injection Hi as ->. simpl. apply lookup_app_l. rewrite Hf. exact Hj.
  - rewrite lookup_app_r by (rewrite Hf; lia).
    rewrite Hf. replace (S i * m + j - m)%nat with (i * m + j)%nat by lia.
    apply IH; assumption.
Qed.

Lemma lookup_file_order nr0 nr1 nr2 x y z :
  in_grid (nr0, nr1, nr2) (x, y, z) ->
  file_order (nr0, nr1, nr2) !! Z.to_nat (x + nr0 * (y + nr1 * z))
  = Some (x, y, z).
Proof.
  intros (Hx & Hy & Hz). unfold file_order, range.
  assert (0 <= nr1 * z) by (apply Z.mul_nonneg_nonneg; lia).
  assert (0 <= nr0 * (y + nr1 * z)) by (apply Z.mul_nonneg_nonneg; lia).
  assert (0 <= nr0 * y) by (apply Z.mul_nonneg_nonneg; lia).
  replace (Z.to_nat (x + nr0 * (y + nr1 * z)))
    with (Z.to_nat z * (Z.to_nat nr1 * Z.to_nat nr0)
          + (Z.to_nat y * Z.to_nat nr0 + Z.to_nat x))%nat by nia.
  assert (Z.to_nat y * Z.to_nat nr0 + Z.to_nat x
          < Z.to_nat nr1 * Z.to_nat nr0)%nat by nia.
  rewrite (lookup_bind_const _ _ (Z.to_nat nr1 * Z.to_nat nr0)%nat _ _ z);
    [| |rewrite lookup_seqZ; lia|assumption].
  2:{ intros z'. rewrite (length_bind_const _ _ (Z.to_nat nr0)).
      - rewrite length_seqZ. reflexivity.
      - intros y'. rewrite (length_bind_const _ _ 1%nat) by reflexivity.
        rewrite length_seqZ. lia. }
  rewrite (lookup_bind_const _ _ (Z.to_nat nr0) _ _ y);
    [| |rewrite lookup_seqZ; lia|lia].
  2:{ intros y'. rewrite (length_bind_const _ _ 1%nat) by reflexivity.
      rewrite length_seqZ. lia. }
  replace (Z.to_nat x) with (Z.to_nat x * 1 + 0)%nat by lia.
  rewrite (lookup_bind_const _ _ 1%nat _ _ x);
    [reflexivity|reflexivity|rewrite lookup_seqZ; lia|lia].
Qed.

(** ** The writer *)

Lemma getitem_in_grid {A} (a : ndarray A) p :
  wf a -> in_grid (shape a) p -> exists v, getitem a p = Ok v.
Proof.
  intros Hwf Hp. unfold getitem. rewrite (locate_in_grid _ _ Hp). simpl.
  pose proof (offset_bound _ _ Hp) as Hb. apply wf_length in Hwf.
  destruct (lookup_lt_is_Some_2 (data a) (Z.to_nat (offset (shape a) p)))
    as [v Hv]; [lia|].
  rewrite Hv. eauto.
Qed.

Ltac mod5 :=
  (apply Z.eqb_neq || apply Z.eqb_eq); Z.div_mod_to_equations; lia.

Lemma layout_value_section c toks :
  c mod 5 = 0 -> layout c toks = value_section toks.
Proof.
  revert c. induction toks as [|l Hne Hl|t1 t2 t3 t4 t5 r IH] using list_ind5;
    intros c Hc.
  - reflexivity.
  - unfold value_section. rewrite chunks5_short by assumption.
    assert (E1 : ((c + 1) mod 5 =? 0) = false) by mod5.
    assert (E2 : ((c + 1 + 1) mod 5 =? 0) = false) by mod5.
    assert (E3 : ((c + 1 + 1 + 1) mod 5 =? 0) = false) by mod5.
    assert (E4 : ((c + 1 + 1 + 1 + 1) mod 5 =? 0) = false) by mod5.
    destruct l as [|a [|b [|c' [|d [|e r]]]]]; [contradiction| | | | |simpl in Hl; lia];
      simpl; rewrite ?E1, ?E2, ?E3, ?E4; simpl; rewrite ?app_nil_r;
      repeat (rewrite <- !app_assoc; simpl); reflexivity.
  - assert (E1 : ((c + 1) mod 5 =? 0) = false) by mod5.
    assert (E2 : ((c + 1 + 1) mod 5 =? 0) = false) by mod5.
    assert (E3 : ((c + 1 + 1 + 1) mod 5 =? 0) = false) by mod5.
    assert (E4 : ((c + 1 + 1 + 1 + 1) mod 5 =? 0) = false) by mod5.
    assert (E5 : ((c + 1 + 1 + 1 + 1 + 1) mod 5 =? 0) = true) by mod5.
    unfold value_section.
    change (chunks5 (t1 :: t2 :: t3 :: t4 :: t5 :: r))
      with ([t1; t2; t3; t4; t5] :: chunks5 r).
    rewrite fmap_cons. simpl concat. fold (value_section r).
    rewrite <- (IH (c + 1 + 1 + 1 + 1 + 1)) by (Z.div_mod_to_equations; lia).
    simpl. rewrite E1, E2, E3, E4, E5.
    repeat (rewrite <- !app_assoc; simpl). reflexivity.
Qed.

Section Writer.

Context {V : Type} (format9E : V -> str).

Lemma gather_Ok (charge : ndarray V) ps :
  wf charge -> Forall (in_grid (shape charge)) ps ->
  exists vals, gather V charge ps = Ok vals.
Proof.
  intros Hwf. induction 1 as [|p ps Hp _ [vals IH]]; simpl; [eauto|].
  destruct (getitem_in_grid charge p Hwf Hp) as [v ->]. simpl.
  rewrite IH. simpl. eauto.
Qed.

Lemma gather_lookup (charge : ndarray V) ps vals :
  gather V charge ps = Ok vals ->
  length vals = length ps /\
  forall i p, ps !! i = Some p ->
              exists v, vals !! i = Some v /\ getitem charge p = Ok v.
Proof.
  revert vals. induction ps as [|p ps IH]; intros vals H; simpl in H.
  - injection H as <-. split; [reflexivity|]. intros i p Hi. inversion Hi.
  - bind_inv H as v Hv. bind_inv H as vs Hvs. injection H as <-.
    destruct (IH _ Hvs) as [Hlen Hlk]. split; [simpl; congruence|].
    intros [|i] q Hi; simpl in *.
    + injection Hi as <-. eauto.
    + apply Hlk, Hi.
Qed.

Lemma write_loop (charge : ndarray V) ps vals out c :
  gather V charge ps = Ok vals ->
  for_each ps (fun p => let '(x, y, z) := p in write_value V format9E charge x y z)
    (out, c)
  = Ok (out ++ layout c (format9E <$> vals), c + Z.of_nat (length vals)).
Proof.
  revert vals out c. induction ps as [|[[x y] z] ps IH]; intros vals out c H;
    simpl in H.
  - injection H as <-. simpl. rewrite app_nil_r, Z.add_0_r. reflexivity.
  - bind_inv H as v Hv. bind_inv H as vs Hvs. injection H as <-.
    simpl. unfold write_value at 1. rewrite Hv. simpl.
    rewrite (IH vs) by exact Hvs. f_equal. f_equal; [|lia].
    destruct ((c + 1) mod 5 =? 0); rewrite <- !app_assoc; reflexivity.
Qed.

(** The text of the file: the header and the value section. *)
Lemma write_charge_text (charge : ndarray V) (header : str) nr0 nr1 nr2 :
  wf charge -> shape charge = (nr0, nr1, nr2) ->
  exists vals,
    gather V charge (file_order (nr0, nr1, nr2)) = Ok vals /\
    Z.of_nat (length vals) = nr0 * nr1 * nr2 /\
    write_charge V format9E charge header
    = Ok (header ++ value_section (format9E <$> vals)).
Proof.
  intros Hwf Hs.
  destruct (gather_Ok charge (file_order (nr0, nr1, nr2)) Hwf) as [vals Hg].
  { rewrite Hs. apply Forall_forall. intros p. apply elem_of_file_order. }
  exists vals. destruct (gather_lookup _ _ _ Hg) as [Hlen Hlk].
  split; [exact Hg|]. split.
  { rewrite Hlen. unfold wf in Hwf. rewrite Hs in Hwf.
    rewrite length_file_order by lia.
    assert (0 <= nr0 * nr1) by (apply Z.mul_nonneg_nonneg; lia).
    assert (0 <= nr0 * nr1 * nr2) by (apply Z.mul_nonneg_nonneg; lia). lia. }
  unfold write_charge. rewrite Hs, nested_loops.
  rewrite (write_loop _ _ vals) by exact Hg. simpl.
  rewrite layout_value_section by reflexivity. reflexivity.
Qed.

(** C3, as the code has it. [write_charge] writes the header and then
    the values in the order of [file_order]: the third axis in the outer
    loop, the second in the middle one, the first in the inner one, so
    that the value of [(x,y,z)] is number [x + nr0*(y + nr1*z)]. Each
    value is written by the ["{:.9E}"] format behind two blanks, five to
    a line: a line break follows every fifth value, and a last group of
    fewer than five values is not followed by a line break. *)
Theorem write_charge_layout (charge : ndarray V) (header : str) nr0 nr1 nr2 :
  wf charge -> shape charge = (nr0, nr1, nr2) ->
  exists vals,
    gather V charge (file_order (nr0, nr1, nr2)) = Ok vals /\
    Z.of_nat (length vals) = nr0 * nr1 * nr2 /\
    (forall x y z,
        in_grid (nr0, nr1, nr2) (x, y, z) ->
        exists v, vals !! Z.to_nat (x + nr0 * (y + nr1 * z)) = Some v /\
                  getitem charge (x, y, z) = Ok v) /\
    write_charge V format9E charge header
    = Ok (header ++ value_section (format9E <$> vals)) /\
    Forall (fun g => g <> [] /\ (length g <= 5)%nat)
      (chunks5 (format9E <$> vals)) /\
    (forall i g, chunks5 (format9E <$> vals) !! i = Some g ->
                 (S i < length (chunks5 (format9E <$> vals)))%nat ->
                 length g = 5%nat).
Proof.
  intros Hwf Hs.
  destruct (write_charge_text charge header nr0 nr1 nr2 Hwf Hs)
    as (vals & Hg & Hlen & Hwrite).
  exists vals. destruct (gather_lookup _ _ _ Hg) as [_ Hlk].
  split; [exact Hg|]. split; [exact Hlen|]. split.
  { intros x y z Hp. apply Hlk, lookup_file_order, Hp. }
  split; [exact Hwrite|]. apply chunks5_groups.
Qed.

End Writer.

(** ** The reader: the loop over the lines *)

Lemma item_lookup {A} (l : list A) i :
  0 <= i ->
  item l i = match l !! Z.to_nat i with
             | Some x => Ok x
             | None => Raise IndexError
             end.
Proof.
  intros Hi. unfold item, norm_index.
  destruct (Z.ltb_spec i 0); [lia|].
  destruct (Z.ltb_spec i (Z.of_nat (length l))).
  - reflexivity.
  - rewrite lookup_ge_None_2 by lia. reflexivity.
Qed.

Lemma to_int64_Ok n m :
  to_int64 n = Ok m <-> m = n /\ - 2 ^ 63 <= n < 2 ^ 63.
Proof.
  unfold to_int64.
  destruct (Z.leb_spec (- 2 ^ 63) n), (Z.ltb_spec n (2 ^ 63)); simpl;
    split; try discriminate; try (intros [= <-]; lia); try lia;
    intros [-> _]; reflexivity.
Qed.

(** The dimensions are the second, third and fourth token of the line,
    read as integers of 64 bits. *)
Lemma read_dims_Ok ts n0 n1 n2 :
  read_dims ts = Ok (n0, n1, n2) <->
  exists t0 t1 t2 t3 rest,
    ts = t0 :: t1 :: t2 :: t3 :: rest /\
    int t1 = Ok n0 /\ int t2 = Ok n1 /\ int t3 = Ok n2 /\
    (- 2 ^ 63 <= n0 < 2 ^ 63) /\ (- 2 ^ 63 <= n1 < 2 ^ 63) /\
    (- 2 ^ 63 <= n2 < 2 ^ 63).
Proof.
  unfold read_dims. rewrite !item_lookup by lia. split.
  - intros H.
    destruct ts as [|t0 [|t1 [|t2 [|t3 rest]]]]; try discriminate H;
      try (simpl in H; destruct (int t1) as [m|]; simpl in H;
           [destruct (to_int64 m); discriminate H|discriminate H]).
    + simpl in H. destruct (int t1) as [m1|]; simpl in H; [|discriminate].
      destruct (to_int64 m1); simpl in H; [|discriminate].
      destruct (int t2) as [m2|]; simpl in H; [|discriminate].
      destruct (to_int64 m2); discriminate H.
    + simpl in H.
      bind_inv H as m0 Hm0. bind_inv H as k0 Hk0.
      bind_inv H as m1 Hm1. bind_inv H as k1 Hk1.
      bind_inv H as m2 Hm2. bind_inv H as k2 Hk2. injection H as <- <- <-.
      apply to_int64_Ok in Hk0 as [-> ?], Hk1 as [-> ?], Hk2 as [-> ?].
      exists t0, t1, t2, t3, rest. tauto.
  - intros (t0 & t1 & t2 & t3 & rest & -> & H0 & H1 & H2 & B0 & B1 & B2).
    simpl. rewrite H0, H1, H2. simpl.
    rewrite !(proj2 (to_int64_Ok _ _)) by (split; [reflexivity|assumption]).
    reflexivity.
Qed.

Lemma is_header_spec ts :
  is_header ts = true <-> exists rest, ts = lit "#" :: rest.
Proof.
  destruct ts as [|t ts]; simpl.
  - split; [discriminate|]. intros [rest H]. discriminate.
  - rewrite eqb_eq. split; [intros ->; eauto|]. intros [rest [= -> _]].
    reflexivity.
Qed.

Section Reader.

Context {V : Type} (float : str -> option V).

Abbreviation reads := (fun (t : str) (v : V) => float t = Some v).

Lemma append_floats_Ok toks acc acc' :
  append_floats V float toks acc = Ok acc' <->
  exists vs, acc' = acc ++ vs /\ Forall2 reads toks vs.
Proof.
  unfold append_floats. revert acc. induction toks as [|t toks IH]; intros acc;
    simpl.
  - split.
    + intros [= <-]. exists []. rewrite app_nil_r. split; [reflexivity|constructor].
    + intros (vs & -> & H). inversion H. rewrite app_nil_r. reflexivity.
  - unfold to_float. destruct (float t) as [v|] eqn:Ht; simpl.
    + rewrite IH. split.
      * intros (vs & -> & H). exists (v :: vs). rewrite <- app_assoc.
        split; [reflexivity|]. constructor; assumption.
      * intros (vs & -> & H). inversion H as [|? v' ? vs' Hv Hvs]; subst.
        exists vs'. rewrite <- app_assoc. simpl.
        assert (v' = v) by congruence. subst. auto.
    + split; [discriminate|]. intros (vs & _ & H).
      inversion H; subst. congruence.
Qed.

(** One turn of the loop. A line without token fails; a line whose first
    token is [#] adds nothing; any other line adds its tokens read as
    floats; and the line met when [count] is [1] sets the dimensions. *)
Lemma read_line_Ok line st st' :
  read_line V float line st = Ok st' <->
  split line <> [] /\
  (if count V st =? 1 then read_dims (split line) else Ok (nr V st))
  = Ok (nr V st') /\
  count V st' = count V st + 1 /\
  exists vs, tempcharge V st' = tempcharge V st ++ vs /\
             Forall2 reads (if is_header (split line) then [] else split line) vs.
Proof.
  unfold read_line. rewrite item_lookup by lia.
  destruct (split line) as [|first rest] eqn:Hsplit.
  - split.
    + intros H. destruct (count V st =? 1); simpl in H; discriminate.
    + intros [H _]. contradiction.
  - simpl lookup. cbn [is_header].
    destruct (if count V st =? 1 then read_dims (first :: rest) else Ok (nr V st))
      as [n|e]; simpl.
    2:{ split; [discriminate|]. intros (_ & H & _). discriminate. }
    destruct (eqb first _); simpl.
    + split.
      * intros [= <-]. simpl. split; [discriminate|]. split; [reflexivity|].
        split; [reflexivity|]. exists []. rewrite app_nil_r.
        split; [reflexivity|constructor].
      * intros (_ & [= ->] & Hc & vs & Ht & Hvs). inversion Hvs; subst.
        rewrite app_nil_r in Ht. destruct st'. simpl in *. congruence.
    + destruct (append_floats V float (first :: rest) (tempcharge V st))
        as [acc|e] eqn:Happ; simpl.
      * apply append_floats_Ok in Happ as (vs & -> & Hvs). split.
        -- intros [= <-]. simpl. split; [discriminate|]. split; [reflexivity|].
           split; [reflexivity|]. eauto.
        -- intros (_ & [= ->] & Hc & vs' & Ht & Hvs').
           assert (vs' = vs).
           { clear - Hvs Hvs'. revert vs' Hvs'.
             induction Hvs; intros vs' Hvs'; inversion Hvs'; subst;
               [reflexivity|]. f_equal; [congruence|auto]. }
           subst. destruct st'. simpl in *. congruence.
      * split; [discriminate|]. intros (_ & _ & _ & vs & _ & Hvs).
        assert (Hex : exists acc, append_floats V float (first :: rest)
                                    (tempcharge V st) = Ok acc)
          by (eexists; apply append_floats_Ok; eauto).
        destruct Hex as [acc Hacc]. congruence.
Qed.

End Reader.

Lemma dims_line_cons c l lines :
  dims_line c (l :: lines) = if c =? 1 then Some l else dims_line (c + 1) lines.
Proof.
  unfold dims_line.
  destruct (Z.eqb_spec c 1) as [->|Hne]; [reflexivity|].
  destruct (Z.leb_spec c 1), (Z.leb_spec (c + 1) 1); try lia; [|reflexivity].
  replace (Z.to_nat (1 - c)) with (S (Z.to_nat (1 - (c + 1)))) by lia.
  reflexivity.
Qed.

Lemma dims_line_nil c : dims_line c [] = None.
Proof. unfold dims_line. destruct (c <=? 1); reflexivity. Qed.

Lemma dims_line_late c lines : 1 < c -> dims_line c lines = None.
Proof. intros. unfold dims_line. destruct (Z.leb_spec c 1); [lia|reflexivity]. Qed.

Section ReaderLoop.

Context {V : Type} (float : str -> option V).

Abbreviation reads := (fun (t : str) (v : V) => float t = Some v).

Lemma value_tokens_cons l lines :
  value_tokens (l :: lines)
  = (if is_header (split l) then [] else split l) ++ value_tokens lines.
Proof.
  unfold value_tokens. rewrite fmap_cons. simpl.
  destruct (is_header (split l)); reflexivity.
Qed.

Lemma scan_loop_Ok lines st st' :
  for_each lines (read_line V float) st = Ok st' <->
  Forall (fun l => split l <> []) lines /\
  match dims_line (count V st) lines with
  | Some l => read_dims (split l) = Ok (nr V st')
  | None => nr V st' = nr V st
  end /\
  count V st' = count V st + Z.of_nat (length lines) /\
  exists vs, tempcharge V st' = tempcharge V st ++ vs /\
             Forall2 reads (value_tokens lines) vs.
Proof.
  revert st. induction lines as [|l lines IH]; intros st.
  - simpl. rewrite dims_line_nil. split.
    + intros [= <-]. split; [constructor|]. split; [reflexivity|].
      split; [lia|]. exists []. rewrite app_nil_r. split; [reflexivity|constructor].
    + intros (_ & Hnr & Hc & vs & Ht & Hvs).
      inversion Hvs; subst. rewrite app_nil_r in Ht.
      destruct st, st'. simpl in *. f_equal. f_equal; congruence || lia.
  - simpl for_each. rewrite dims_line_cons, value_tokens_cons. split.
    + intros H. bind_inv H as st1 H1.
      apply read_line_Ok in H1 as (Hne & Hnr1 & Hc1 & vs1 & Ht1 & Hvs1).
      apply IH in H as (Hall & Hnr & Hc & vs & Ht & Hvs).
      split; [constructor; assumption|]. split.
      { destruct (Z.eqb_spec (count V st) 1) as [E|E].
        - rewrite dims_line_late in Hnr by lia. congruence.
        - rewrite Hc1 in Hnr. injection Hnr1 as Hnr1.
          destruct (dims_line (count V st + 1) lines); congruence. }
      split; [rewrite Hc, Hc1; simpl length; lia|].
      exists (vs1 ++ vs). split; [rewrite Ht, Ht1, app_assoc; reflexivity|].
      apply Forall2_app; assumption.
    + intros (Hall & Hnr & Hc & vs & Ht & Hvs).
      apply Forall_cons in Hall as [Hne Hall].
      apply Forall2_app_inv_l in Hvs as (vs1 & vs2 & Hvs1 & Hvs2 & ->).
      set (st1 := {| tempcharge := tempcharge V st ++ vs1;
                     count := count V st + 1;
                     nr := if count V st =? 1 then nr V st' else nr V st |}).
      assert (H1 : read_line V float l st = Ok st1).
      { apply read_line_Ok. split; [exact Hne|]. split.
        { simpl. destruct (count V st =? 1); [exact Hnr|reflexivity]. }
        split; [reflexivity|]. exists vs1. split; [reflexivity|exact Hvs1]. }
      rewrite H1. simpl. apply IH. split; [exact Hall|]. split.
      { simpl. destruct (Z.eqb_spec (count V st) 1) as [E|E].
        - rewrite dims_line_late by lia. reflexivity.
        - exact Hnr. }
      split; [simpl; simpl length in Hc; lia|].
      exists vs2. split; [simpl; rewrite Ht, app_assoc; reflexivity|exact Hvs2].
Qed.

(** C10. The reader takes a line for a header line, and skips it, if and
    only if the first token of the line is exactly [#]: the first loop
    ends without error exactly when every line has a token, the tokens of
    the lines that are not skipped read as floats, which are the values it
    keeps, in order, and the second, third and fourth token of the second
    line of the file read as integers of 64 bits, which are the
    dimensions, whatever the first token of that line is. *)
Theorem reader_header_rule (content : str) (st : reader_state V) :
  (forall ts, is_header ts = true <-> exists rest, ts = lit "#" :: rest) /\
  (scan_lines V float content = Ok st <->
   Forall (fun l => split l <> []) (file_lines content) /\
   count V st = Z.of_nat (length (file_lines content)) /\
   Forall2 reads
     (concat (List.filter (fun ts => negb (is_header ts))
                (split <$> file_lines content)))
     (tempcharge V st) /\
   match file_lines content !! 1%nat with
   | Some line2 =>
       exists t0 t1 t2 t3 rest n0 n1 n2,
         split line2 = t0 :: t1 :: t2 :: t3 :: rest /\
         int t1 = Ok n0 /\ int t2 = Ok n1 /\ int t3 = Ok n2 /\
         (- 2 ^ 63 <= n0 < 2 ^ 63) /\ (- 2 ^ 63 <= n1 < 2 ^ 63) /\
         (- 2 ^ 63 <= n2 < 2 ^ 63) /\
         nr V st = (n0, n1, n2)
   | None => nr V st = (0, 0, 0)
   end).
Proof.
  split; [exact is_header_spec|].
  unfold scan_lines. rewrite scan_loop_Ok. unfold dims_line. simpl.
  change (Z.to_nat (1 - 0)) with 1%nat. fold (value_tokens (file_lines content)).
  split.
  - intros (Hall & Hnr & Hc & vs & -> & Hvs).
    split; [exact Hall|]. split; [exact Hc|]. split; [exact Hvs|].
    destruct (file_lines content !! 1%nat) as [line2|]; [|exact Hnr].
    destruct (nr V st) as [[n0 n1] n2].
    apply read_dims_Ok in Hnr
      as (t0 & t1 & t2 & t3 & rest & E & H1 & H2 & H3 & B1 & B2 & B3).
    exists t0, t1, t2, t3, rest, n0, n1, n2. auto 10.
  - intros (Hall & Hc & Hvs & Hnr).
    split; [exact Hall|]. split; [|split; [exact Hc|eauto]].
    destruct (file_lines content !! 1%nat) as [line2|]; [|exact Hnr].
    destruct Hnr as (t0 & t1 & t2 & t3 & rest & n0 & n1 & n2 & E & H1 & H2 & H3
                     & B1 & B2 & B3 & ->).
    apply read_dims_Ok. exists t0, t1, t2, t3, rest. auto 10.
Qed.

End ReaderLoop.

(** ** The errors of the codec *)

Lemma builtin_norm_index n i : builtin_only (norm_index n i).
Proof. unfold norm_index. builtin. Qed.

Lemma builtin_locate nr p : builtin_only (locate nr p).
Proof.
  destruct nr as [[n1 n2] n3], p as [[i j] k]. unfold locate.
  repeat (apply builtin_bind; [apply builtin_norm_index|intros ?]).
  apply builtin_Ok.
Qed.

Lemma builtin_getitem {A} (a : ndarray A) p : builtin_only (getitem a p).
Proof. unfold getitem. apply builtin_bind; [apply builtin_locate|intros q]. builtin. Qed.

Lemma builtin_setitem {A} (a : ndarray A) p v : builtin_only (setitem a p v).
Proof. unfold setitem. apply builtin_bind; [apply builtin_locate|intros q]. builtin. Qed.

Lemma builtin_zeros {A} (zero : A) nr : builtin_only (zeros zero nr).
Proof. destruct nr as [[n1 n2] n3]. unfold zeros. builtin. Qed.

Lemma builtin_item {A} (l : list A) i : builtin_only (item l i).
Proof.
  unfold item. pose proof (builtin_norm_index (Z.of_nat (length l)) i) as H.
  destruct (norm_index (Z.of_nat (length l)) i) as [i'|e]; [builtin|].
  intros [= ->]. apply H. reflexivity.
Qed.

Lemma builtin_int s : builtin_only (int s).
Proof. unfold int. builtin. Qed.

Lemma builtin_to_int64 n : builtin_only (to_int64 n).
Proof. unfold to_int64. builtin. Qed.

Lemma builtin_read_dims ts : builtin_only (read_dims ts).
Proof.
  unfold read_dims.
  repeat (apply builtin_bind;
          [first [apply builtin_item|apply builtin_int|apply builtin_to_int64]
          |intros ?]).
  apply builtin_Ok.
Qed.

Section CodecErrors.

Context {V : Type} (format9E : V -> str) (float : str -> option V) (zero : V).

Lemma builtin_read_line line st : builtin_only (read_line V float line st).
Proof.
  unfold read_line. apply builtin_bind.
  { destruct (count V st =? 1); [apply builtin_read_dims|apply builtin_Ok]. }
  intros n. apply builtin_bind; [apply builtin_item|intros first].
  apply builtin_bind; [|intros ?; apply builtin_Ok].
  destruct (negb _); [|apply builtin_Ok].
  unfold append_floats. apply builtin_for_each. intros tok acc.
  unfold to_float. builtin.
Qed.

Lemma builtin_fold_grid st : builtin_only (fold_grid V zero st).
Proof.
  unfold fold_grid. destruct (nr V st) as [[n0 n1] n2].
  apply builtin_bind; [apply builtin_zeros|intros charge].
  apply builtin_bind; [|intros ?; apply builtin_Ok].
  repeat (apply builtin_for_each; intros ? ?).
  unfold fold_value.
  apply builtin_bind; [apply builtin_item|intros v].
  apply builtin_bind; [apply builtin_setitem|intros g]. apply builtin_Ok.
Qed.

(** The reader ends with a grid or with a built-in exception. *)
Lemma builtin_read_postqe_output_file content :
  builtin_only (read_postqe_output_file V float zero content).
Proof.
  unfold read_postqe_output_file, scan_lines.
  apply builtin_bind; [|intros st; apply builtin_fold_grid].
  apply builtin_for_each. intros line st. apply builtin_read_line.
Qed.

(** So does the writer. *)
Lemma builtin_write_charge charge header :
  builtin_only (write_charge V format9E charge header).
Proof.
  unfold write_charge. destruct (shape charge) as [[n0 n1] n2].
  apply builtin_bind; [|intros ?; apply builtin_Ok].
  repeat (apply builtin_for_each; intros ? ?).
  unfold write_value. apply builtin_bind; [apply builtin_getitem|intros v].
  apply builtin_Ok.
Qed.

End CodecErrors.

(** ** The reader: the loop that fills the grid *)

Section ReaderGrid.

Context {V : Type} (float : str -> option V) (zero : V).

Abbreviation fold_body temp :=
  (fun p : dims => let '(x, y, z) := p in fold_value V temp x y z).

Lemma setitem_in_grid (a : ndarray V) p v :
  in_grid (shape a) p ->
  setitem a p v
  = Ok (mk (shape a) (<[Z.to_nat (offset (shape a) p) := v]> (data a))).
Proof. intros Hp. unfold setitem. rewrite (locate_in_grid _ _ Hp). reflexivity. Qed.

(** With enough values the loop gives the value number [c + i] to the
    [i]-th position it visits. *)
Lemma fold_loop_Ok (temp : list V) ps (a : ndarray V) c :
  wf a -> Forall (in_grid (shape a)) ps -> NoDup ps ->
  0 <= c -> c + Z.of_nat (length ps) <= Z.of_nat (length temp) ->
  exists a',
    for_each ps (fold_body temp) (a, c) = Ok (a', c + Z.of_nat (length ps)) /\
    wf a' /\ shape a' = shape a /\
    (forall i p, ps !! i = Some p ->
                 exists v, temp !! (Z.to_nat c + i)%nat = Some v /\
                           getitem a' p = Ok v) /\
    (forall p, in_grid (shape a) p -> p ∉ ps -> getitem a' p = getitem a p).
Proof.
  intros Hwf Hps Hnd. revert a c Hwf Hps.
  induction Hnd as [|p ps Hnotin Hnd IH]; intros a c Hwf Hps Hc Hlen.
  - exists a. simpl. rewrite Z.add_0_r. repeat split; auto.
    intros i p Hi. inversion Hi.
  - apply Forall_cons in Hps as [Hp Hps]. simpl length in Hlen.
    destruct (lookup_lt_is_Some_2 temp (Z.to_nat c)) as [v Hv]; [lia|].
    assert (Hstep : fold_body temp p (a, c)
                    = Ok (mk (shape a)
                            (<[Z.to_nat (offset (shape a) p) := v]> (data a)),
                          c + 1)).
    { destruct p as [[x y] z]. unfold fold_value. simpl fst. simpl snd.
      rewrite item_lookup by lia. rewrite Hv. simpl.
      rewrite setitem_in_grid by exact Hp. reflexivity. }
    pose proof (setitem_in_grid a p v Hp) as Hset.
    set (a1 := mk (shape a) (<[Z.to_nat (offset (shape a) p) := v]> (data a)))
      in *.
    destruct (IH a1 (c + 1)) as (a' & Hrun & Hwf' & Hs' & Hvals & Hother);
      [exact (setitem_wf a a1 p v Hwf Hset)|exact Hps|lia|lia|].
    exists a'. split.
    { simpl for_each. rewrite Hstep. simpl. rewrite Hrun. f_equal. f_equal.
      simpl length. lia. }
    split; [exact Hwf'|]. split; [exact Hs'|]. split.
    + intros [|i] q Hq; simpl in Hq.
      * injection Hq as <-. exists v. rewrite Nat.add_0_r. split; [exact Hv|].
        rewrite (Hother p Hp Hnotin).
        exact (getitem_setitem_eq a a1 p v Hwf Hset).
      * destruct (Hvals i q Hq) as (w & Hw & Hget). exists w.
        split; [|exact Hget].
        replace (Z.to_nat c + S i)%nat with (Z.to_nat (c + 1) + i)%nat by lia.
        exact Hw.
    + intros q Hq Hnot. apply not_elem_of_cons in Hnot as [Hne Hnot].
      rewrite (Hother q Hq Hnot).
      eapply getitem_setitem_ne; [exact Hset|].
      rewrite (locate_in_grid _ _ Hq), (locate_in_grid _ _ Hp). congruence.
Qed.

(** With too few values the loop fails at the first missing one. *)
Lemma fold_loop_short (temp : list V) ps (a : ndarray V) c :
  Forall (in_grid (shape a)) ps ->
  0 <= c <= Z.of_nat (length temp) ->
  Z.of_nat (length temp) < c + Z.of_nat (length ps) ->
  for_each ps (fold_body temp) (a, c) = Raise IndexError.
Proof.
  intros Hps. revert a c Hps. induction ps as [|p ps IH]; intros a c Hps Hc Hlen.
  - simpl in Hlen. lia.
  - apply Forall_cons in Hps as [Hp Hps]. simpl length in Hlen.
    destruct p as [[x y] z]. simpl for_each. unfold fold_value at 1.
    simpl fst. simpl snd. rewrite item_lookup by lia.
    destruct (temp !! Z.to_nat c) as [v|] eqn:Hv; simpl; [|reflexivity].
    apply lookup_lt_Some in Hv.
    rewrite setitem_in_grid by exact Hp. simpl.
    apply IH; [exact Hps|lia|lia].
Qed.

(** The second loop on the values the first loop kept. *)
Lemma fold_grid_tokens (st : reader_state V) n0 n1 n2 :
  nr V st = (n0, n1, n2) -> 0 <= n0 -> 0 <= n1 -> 0 <= n2 ->
  (Z.of_nat (length (tempcharge V st)) < n0 * n1 * n2 ->
   fold_grid V zero st = Raise IndexError) /\
  (n0 * n1 * n2 <= Z.of_nat (length (tempcharge V st)) ->
   exists charge,
     fold_grid V zero st = Ok charge /\
     shape charge = (n0, n1, n2) /\
     forall x y z,
       in_grid (n0, n1, n2) (x, y, z) ->
       exists v,
         tempcharge V st !! Z.to_nat (x + n0 * (y + n1 * z)) = Some v /\
         getitem charge (x, y, z) = Ok v).
Proof.
  intros Hnr H0 H1 H2.
  assert (Hlen : length (file_order (n0, n1, n2)) = Z.to_nat (n0 * n1 * n2))
    by (apply length_file_order; assumption).
  assert (0 <= n0 * n1) by (apply Z.mul_nonneg_nonneg; lia).
  assert (0 <= n0 * n1 * n2) by (apply Z.mul_nonneg_nonneg; lia).
  assert (Hgrid : Forall (in_grid (n0, n1, n2)) (file_order (n0, n1, n2))).
  { apply Forall_forall. intros p. apply elem_of_file_order. }
  unfold fold_grid. rewrite Hnr, zeros_Ok by assumption. cbn [bind].
  rewrite nested_loops.
  set (grid0 := mk (n0, n1, n2) (replicate (Z.to_nat (n0 * n1 * n2)) zero)).
  assert (Hwf0 : wf grid0).
  { unfold wf. simpl. rewrite length_replicate. lia. }
  split.
  - intros Hfew. rewrite fold_loop_short; [reflexivity|exact Hgrid|lia|lia].
  - intros Hmany.
    destruct (fold_loop_Ok (tempcharge V st) (file_order (n0, n1, n2)) grid0 0)
      as (a' & Hrun & _ & Hs & Hvals & _);
      [exact Hwf0|exact Hgrid|apply NoDup_file_order|lia|lia|].
    exists a'. rewrite Hrun. split; [reflexivity|]. split; [exact Hs|].
    intros x y z Hp. apply (Hvals _ _ (lookup_file_order _ _ _ _ _ _ Hp)).
Qed.

(** C4, as the code has it. The reader has no check of the number of
    tokens against [nr1*nr2*nr3]. Once the lines are read, for dimensions
    that are not negative and that make a grid of 8-byte floats numpy
    allocates, it fails with an [IndexError] when there are fewer values
    than grid points, and otherwise it returns the grid filled with the
    first [nr1*nr2*nr3] values in the order of the file, whether or not
    more values follow. A second line without integers as second, third
    and fourth token makes it fail. No failure of the reader is a
    [FormatError]. *)
Theorem reader_token_count (content : str) :
  (forall st n0 n1 n2,
      scan_lines V float content = Ok st ->
      nr V st = (n0, n1, n2) -> 0 <= n0 -> 0 <= n1 -> 0 <= n2 ->
      array_fits 8 (n0, n1, n2) ->
      (Z.of_nat (length (tempcharge V st)) < n0 * n1 * n2 ->
       read_postqe_output_file V float zero content = Raise IndexError) /\
      (n0 * n1 * n2 <= Z.of_nat (length (tempcharge V st)) ->
       exists charge,
         read_postqe_output_file V float zero content = Ok charge /\
         shape charge = (n0, n1, n2) /\
         forall x y z,
           in_grid (n0, n1, n2) (x, y, z) ->
           exists v,
             tempcharge V st !! Z.to_nat (x + n0 * (y + n1 * z)) = Some v /\
             getitem charge (x, y, z) = Ok v)) /\
  (forall line2,
      file_lines content !! 1%nat = Some line2 ->
      (forall n, read_dims (split line2) <> Ok n) ->
      forall charge, read_postqe_output_file V float zero content <> Ok charge) /\
  read_postqe_output_file V float zero content <> Raise FormatError.
Proof.
  split; [|split; [|apply builtin_read_postqe_output_file]].
  - intros st n0 n1 n2 Hscan Hnr H0 H1 H2 _.
    unfold read_postqe_output_file. rewrite Hscan. cbn [bind].
    apply fold_grid_tokens; assumption.
  - intros line2 Hline2 Hbad charge Hread.
    unfold read_postqe_output_file in Hread. bind_inv Hread as st Hscan.
    unfold scan_lines in Hscan.
    apply scan_loop_Ok in Hscan as (_ & Hnr & _).
    unfold dims_line in Hnr. simpl in Hnr.
    change (Z.to_nat (1 - 0)) with 1%nat in Hnr. rewrite Hline2 in Hnr.
    apply (Hbad _ Hnr).
Qed.

End ReaderGrid.

(** ** Writing a field and reading it back *)











Section RoundTrip.

Context {V : Type} (format9E : V -> str) (float : str -> option V) (zero : V).

(** What is assumed of the two conversions of the library: a formatted
    float is one token and not [#], and [float] reads it back as a float
    that is [approx]imately the one formatted, that is, equal to it up
    to the digits the format keeps. *)
Variable approx : V -> V -> Prop.
Hypothesis format_token : forall v, token (format9E v) /\ format9E v <> lit "#".
Hypothesis float_format :
  forall v, exists v', float (format9E v) = Some v' /\ approx v v'.



End RoundTrip.

(** ** The rewriting of [&input] *)

Lemma starts_with_line old txt s :
  old <> [] -> LF ∉ old ->
  starts_with old (txt ++ LF :: s) = starts_with old (txt ++ [LF]) /\
  (starts_with old (txt ++ [LF]) = true -> (length old <= length txt)%nat).
Proof.
  revert old. induction txt as [|c txt IH]; intros [|a old] Hne HLF;
    try contradiction.
  - apply not_elem_of_cons in HLF as [Ha _]. simpl.
    destruct (Ascii.eqb_spec a LF); [congruence|]. simpl. split; [reflexivity|discriminate].
  - apply not_elem_of_cons in HLF as [Ha HLF]. simpl.
    destruct (Ascii.eqb a c); simpl; [|split; [reflexivity|discriminate]].
    destruct old as [|b old].
    + simpl. split; [reflexivity|lia].
    + destruct (IH (b :: old)) as [IH1 IH2]; [discriminate|exact HLF|].
      split; [exact IH1|]. intros H. apply IH2 in H. simpl in *. lia.
Qed.

Lemma replace_skip_line old new txt s k :
  old <> [] -> LF ∉ old -> (k <= length txt)%nat ->
  replace_skip k old new (txt ++ LF :: s)
  = replace_skip k old new (txt ++ [LF]) ++ replace_skip 0 old new s.
Proof.
  intros Hne HLF. revert k. induction txt as [|c txt IH]; intros k Hk.
  - simpl in Hk. assert (k = 0%nat) as -> by lia.
    pose proof (starts_with_line old [] s Hne HLF) as [H1 H2]. simpl in H1, H2.
    simpl app. cbn [replace_skip]. rewrite H1.
    destruct (starts_with old [LF]) eqn:E.
    + specialize (H2 eq_refl). destruct old; [contradiction|simpl in H2; lia].
    + reflexivity.
  - destruct k as [|k].
    + pose proof (starts_with_line old (c :: txt) s Hne HLF) as [H1 H2].
      change ((c :: txt) ++ LF :: s) with (c :: txt ++ LF :: s) in *.
      change ((c :: txt) ++ [LF]) with (c :: txt ++ [LF]) in *.
      cbn [replace_skip]. rewrite H1.
      destruct (starts_with old (c :: txt ++ [LF])) eqn:E.
      * specialize (H2 eq_refl). simpl in H2.
        rewrite IH by lia. rewrite app_assoc. reflexivity.
      * rewrite IH by lia. reflexivity.
    + simpl in Hk. simpl. apply IH. lia.
Qed.

Lemma file_lines_ok s : lines_ok (file_lines s).
Proof.
  induction s as [|c s IH]; simpl; [constructor|].
  destruct (Ascii.eqb c LF).
  { apply (lines_ok_cons [] _ IH). }
  destruct (Ascii.eqb c CR).
  { destruct s as [|c' s']; [apply lines_ok_last|].
    destruct (Ascii.eqb c' LF); [exact IH|]. apply (lines_ok_cons [] _ IH). }
  destruct (file_lines s) as [|l ls]; [apply lines_ok_last|].
  inversion IH as [|l0|txt ls0 Hls]; subst.
  - apply lines_ok_last.
  - apply (lines_ok_cons (c :: txt) _ Hls).
Qed.

(** Replacing line by line is replacing in the whole text. *)
Lemma escape_lines lines :
  lines_ok lines ->
  concat (escape_input <$> lines) = escape_input (concat lines).
Proof.
  induction 1 as [|l|txt ls Hls IH].
  - reflexivity.
  - simpl. rewrite !app_nil_r. reflexivity.
  - rewrite fmap_cons. simpl concat. rewrite IH. unfold escape_input, replace.
    rewrite <- app_assoc. simpl ([LF] ++ _).
    apply eq_sym, replace_skip_line; [discriminate| |lia].
    unfold lit. simpl. intros Hin.
    repeat (apply elem_of_cons in Hin as [Hin|Hin]; [discriminate|]).
    inversion Hin.
Qed.

Lemma replace_skip_prefix old new p s :
  replace_skip (length p) old new (p ++ s) = replace_skip 0 old new s.
Proof. induction p as [|c p IH]; [reflexivity|]. simpl. exact IH. Qed.

Lemma starts_with_prefix p s : starts_with p (p ++ s) = true.
Proof.
  induction p as [|c p IH]; [reflexivity|]. simpl.
  rewrite Ascii.eqb_refl. exact IH.
Qed.

Lemma starts_with_inv p s :
  starts_with p s = true -> exists rest, s = p ++ rest.
Proof.
  revert s. induction p as [|a p IH]; intros s H; [exists s; reflexivity|].
  destruct s as [|b s]; [discriminate|]. simpl in H.
  apply andb_true_iff in H as [Hab H]. apply Ascii.eqb_eq in Hab as ->.
  destruct (IH _ H) as [rest ->]. exists rest. reflexivity.
Qed.

(** [escape_input] does what the specification asks for. *)
Lemma escape_input_rewritten s : rewritten s (escape_input s).
Proof.
  unfold escape_input, replace.
  remember (length s) as n eqn:Hn.
  assert (Hle : (length s <= n)%nat) by lia. clear Hn.
  revert s Hle. induction n as [|n IH]; intros s Hle.
  - destruct s; [constructor|simpl in Hle; lia].
  - destruct s as [|c s]; [constructor|].
    cbn [replace_skip].
    destruct (starts_with (lit "&input") (c :: s)) eqn:E.
    + destruct (starts_with_inv _ _ E) as [rest Hrest].
      assert (Hs : s = lit "input" ++ rest) by (injection Hrest as _ ->; reflexivity).
      rewrite Hrest. subst s.
      change (length (lit "&input") - 1)%nat with (length (lit "input")).
      rewrite replace_skip_prefix. apply rewritten_occurrence, IH.
      simpl in Hle. lia.
    + apply rewritten_char; [exact E|]. apply IH. simpl in Hle. lia.
Qed.

(** A string free of [&] starts the rewritten text if and only if it
    starts the text. *)
Lemma rewritten_starts_with s s' p :
  rewritten s s' -> "&"%char ∉ p -> starts_with p s' = starts_with p s.
Proof.
  intros H. revert p. induction H as [|s s' _ _|c s s' _ _ IH]; intros p Hp.
  - reflexivity.
  - destruct p as [|a p]; [reflexivity|].
    apply not_elem_of_cons in Hp as [Ha _]. simpl.
    destruct (Ascii.eqb_spec a "&"); [congruence|reflexivity].
  - destruct p as [|a p]; [reflexivity|].
    apply not_elem_of_cons in Hp as [_ Hp]. simpl. rewrite IH by exact Hp.
    reflexivity.
Qed.

Lemma contains_cons p c s :
  contains p (c :: s) = starts_with p (c :: s) || contains p s.
Proof. reflexivity. Qed.

(** No [&input] is left. *)
Lemma rewritten_none_left s s' :
  rewritten s s' -> contains (lit "&input") s' = false.
Proof.
  induction 1 as [|s s' H IH|c s s' Hc H IH].
  - reflexivity.
  - simpl. exact IH.
  - rewrite contains_cons, IH, orb_false_r.
    change (lit "&input") with ("&"%char :: lit "input") in *.
    cbn [starts_with] in Hc |- *.
    destruct (Ascii.eqb "&" c); [|reflexivity]. cbn [andb] in *.
    rewrite (rewritten_starts_with s s' (lit "input") H); [exact Hc|].
    unfold lit. simpl. intros Hin.
    repeat (apply elem_of_cons in Hin as [Hin|Hin]; [discriminate|]).
    inversion Hin.
Qed.

(** ** The pseudopotential reader *)

Section PseudoErrors.

Context {V : Type} (float : str -> option V)
        (fromstringlist : list str -> option Element).

Lemma builtin_node o : builtin_only (node o).
Proof. unfold node. builtin. Qed.

Lemma builtin_floats e : builtin_only (floats V float e).
Proof. unfold floats. builtin. Qed.

Lemma builtin_aug_child q st : builtin_only (aug_child V float q st).
Proof.
  unfold aug_child.
  repeat match goal with
         | |- builtin_only (if ?b then _ else _) => destruct b
         end;
    try apply builtin_Ok;
    (apply builtin_bind; [apply builtin_floats|intros ?; apply builtin_Ok]).
Qed.

Lemma builtin_nonlocal_child el st : builtin_only (nonlocal_child V float el st).
Proof.
  unfold nonlocal_child.
  repeat match goal with
         | |- builtin_only (if ?b then _ else _) => destruct b
         end;
    try apply builtin_Ok;
    try (apply builtin_bind; [apply builtin_floats|intros ?; apply builtin_Ok]).
  apply builtin_bind; [|intros ?; apply builtin_Ok].
  apply builtin_for_each. intros q a. apply builtin_aug_child.
Qed.

Lemma builtin_read_tree psroot : builtin_only (read_tree V float psroot).
Proof.
  unfold read_tree.
  apply builtin_bind; [apply builtin_node|intros info].
  apply builtin_bind; [apply builtin_try_except, builtin_Ok|intros pp_input].
  apply builtin_bind; [apply builtin_node|intros header].
  apply builtin_bind; [apply builtin_node|intros mesh].
  apply builtin_bind; [apply builtin_node|intros r].
  apply builtin_bind; [apply builtin_floats|intros pp_r].
  apply builtin_bind; [apply builtin_node|intros rab].
  apply builtin_bind; [apply builtin_floats|intros pp_rab].
  apply builtin_bind.
  { destruct (find1 _ psroot); [|apply builtin_Ok].
    apply builtin_bind; [apply builtin_floats|intros ?; apply builtin_Ok]. }
  intros pp_local. apply builtin_bind.
  { destruct (find1 _ psroot); [|apply builtin_Ok].
    apply builtin_bind; [apply builtin_floats|intros ?; apply builtin_Ok]. }
  intros pp_rhoatom. apply builtin_bind; [|intros ?; apply builtin_Ok].
  destruct (find1 _ psroot); [|apply builtin_Ok].
  apply builtin_bind; [|intros ?; apply builtin_Ok].
  apply builtin_for_each. intros el st. apply builtin_nonlocal_child.
Qed.

(** The reader ends with a dictionary or with a built-in exception. *)
Lemma builtin_read_pseudo_file content :
  builtin_only (read_pseudo_file V float fromstringlist content).
Proof.
  unfold read_pseudo_file.
  destruct (fromstringlist _); [apply builtin_read_tree|apply builtin_Ok].
Qed.

End PseudoErrors.

Section PseudoReader.

Context {V : Type} (float : str -> option V)
        (fromstringlist : list str -> option Element).

(** C8. Before the parser runs, every occurrence of [&input] in the text
    is rewritten to [&amp;input]: the lines handed to the parser are,
    taken together, the text of the file with every occurrence replaced,
    none is left in them, and when the parser accepts these lines the
    reader goes on with the tree it built from them. *)
Theorem input_escaped_before_parsing (content : str) :
  let pslines := escape_input <$> file_lines content in
  concat pslines = escape_input (concat (file_lines content)) /\
  rewritten (concat (file_lines content)) (concat pslines) /\
  contains (lit "&input") (concat pslines) = false /\
  (forall psroot,
      fromstringlist pslines = Some psroot ->
      read_pseudo_file V float fromstringlist content = read_tree V float psroot).
Proof.
  intros pslines.
  assert (E : concat pslines = escape_input (concat (file_lines content)))
    by (apply escape_lines, file_lines_ok).
  split; [exact E|]. split; [rewrite E; apply escape_input_rewritten|].
  split.
  - rewrite E. apply (rewritten_none_left (concat (file_lines content))).
    apply escape_input_rewritten.
  - intros psroot Hparse. unfold read_pseudo_file. fold pslines.
    rewrite Hparse. reflexivity.
Qed.

(** C6, as the code has it. When the parser rejects the text, the reader
    returns the empty dictionary; when the tree has no [PP_HEADER] child,
    it fails with the [AttributeError] of the access to [None]. No
    failure of the reader is a [FormatError]. *)
Theorem malformed_pseudo_outcome (content : str) :
  (fromstringlist (escape_input <$> file_lines content) = None ->
   read_pseudo_file V float fromstringlist content = Ok []) /\
  (forall psroot,
      fromstringlist (escape_input <$> file_lines content) = Some psroot ->
      find1 (lit "PP_HEADER") psroot = None ->
      read_pseudo_file V float fromstringlist content = Raise AttributeError) /\
  read_pseudo_file V float fromstringlist content <> Raise FormatError.
Proof.
  split; [|split; [|apply builtin_read_pseudo_file]].
  - intros Hparse. unfold read_pseudo_file. rewrite Hparse. reflexivity.
  - intros psroot Hparse Hnone. unfold read_pseudo_file. rewrite Hparse.
    unfold read_tree.
    destruct (find1 (lit "PP_INFO") psroot) as [info|]; [|reflexivity].
    cbn [node bind].
    destruct (try_except _ _) as [pp_input|e] eqn:Htry.
    + cbn [bind]. rewrite Hnone. reflexivity.
    + destruct (find2 (lit "PP_INFO") (lit "PP_INPUTFILE") psroot);
        discriminate Htry.
Qed.

End PseudoReader.

(** * Examples *)

Lemma not_elem_of_check (c : ascii) (l : str) :
  forallb (fun x => negb (Ascii.eqb x c)) l = true -> c ∉ l.
Proof.
  induction l as [|x l IH]; simpl; intros H.
  - apply not_elem_of_nil.
  - apply andb_true_iff in H as [Hx H]. apply not_elem_of_cons. split; [|auto].
    intros ->. rewrite Ascii.eqb_refl in Hx. discriminate.
Qed.

Lemma Forall_check {A} (f : A -> bool) (l : list A) :
  forallb f l = true -> Forall (fun x => f x = true) l.
Proof.
  induction l as [|x l IH]; simpl; intros H; [constructor|].
  apply andb_true_iff in H as [Hx H]. constructor; auto.
Qed.



(** The sample header followed by the single value of the sample field. *)
Example write_charge_111 :
  write_charge Sample.float4 Sample.format9E Sample.charge111 Sample.header111
  = Ok (Sample.header111 ++ lit "  1.000000000E+00").
Proof. reflexivity. Qed.

(** Eight values go on two lines, five and three; the second line has no
    line end. *)
Example write_charge_222 :
  write_charge Sample.float4 Sample.format9E Sample.charge222 Sample.header222
  = Ok (Sample.header222
        ++ lit "  0.000000000E+00  1.000000000E+00  5.000000000E-01  0.000000000E+00  1.000000000E+00"
        ++ [LF]
        ++ lit "  5.000000000E-01  -2.000000000E+00  1.000000000E+00").
Proof. reflexivity. Qed.

Example read_back_222 :
  read_postqe_output_file Sample.float4 Sample.float Sample.f_zero
    (Sample.header222
     ++ lit "  0.000000000E+00  1.000000000E+00  5.000000000E-01  0.000000000E+00  1.000000000E+00"
     ++ [LF]
     ++ lit "  5.000000000E-01  -2.000000000E+00  1.000000000E+00")
  = Ok Sample.charge222.
Proof. reflexivity. Qed.

(** C3, as the specification has it, fails on a field of one value: the text
    ends with the value, and is not the text with a line break behind the
    last group. *)
Lemma no_line_break_after_short_group :
  write_charge Sample.float4 Sample.format9E Sample.charge111 Sample.header111
  = Ok (Sample.header111 ++ lit "  1.000000000E+00") /\
  value_section_closed (Sample.format9E <$> [Sample.f_one])
  = lit "  1.000000000E+00" ++ [LF] /\
  write_charge Sample.float4 Sample.format9E Sample.charge111 Sample.header111
  <> Ok (Sample.header111
         ++ value_section_closed (Sample.format9E <$> [Sample.f_one])).
Proof.
  split; [reflexivity|]. split; [reflexivity|]. vm_compute. discriminate.
Qed.

(** C4, as the specification has it, fails on a file with two values for a grid
    of one point, and on a file without header: both are read without
    error. *)
Lemma surplus_tokens_are_accepted :
  read_postqe_output_file Sample.float4 Sample.float Sample.f_zero
    (Sample.header111 ++ lit "  1.000000000E+00  5.000000000E-01" ++ [LF])
  = Ok (mk (1, 1, 1) [Sample.f_one]) /\
  read_postqe_output_file Sample.float4 Sample.float Sample.f_zero
    (lit "0.5" ++ [LF] ++ lit "1 1 1 1" ++ [LF])
  = Ok (mk (1, 1, 1) [Sample.f_half]).
Proof. split; reflexivity. Qed.

(** C6, as the specification has it, fails on a text that is not well formed,
    for which the reader returns the empty dictionary, and on a document
    without [PP_HEADER], for which it raises an [AttributeError]. *)
Lemma malformed_pseudo_is_not_a_format_error :
  SamplePseudo.fromstringlist
    (escape_input <$> file_lines SamplePseudo.unclosed_text) = None /\
  read_pseudo_file Sample.float4 Sample.float SamplePseudo.fromstringlist
    SamplePseudo.unclosed_text = Ok [] /\
  find1 (lit "PP_HEADER") SamplePseudo.no_header_tree = None /\
  read_pseudo_file Sample.float4 Sample.float SamplePseudo.fromstringlist
    SamplePseudo.no_header_text = Raise AttributeError /\
  read_pseudo_file Sample.float4 Sample.float SamplePseudo.fromstringlist
    SamplePseudo.no_header_text <> Raise FormatError.
Proof.
  split; [reflexivity|]. split; [reflexivity|]. split; [reflexivity|].
  split; [reflexivity|]. vm_compute. discriminate.
Qed.

(** The sample pseudopotential: its [&input] is escaped, the parser
    accepts it and the reader returns the dictionary. *)
Example read_pseudo_sample :
  read_pseudo_file Sample.float4 Sample.float SamplePseudo.fromstringlist
    SamplePseudo.upf_text
  = Ok [ (lit "PP_INFO",
          PyDict _ [ (lit "INFO", PyStr _ ([LF] ++ lit "&input" ++ [LF]));
                     (lit "PP_INPUT", PyStr _ []) ]);
         (lit "PP_HEADER", PyDict _ [ (lit "element", PyStr _ (lit "Si")) ]);
         (lit "PP_MESH",
          PyDict _ [ (lit "PP_R", PyArray _ [Sample.f_zero; Sample.f_one]);
                     (lit "PP_RAB", PyArray _ [Sample.f_half; Sample.f_half]) ]);
         (lit "PP_LOCAL", PyNone _);
         (lit "PP_RHOATOM", PyNone _);
         (lit "PP_NONLOCAL", PyNone _) ].
Proof. reflexivity. Qed.

(** ** The theorems at concrete inputs *)

Lemma charge_reconstruction_witness :
  exists rhotot_r rhodiff_r,
    read_charge_file_hdf5 sample_h5 (2, 1, 1) = Ok (rhotot_r, rhodiff_r) /\
    shape rhotot_r = (2, 1, 1).
Proof.
  destruct (charge_reconstruction sample_h5 2 1 1 [(-1, 0, 0)] [(1%R, 0%R)])
    as (grid0 & rho_temp & f & rhotot_r & rhodiff_r & _ & _ & _ & _ & Hread & _
        & Hshape & _).
  - lia.
  - lia.
  - lia.
  - reflexivity.
  - constructor; [simpl; lia|constructor].
  - reflexivity.
  - reflexivity.
  - reflexivity.
  - exists rhotot_r, rhodiff_r. split; assumption.
Defined.

Lemma missing_rhodiff_witness :
  exists rhotot_r rhodiff_r,
    read_charge_file_hdf5 sample_h5 (2, 1, 1) = Ok (rhotot_r, rhodiff_r) /\
    shape rhodiff_r = (2, 1, 1) /\
    data rhodiff_r = [0%R; 0%R].
Proof.
  destruct (reconstruct sample_h5 (rhotot_g sample_h5) (2, 1, 1))
    as [rhotot_r|e] eqn:Htot; [|discriminate Htot].
  destruct (missing_rhodiff_gives_zero_field sample_h5 (2, 1, 1) rhotot_r)
    as (rhodiff_r & Hread & _ & Hshape & Hdata).
  - reflexivity.
  - exact Htot.
  - exists (real rhotot_r), rhodiff_r. auto.
Defined.

Lemma scatter_step_wraps_witness :
  exists g,
    setitem sample_grid (-1, 0, 0) 7 = Ok g /\
    getitem g (1, 0, 0) = Ok 7.
Proof.
  destruct (scatter_step_wraps sample_grid 2 1 1 (-1) 0 0 7 [])
    as (g & Hset & _ & _ & _ & Hget & _).
  - unfold wf. simpl. lia.
  - reflexivity.
  - lia.
  - lia.
  - lia.
  - exists g. split; [exact Hset|exact Hget].
Defined.

Lemma scatter_last_write_wins_witness :
  scatter sample_grid
    ([] ++ ((-1, 0, 0), 5) :: [((0, 0, 0), 3)] ++ ((-1, 0, 0), 7)
        :: [((0, 0, 0), 4)]) = Ok (mk (2, 1, 1) [4; 7]) /\
  getitem (mk (2, 1, 1) [4; 7]) (-1, 0, 0) = Ok 7.
Proof.
  split; [reflexivity|].
  apply (proj2 (scatter_last_write_wins sample_grid [] [((0, 0, 0), 3)]
                  [((0, 0, 0), 4)] (-1, 0, 0) 5 7
                  ltac:(unfold wf; simpl; lia)
                  ltac:(intros q Hq; apply list_elem_of_singleton in Hq;
                        subst q; vm_compute; discriminate))).
  reflexivity.
Defined.




Lemma write_charge_layout_witness :
  exists vals,
    write_charge Sample.float4 Sample.format9E Sample.charge222 Sample.header222
    = Ok (Sample.header222 ++ value_section (Sample.format9E <$> vals)) /\
    Z.of_nat (length vals) = 8.
Proof.
  destruct (write_charge_layout Sample.format9E Sample.charge222 Sample.header222
              2 2 2) as (vals & _ & Hlen & _ & Hwrite & _).
  - unfold wf. simpl. lia.
  - reflexivity.
  - exists vals. split; [exact Hwrite|exact Hlen].
Defined.

Lemma reader_token_count_witness :
  exists charge,
    read_postqe_output_file Sample.float4 Sample.float Sample.f_zero surplus_text
    = Ok charge /\
    shape charge = (1, 1, 1).
Proof.
  destruct (reader_token_count Sample.float Sample.f_zero surplus_text)
    as [Hcount _].
  destruct (Hcount {| tempcharge := [Sample.f_one; Sample.f_half];
                      count := 3; nr := (1, 1, 1) |} 1 1 1) as [_ Hmany].
  - reflexivity.
  - reflexivity.
  - lia.
  - lia.
  - lia.
  - vm_compute. reflexivity.
  - destruct Hmany as (charge & Hread & Hshape & _); [simpl; lia|].
    exists charge. split; [exact Hread|exact Hshape].
Defined.

Lemma malformed_pseudo_outcome_witness :
  read_pseudo_file Sample.float4 Sample.float SamplePseudo.fromstringlist
    SamplePseudo.unclosed_text = Ok [] /\
  read_pseudo_file Sample.float4 Sample.float SamplePseudo.fromstringlist
    SamplePseudo.no_header_text = Raise AttributeError.
Proof.
  split.
  - apply (proj1 (malformed_pseudo_outcome Sample.float
                    SamplePseudo.fromstringlist SamplePseudo.unclosed_text)).
    reflexivity.
  - apply (proj1 (proj2 (malformed_pseudo_outcome Sample.float
                           SamplePseudo.fromstringlist
                           SamplePseudo.no_header_text))
             SamplePseudo.no_header_tree); reflexivity.
Defined.

Lemma input_escaped_witness :
  read_pseudo_file Sample.float4 Sample.float SamplePseudo.fromstringlist
    SamplePseudo.upf_text
  = read_tree Sample.float4 Sample.float SamplePseudo.upf_tree.
Proof.
  apply (input_escaped_before_parsing Sample.float SamplePseudo.fromstringlist
           SamplePseudo.upf_text). reflexivity.
Defined.

(** The dimensions come from the second line also when it is a line of
    values. *)
Lemma reader_header_rule_witness :
  scan_lines Sample.float4 Sample.float (lit "0.5" ++ [LF] ++ lit "1 1 1 1" ++ [LF])
  = Ok {| tempcharge := [Sample.f_half; Sample.f_one; Sample.f_one;
                         Sample.f_one; Sample.f_one];
          count := 2; nr := (1, 1, 1) |}.
Proof.
  apply (proj2 (reader_header_rule Sample.float
                  (lit "0.5" ++ [LF] ++ lit "1 1 1 1" ++ [LF]) _)).
  split; [repeat constructor; discriminate|].
  split; [reflexivity|]. split.
  - simpl. repeat constructor.
  - simpl. exists (lit "1"), (lit "1"), (lit "1"), (lit "1"), [], 1, 1, 1.
    repeat split; try reflexivity; lia.
Defined.

(** * Further properties *)

(** ** Decimal numbers *)

Lemma digit_value_char d :
  0 <= d < 10 -> digit_value (digit_char d) = Some d.
Proof.
  intros Hd.
  assert (H : d = 0 \/ d = 1 \/ d = 2 \/ d = 3 \/ d = 4 \/ d = 5 \/ d = 6
              \/ d = 7 \/ d = 8 \/ d = 9) by lia.
  repeat (destruct H as [-> | H]; [reflexivity|]). subst. reflexivity.
Qed.

Lemma dec_char_digit d : 0 <= d < 10 -> dec_char (digit_char d) = true.
Proof. intros Hd. unfold dec_char. rewrite digit_value_char by exact Hd. reflexivity. Qed.

Lemma int_digits_digit b a c d s :
  digit_value c = Some d ->
  int_digits b a (c :: s) = int_digits true (10 * a + d) s.
Proof. intros H. cbn [int_digits]. rewrite H. reflexivity. Qed.

#[local] Opaque digit_char.

(** The digits written for [n] read back as [n], behind whatever was
    read before. *)
Lemma digits_of_spec fuel n acc :
  (0 < fuel)%nat -> 0 <= n < 2 ^ Z.of_nat fuel ->
  exists ds,
    digits_of fuel n acc = ds ++ acc /\ ds <> [] /\
    Forall (fun c => exists d, digit_value c = Some d) ds /\
    forall b a rest,
      int_digits b a (ds ++ rest)
      = int_digits true (a * 10 ^ Z.of_nat (length ds) + n) rest.
Proof.
  revert n acc. induction fuel as [|fuel IH]; intros n acc Hf Hn; [lia|].
  cbn [digits_of].
  assert (Hd : 0 <= n mod 10 < 10) by (apply Z.mod_pos_bound; lia).
  destruct (Z.ltb_spec n 10) as [Hsmall|Hbig].
  - exists [digit_char (n mod 10)]. rewrite Z.mod_small by lia.
    split; [reflexivity|]. split; [discriminate|]. split.
    + constructor; [|constructor]. exists n. apply digit_value_char. lia.
    + intros b a rest. cbn [app length].
      rewrite (int_digits_digit _ _ _ n) by (apply digit_value_char; lia).
      f_equal. change (Z.of_nat 1) with 1. lia.
  - assert (Hfuel : (0 < fuel)%nat).
    { destruct fuel; [|lia]. change (2 ^ Z.of_nat 1) with 2 in Hn. lia. }
    assert (Hn10 : 0 <= n / 10 < 2 ^ Z.of_nat fuel).
    { split; [apply Z.div_pos; lia|].
      rewrite Nat2Z.inj_succ, Z.pow_succ_r in Hn by lia.
      apply Z.div_lt_upper_bound; lia. }
    destruct (IH (n / 10) (digit_char (n mod 10) :: acc) Hfuel Hn10)
      as (ds & Hds & Hne & Hall & Hval).
    exists (ds ++ [digit_char (n mod 10)]). rewrite Hds, <- app_assoc.
    split; [reflexivity|]. split; [destruct ds; discriminate|]. split.
    + apply Forall_app. split; [exact Hall|].
      constructor; [|constructor]. exists (n mod 10). apply digit_value_char, Hd.
    + intros b a rest. rewrite <- app_assoc. cbn [app]. rewrite Hval.
      rewrite (int_digits_digit _ _ _ (n mod 10))
        by (apply digit_value_char, Hd).
      f_equal.
      rewrite length_app, Nat2Z.inj_add, Z.pow_add_r by lia.
      change (Z.of_nat (length [digit_char (n mod 10)])) with 1.
      pose proof (Z.div_mod n 10 ltac:(lia)). lia.
Qed.

Lemma fuel_enough n :
  0 <= n -> 0 <= n < 2 ^ Z.of_nat (S (Z.to_nat (Z.log2 n))).
Proof.
  intros Hn. split; [exact Hn|].
  rewrite Nat2Z.inj_succ, Z2Nat.id by apply Z.log2_nonneg.
  destruct (Z.eq_dec n 0) as [->|Hne]; [reflexivity|].
  apply Z.log2_spec. lia.
Qed.

(** [int] on a string within the limit of digits gives what the digits
    spell. *)
Lemma int_within_limit (s : str) (n : Z) :
  (length (List.filter is_digit s) <= max_str_digits)%nat ->
  match s with
  | c :: s' =>
      if Ascii.eqb c "-"%char then Z.opp <$> int_digits false 0 s'
      else if Ascii.eqb c "+"%char then int_digits false 0 s'
      else int_digits false 0 s
  | [] => None
  end = Some n ->
  int s = Ok n.
Proof.
  intros Hlen Hparse. unfold int. cbv zeta. rewrite Hparse.
  destruct (Nat.leb_spec (length (List.filter is_digit s)) max_str_digits);
    [reflexivity|lia].
Qed.

(** The decimal notation of [n]: a minus sign for a negative number, then
    digits that spell its absolute value. *)
Lemma str_of_int_digits n :
  exists ds,
    str_of_int n = (if n <? 0 then "-"%char :: ds else ds) /\
    ds <> [] /\
    Forall (fun c => exists d, digit_value c = Some d) ds /\
    int_digits false 0 ds = Some (Z.abs n).
Proof.
  unfold str_of_int. destruct (Z.ltb_spec n 0) as [Hneg|Hpos].
  - destruct (digits_of_spec (S (Z.to_nat (Z.log2 (- n)))) (- n) [])
      as (ds & -> & Hne & Hall & Hval); [lia|apply fuel_enough; lia|].
    exists ds. rewrite app_nil_r. split; [reflexivity|]. split; [exact Hne|].
    split; [exact Hall|].
    specialize (Hval false 0 []). rewrite app_nil_r in Hval. rewrite Hval.
    cbn [int_digits]. f_equal. lia.
  - destruct (digits_of_spec (S (Z.to_nat (Z.log2 n))) n [])
      as (ds & -> & Hne & Hall & Hval); [lia|apply fuel_enough; lia|].
    exists ds. rewrite app_nil_r. split; [reflexivity|]. split; [exact Hne|].
    split; [exact Hall|].
    specialize (Hval false 0 []). rewrite app_nil_r in Hval. rewrite Hval.
    cbn [int_digits]. f_equal. lia.
Qed.

Lemma digit_not_sign c d :
  digit_value c = Some d ->
  Ascii.eqb c "-"%char = false /\ Ascii.eqb c "+"%char = false.
Proof.
  intros H.
  split; [destruct (Ascii.eqb_spec c "-")|destruct (Ascii.eqb_spec c "+")];
    try reflexivity; subst c; discriminate H.
Qed.

Lemma filter_digits ds :
  Forall (fun c => exists d, digit_value c = Some d) ds ->
  List.filter is_digit ds = ds.
Proof.
  induction 1 as [|c ds [d Hc] _ IH]; [reflexivity|].
  cbn [List.filter]. unfold is_digit at 1. rewrite Hc, IH. reflexivity.
Qed.

(** [int] reads the decimal notation of [n] back as [n] when its digits
    are within the limit. *)
Lemma int_str_of_int_digits n :
  (length (List.filter is_digit (str_of_int n)) <= max_str_digits)%nat ->
  int (str_of_int n) = Ok n.
Proof.
  intros Hlen. apply int_within_limit; [exact Hlen|].
  destruct (str_of_int_digits n) as (ds & -> & Hne & Hall & Hval).
  destruct (Z.ltb_spec n 0) as [Hneg|Hpos].
  - change (Ascii.eqb "-" "-") with true. cbv iota. rewrite Hval.
    cbn [fmap option_fmap option_map]. f_equal. lia.
  - destruct ds as [|c ds]; [contradiction|].
    pose proof Hall as Hall'. apply Forall_cons in Hall' as [[d Hc] _].
    destruct (digit_not_sign c d Hc) as [-> ->]. rewrite Hval. f_equal. lia.
Qed.

(** A number below [10^k] has at most [k] digits. *)
Lemma length_digits_of fuel n acc k :
  0 <= n < 10 ^ Z.of_nat (S k) ->
  (length (digits_of fuel n acc) <= S k + length acc)%nat.
Proof.
  revert n acc k. induction fuel as [|fuel IH]; intros n acc k Hn.
  - cbn [digits_of]. lia.
  - cbn [digits_of]. destruct (Z.ltb_spec n 10) as [Hsmall|Hbig].
    + cbn [length]. lia.
    + destruct k as [|k].
      { change (10 ^ Z.of_nat 1) with 10 in Hn. lia. }
      assert (Hn10 : 0 <= n / 10 < 10 ^ Z.of_nat (S k)).
      { split; [apply Z.div_pos; lia|].
        rewrite (Nat2Z.inj_succ (S k)), Z.pow_succ_r in Hn by lia.
        apply Z.div_lt_upper_bound; lia. }
      specialize (IH (n / 10) (digit_char (n mod 10) :: acc) k Hn10).
      cbn [length] in IH. lia.
Qed.

Lemma str_of_int_within_limit n :
  Z.abs n < str_limit ->
  (length (List.filter is_digit (str_of_int n)) <= max_str_digits)%nat.
Proof.
  intros Hn. unfold str_of_int.
  assert (Hlen : forall fuel,
             (length (digits_of fuel (Z.abs n) []) <= max_str_digits)%nat).
  { intros fuel.
    pose proof (length_digits_of fuel (Z.abs n) [] 4299) as H.
    cbn [length] in H. rewrite Nat.add_0_r in H. apply H.
    split; [apply Z.abs_nonneg|exact Hn]. }
  pose proof (List.filter_length_le is_digit) as Hf.
  destruct (Z.ltb_spec n 0) as [Hneg|Hpos].
  - cbn [List.filter]. change (is_digit "-") with false. cbv iota.
    specialize (Hlen (S (Z.to_nat (Z.log2 (- n))))).
    rewrite (Z.abs_neq n) in Hlen by lia.
    etransitivity; [apply Hf|exact Hlen].
  - specialize (Hlen (S (Z.to_nat (Z.log2 n)))).
    rewrite (Z.abs_eq n) in Hlen by lia.
    etransitivity; [apply Hf|exact Hlen].
Qed.

(** [int(str(n)) == n] for a number that [str] writes. *)
Lemma int_str_of_int n : Z.abs n < str_limit -> int (str_of_int n) = Ok n.
Proof.
  intros Hn. apply int_str_of_int_digits, str_of_int_within_limit, Hn.
Qed.

#[local] Opaque str_limit.

Lemma str_of_int_chars n :
  str_of_int n <> [] /\ Forall (fun c => dec_char c = true) (str_of_int n).
Proof.
  unfold str_of_int. destruct (Z.ltb_spec n 0) as [Hneg|Hpos].
  - split; [discriminate|].
    destruct (digits_of_spec (S (Z.to_nat (Z.log2 (- n)))) (- n) [])
      as (ds & -> & _ & Hall & _); [lia|apply fuel_enough; lia|].
    constructor; [reflexivity|]. rewrite app_nil_r.
    eapply Forall_impl; [exact Hall|]. intros c [d Hc]. unfold dec_char.
    rewrite Hc. reflexivity.
  - destruct (digits_of_spec (S (Z.to_nat (Z.log2 n))) n [])
      as (ds & -> & Hne & Hall & _); [lia|apply fuel_enough; lia|].
    rewrite app_nil_r. split; [exact Hne|].
    eapply Forall_impl; [exact Hall|]. intros c [d Hc]. unfold dec_char.
    rewrite Hc. reflexivity.
Qed.

Lemma dec_char_plain c :
  dec_char c = true ->
  isspace c = false /\ int_space c = false /\ Ascii.eqb c ","%char = false.
Proof.
  destruct c as [[] [] [] [] [] [] [] []]; intros H;
    try discriminate H; repeat split; reflexivity.
Qed.

Lemma str_of_int_token n : token (str_of_int n).
Proof.
  destruct (str_of_int_chars n) as [Hne Hall]. split; [exact Hne|].
  eapply Forall_impl; [exact Hall|]. intros c Hc. apply dec_char_plain, Hc.
Qed.

(** ** Stripping *)

Lemma lstrip_none (f : ascii -> bool) s :
  match s with
  | c :: _ => f c = false
  | [] => True
  end -> lstrip f s = s.
Proof. destruct s as [|c s]; [reflexivity|]. simpl. intros ->. reflexivity. Qed.

Lemma lstrip_all (f : ascii -> bool) ws s :
  Forall (fun c => f c = true) ws -> lstrip f (ws ++ s) = lstrip f s.
Proof. induction 1 as [|c ws Hc _ IH]; [reflexivity|]. simpl. rewrite Hc. exact IH. Qed.

Lemma rstrip_all (f : ascii -> bool) ws s :
  Forall (fun c => f c = true) ws -> rstrip f (s ++ ws) = rstrip f s.
Proof.
  intros H. unfold rstrip. rewrite rev_app_distr.
  rewrite lstrip_all; [reflexivity|]. apply Forall_rev. exact H.
Qed.

Lemma rstrip_none (f : ascii -> bool) s c :
  f c = false -> rstrip f (s ++ [c]) = s ++ [c].
Proof.
  intros Hc. unfold rstrip. rewrite rev_app_distr. simpl. rewrite Hc.
  simpl. rewrite rev_involutive. reflexivity.
Qed.

Lemma strip_plain (f : ascii -> bool) s :
  Forall (fun c => f c = false) s -> strip f s = s.
Proof.
  intros H. unfold strip. rewrite lstrip_none.
  - destruct s as [|c s _] using rev_ind; [reflexivity|].
    apply rstrip_none. apply Forall_app in H as [_ H].
    apply Forall_cons in H as [H _]. exact H.
  - destruct H; [exact I|assumption].
Qed.

Lemma int_of_str_of_int n :
  Z.abs n < str_limit -> int_of (str_of_int n) = Ok n.
Proof.
  intros Hn. unfold int_of. rewrite strip_plain; [apply int_str_of_int, Hn|].
  destruct (str_of_int_chars n) as [_ Hall].
  eapply Forall_impl; [exact Hall|]. intros c Hc. apply dec_char_plain, Hc.
Qed.

(** ** [read_EtotV] *)

Section EtotVProps.

Context {V : Type} (float : str -> option V).

Abbreviation row := (row V float).

Lemma read_EtotV_line_Ok line st st' :
  read_EtotV_line V float line st = Ok st' <->
  exists ve, row line ve /\ st' = (fst st ++ [fst ve], snd st ++ [snd ve]).
Proof.
  unfold read_EtotV_line, row. rewrite !item_lookup by lia. unfold to_float.
  split.
  - intros H. destruct (split line) as [|t0 [|t1 rest]]; simpl in H;
      try discriminate H.
    + destruct (float t0); discriminate H.
    + destruct (float t0) as [v|] eqn:E0; simpl in H; [|discriminate].
      destruct (float t1) as [e|] eqn:E1; simpl in H; [|discriminate].
      injection H as <-. exists (v, e). split; [|reflexivity].
      exists t0, t1, rest. auto.
  - intros ([v e] & (t0 & t1 & rest & -> & H0 & H1) & ->). simpl in *.
    rewrite H0. simpl. rewrite H1. reflexivity.
Qed.

Lemma read_EtotV_loop lines st st' :
  for_each lines (read_EtotV_line V float) st = Ok st' <->
  exists pairs,
    Forall2 row lines pairs /\
    st' = (fst st ++ pairs.*1, snd st ++ pairs.*2).
Proof.
  revert st. induction lines as [|line lines IH]; intros st; simpl.
  - split.
    + intros [= <-]. exists []. split; [constructor|]. simpl.
      rewrite !app_nil_r. destruct st; reflexivity.
    + intros (pairs & H & ->). inversion H; subst. simpl.
      rewrite !app_nil_r. destruct st; reflexivity.
  - split.
    + intros H. bind_inv H as st1 H1.
      apply read_EtotV_line_Ok in H1 as (ve & Hrow & ->).
      apply IH in H as (pairs & Hrows & ->). exists (ve :: pairs).
      split; [constructor; assumption|]. simpl. rewrite <- !app_assoc.
      reflexivity.
    + intros (pairs & H & ->).
      inversion H as [|? ve ? pairs' Hrow Hrows]; subst.
      rewrite (proj2 (read_EtotV_line_Ok line st _)) by eauto.
      simpl. apply IH. exists pairs'. split; [exact Hrows|].
      simpl. rewrite <- !app_assoc. reflexivity.
Qed.

(** [read_EtotV] ends without error exactly when every line of the file
    has at least two tokens and the first two read as floats. The two
    arrays then hold, line by line and in the order of the file, the first
    and the second number of each line: both have as many entries as the
    file has lines, and what follows the second token of a line is
    ignored. *)
Theorem read_EtotV_rows (content : str) (Vx Ex : list V) :
  read_EtotV V float content = Ok (Vx, Ex) <->
  exists pairs,
    Forall2 row (file_lines content) pairs /\
    Vx = pairs.*1 /\ Ex = pairs.*2 /\
    length Vx = length (file_lines content) /\
    length Ex = length (file_lines content).
Proof.
  unfold read_EtotV. rewrite read_EtotV_loop. simpl. split.
  - intros (pairs & H & [= -> ->]). exists pairs.
    pose proof (Forall2_length _ _ _ H) as Hlen.
    rewrite !length_fmap. auto.
  - intros (pairs & H & -> & -> & _). exists pairs. auto.
Qed.

(** A line with fewer than two tokens behind lines that are read makes
    [read_EtotV] fail with an [IndexError], whatever follows: a line of
    white space, such as an empty last line, or a line with one number. *)
Theorem read_EtotV_short_line (content : str) (good : list str) (bad : str)
    (rest : list str) (pairs : list (V * V)) :
  file_lines content = good ++ bad :: rest ->
  Forall2 row good pairs ->
  (split bad = [] \/ exists t v, split bad = [t] /\ float t = Some v) ->
  read_EtotV V float content = Raise IndexError.
Proof.
  intros Hlines Hgood Hbad. unfold read_EtotV. rewrite Hlines, for_each_app.
  rewrite (proj2 (read_EtotV_loop good ([], []) _)) by eauto.
  cbn [bind for_each]. unfold read_EtotV_line at 1.
  rewrite !item_lookup by lia.
  destruct Hbad as [->|(t & v & -> & Ht)]; [reflexivity|].
  simpl. unfold to_float. rewrite Ht. reflexivity.
Qed.

(** Every failure of [read_EtotV] is an [IndexError] or a
    [ValueError]. *)
Theorem read_EtotV_errors (content : str) (e : exn) :
  read_EtotV V float content = Raise e -> e = IndexError \/ e = ValueError.
Proof.
  unfold read_EtotV. generalize (@nil V, @nil V).
  induction (file_lines content) as [|line lines IH]; intros st H;
    [discriminate H|].
  simpl in H. destruct (read_EtotV_line V float line st) as [st1|e1] eqn:E1.
  - simpl in H. eauto.
  - simpl in H. injection H as <-. clear IH.
    unfold read_EtotV_line in E1. rewrite !item_lookup in E1 by lia.
    unfold to_float in E1.
    destruct (split line) as [|t0 [|t1 rest]]; simpl in E1.
    + injection E1 as <-. auto.
    + destruct (float t0); simpl in E1; injection E1 as <-; auto.
    + destruct (float t0); simpl in E1; [|injection E1 as <-; auto].
      destruct (float t1); simpl in E1; [discriminate|].
      injection E1 as <-. auto.
Qed.

End EtotVProps.

(** ** [vector] *)

Lemma int_errors s e : int s = Raise e -> e = ValueError.
Proof.
  unfold int. intros H.
  destruct (match s with
            | [] => None
            | c :: s' =>
                if Ascii.eqb c "-" then Z.opp <$> int_digits false 0 s'
                else if Ascii.eqb c "+" then int_digits false 0 s'
                else int_digits false 0 s
            end) as [n|]; [|congruence].
  destruct (length (List.filter is_digit s) <=? max_str_digits)%nat;
    [discriminate|congruence].
Qed.

Lemma unpack3_Ok pieces x y z :
  unpack3 pieces = Ok (x, y, z) <->
  exists a b c,
    pieces = [a; b; c] /\ int_of a = Ok x /\ int_of b = Ok y /\ int_of c = Ok z.
Proof.
  split.
  - destruct pieces as [|a [|b [|c [|d rest]]]]; simpl; intros H;
      try discriminate H.
    + destruct (int_of a); discriminate H.
    + destruct (int_of a); simpl in H; [|discriminate].
      destruct (int_of b); discriminate H.
    + destruct (int_of a) as [x'|] eqn:Ea; simpl in H; [|discriminate].
      destruct (int_of b) as [y'|] eqn:Eb; simpl in H; [|discriminate].
      destruct (int_of c) as [z'|] eqn:Ec; simpl in H; [|discriminate].
      injection H as -> -> ->. exists a, b, c. auto.
    + destruct (int_of a); simpl in H; [|discriminate].
      destruct (int_of b); simpl in H; [|discriminate].
      destruct (int_of c); simpl in H; [|discriminate].
      destruct (int_of d); discriminate H.
  - intros (a & b & c & -> & Ha & Hb & Hc). simpl.
    rewrite Ha, Hb, Hc. reflexivity.
Qed.

Lemma unpack3_errors pieces e : unpack3 pieces = Raise e -> e = ValueError.
Proof.
  assert (Hint : forall s e', int_of s = Raise e' -> e' = ValueError)
    by (intros s e'; apply int_errors).
  destruct pieces as [|a [|b [|c [|d rest]]]]; simpl; intros H;
    try (injection H as <-; reflexivity);
    repeat match goal with
           | H : context [bind (int_of ?s) _] |- _ =>
               let E := fresh "E" in
               destruct (int_of s) eqn:E; simpl in H;
               [|injection H as <-; eapply Hint; eassumption]
           end;
    try discriminate H; injection H as <-; reflexivity.
Qed.

(** [vector] returns [(x, y, z)] exactly when the argument has three
    pieces between commas and [int] reads them as [x], [y] and [z]; on
    every other argument it raises [ArgumentTypeError], and no other
    exception leaves it. *)
Theorem vector_accepts (s : str) :
  (forall x y z,
      vector s = Return (x, y, z) <->
      exists a b c,
        split_on ","%char s = [a; b; c] /\
        int_of a = Ok x /\ int_of b = Ok y /\ int_of c = Ok z) /\
  ((exists v, vector s = Return v) \/ vector s = ArgumentTypeError).
Proof.
  unfold vector. split.
  - intros x y z. rewrite <- unpack3_Ok.
    destruct (unpack3 (split_on "," s)) as [v|e] eqn:E.
    + split; [intros [= ->]; reflexivity|intros [= ->]; reflexivity].
    + apply unpack3_errors in E as ->. split; discriminate.
  - destruct (unpack3 (split_on "," s)) as [v|e] eqn:E; [eauto|].
    apply unpack3_errors in E as ->. auto.
Qed.

Lemma split_on_piece sep a s :
  Forall (fun c => Ascii.eqb c sep = false) a ->
  split_on sep (a ++ sep :: s) = a :: split_on sep s.
Proof.
  induction 1 as [|c a Hc _ IH]; simpl.
  - rewrite Ascii.eqb_refl. reflexivity.
  - rewrite Hc, IH. reflexivity.
Qed.

Lemma split_on_last sep a :
  Forall (fun c => Ascii.eqb c sep = false) a -> split_on sep a = [a].
Proof.
  induction 1 as [|c a Hc _ IH]; simpl; [reflexivity|].
  rewrite Hc, IH. reflexivity.
Qed.

(** [vector] reads three integers written in decimal and separated by
    commas back as these integers, when each of them has no more digits
    than [str] writes and [int] reads. *)
Theorem vector_of_decimals (x y z : Z) :
  Z.abs x < str_limit -> Z.abs y < str_limit -> Z.abs z < str_limit ->
  vector (str_of_int x ++ ","%char :: str_of_int y ++ ","%char :: str_of_int z)
  = Return (x, y, z).
Proof.
  intros Hx Hy Hz.
  assert (Hc : forall n, Forall (fun c => Ascii.eqb c "," = false) (str_of_int n)).
  { intros n. destruct (str_of_int_chars n) as [_ H].
    eapply Forall_impl; [exact H|]. intros c Hd. apply dec_char_plain, Hd. }
  assert (E : unpack3 (split_on "," (str_of_int x ++ ","%char :: str_of_int y
                                    ++ ","%char :: str_of_int z))
              = Ok (x, y, z)).
  { apply unpack3_Ok.
    exists (str_of_int x), (str_of_int y), (str_of_int z).
    rewrite !split_on_piece, split_on_last by apply Hc.
    rewrite !int_of_str_of_int by assumption. auto. }
  unfold vector. rewrite E. reflexivity.
Qed.

(** The limit of digits at work: a piece of 4301 digits is no integer for
    [vector], with or without leading zeros. *)
Lemma vector_beyond_the_limit :
  vector (replicate 4301 "1"%char ++ lit ",1,1") = ArgumentTypeError /\
  vector (replicate 4300 "0"%char ++ lit "1,1,1") = ArgumentTypeError /\
  vector (replicate 4299 "0"%char ++ lit "1,1,1") = Return (1, 1, 1).
Proof. repeat split; vm_compute; reflexivity. Qed.

(** ** [get_tag] *)

Lemma strip_core (f : ascii -> bool) ws1 ws2 c s c' :
  f c = false -> f c' = false ->
  Forall (fun x => f x = true) ws1 -> Forall (fun x => f x = true) ws2 ->
  strip f (ws1 ++ (c :: s ++ [c']) ++ ws2) = c :: s ++ [c'].
Proof.
  intros Hc Hc' H1 H2. unfold strip. rewrite lstrip_all by exact H1.
  rewrite lstrip_none by exact Hc. rewrite rstrip_all by exact H2.
  apply (rstrip_none f (c :: s) c' Hc').
Qed.

Lemma strip_wrapped (f : ascii -> bool) c c' body :
  f c = true -> f c' = true ->
  (forall x, head body = Some x -> f x = false) ->
  (forall x, last body = Some x -> f x = false) ->
  body <> [] ->
  strip f (c :: body ++ [c']) = body.
Proof.
  intros Hc Hc' Hhead Hlast Hne. unfold strip. simpl lstrip. rewrite Hc.
  rewrite lstrip_none.
  2:{ destruct body as [|x body]; [contradiction|]. simpl. apply Hhead. reflexivity. }
  rewrite (rstrip_all f [c']) by (constructor; [exact Hc'|constructor]).
  destruct body as [|x body _] using rev_ind; [contradiction|].
  apply rstrip_none. apply Hlast. apply last_snoc.
Qed.

Lemma tag_char_ends c :
  tag_char c = true ->
  Ascii.eqb c "/"%char = false /\ Ascii.eqb c ">"%char = false /\
  one_of (" "%char :: "<"%char :: [">"%char]) c = Ascii.eqb c " "%char.
Proof.
  destruct c as [[] [] [] [] [] [] [] []]; intros H;
    try discriminate H; repeat split; reflexivity.
Qed.

(** [get_tag] on a line that holds one tag between blanks, tabs and line
    ends: the result is the text between [<] and [>], with the slash of a
    closing tag in front and the slash of an empty-element tag behind. *)
Theorem get_tag_of_tag (ws1 ws2 name : str) (closing empty : bool) :
  Forall (fun c => one_of (" "%char :: LF :: [ascii_of_nat 9]) c = true) ws1 ->
  Forall (fun c => one_of (" "%char :: LF :: [ascii_of_nat 9]) c = true) ws2 ->
  name <> [] -> Forall (fun c => tag_char c = true) name ->
  head name <> Some " "%char -> last name <> Some " "%char ->
  get_tag (ws1 ++ ("<"%char :: (slash closing ++ name ++ slash empty)
                     ++ [">"%char]) ++ ws2)
  = Some (slash closing ++ name ++ slash empty).
Proof.
  intros H1 H2 Hne Hname Hhead Hlast. unfold get_tag.
  rewrite strip_core by (assumption || reflexivity).
  assert (Hfirst : exists c rest, name = c :: rest /\ tag_char c = true
                                  /\ c <> " "%char).
  { destruct name as [|c rest]; [contradiction|]. exists c, rest.
    apply Forall_cons in Hname as [Hc _]. split; [reflexivity|].
    split; [exact Hc|]. intros ->. apply Hhead. reflexivity. }
  destruct Hfirst as (c0 & rest0 & Hname0 & Hc0 & Hc0b).
  assert (Hmatch : tag_match ("<"%char :: (slash closing ++ name ++ slash empty)
                                ++ [">"%char]) = true).
  { unfold tag_match. rewrite Ascii.eqb_refl. cbn [andb].
    assert (Hskip : skip_slash ((slash closing ++ name ++ slash empty) ++ [">"%char])
                    = name ++ slash empty ++ [">"%char]).
    { rewrite <- !app_assoc. destruct closing; [reflexivity|].
      cbn [slash app]. rewrite Hname0. cbn [app skip_slash].
      destruct (tag_char_ends c0 Hc0) as [-> _]. reflexivity. }
    rewrite Hskip. rewrite lstrip_all by exact Hname.
    rewrite lstrip_none by (destruct empty; reflexivity).
    rewrite !length_app.
    destruct (Nat.eqb_spec (length (slash empty) + length [">"%char])
                (length name + (length (slash empty) + length [">"%char])))
      as [E|_].
    { destruct name; [contradiction|simpl in E; lia]. }
    destruct empty; reflexivity. }
  rewrite Hmatch. f_equal. apply strip_wrapped; try reflexivity.
  - intros x Hx. destruct closing; cbn [slash app] in Hx.
    + injection Hx as <-. reflexivity.
    + rewrite Hname0 in Hx. injection Hx as <-.
      destruct (tag_char_ends c0 Hc0) as (_ & _ & ->).
      destruct (Ascii.eqb_spec c0 " "); [contradiction|reflexivity].
  - intros x Hx. destruct empty; cbn [slash] in Hx.
    + rewrite app_assoc, last_snoc in Hx. injection Hx as <-. reflexivity.
    + rewrite app_nil_r in Hx.
      assert (Hx' : last name = Some x).
      { destruct name as [|y name' _] using rev_ind; [contradiction|].
        rewrite app_assoc, last_snoc in Hx. rewrite last_snoc. exact Hx. }
      assert (Hxc : tag_char x = true).
      { rewrite Forall_forall in Hname. apply Hname.
        destruct name as [|y name' _] using rev_ind; [contradiction|].
        rewrite last_snoc in Hx'. injection Hx' as ->.
        apply elem_of_app. right. left. }
      destruct (tag_char_ends x Hxc) as (_ & _ & ->).
      destruct (Ascii.eqb_spec x " "); [subst; contradiction|reflexivity].
  - destruct closing; [discriminate|]. cbn [slash app]. rewrite Hname0. discriminate.
Qed.

Lemma lstrip_head (f : ascii -> bool) s :
  forall x, head (lstrip f s) = Some x -> f x = false.
Proof.
  induction s as [|c s IH]; intros x Hx; [discriminate Hx|].
  simpl in Hx. destruct (f c) eqn:Hc; [apply IH, Hx|].
  injection Hx as <-. exact Hc.
Qed.

Lemma lstrip_snoc (f : ascii -> bool) l c :
  f c = false -> exists l', lstrip f (l ++ [c]) = l' ++ [c].
Proof.
  intros Hc. induction l as [|x l [l' IH]]; simpl.
  - rewrite Hc. exists []. reflexivity.
  - destruct (f x); [exists l'; exact IH|]. exists (x :: l). reflexivity.
Qed.

(** A stripped string has none of the stripped characters at its ends. *)
Lemma strip_ends (f : ascii -> bool) s :
  (forall x, head (strip f s) = Some x -> f x = false) /\
  (forall x, last (strip f s) = Some x -> f x = false).
Proof.
  unfold strip, rstrip. split.
  - intros x Hx.
    destruct (lstrip f s) as [|c t] eqn:E; [discriminate Hx|].
    assert (Hc : f c = false) by (apply (lstrip_head f s); rewrite E; reflexivity).
    simpl rev in Hx. destruct (lstrip_snoc f (rev t) c Hc) as [l' Hl'].
    rewrite Hl', rev_app_distr in Hx. simpl in Hx. injection Hx as <-. exact Hc.
  - intros x Hx. apply (lstrip_head f (rev (lstrip f s))).
    rewrite <- Hx. destruct (lstrip f (rev (lstrip f s))) as [|c t];
      [reflexivity|].
    simpl rev. rewrite last_snoc. reflexivity.
Qed.

(** What [get_tag] returns, if anything, has neither a blank nor [<] nor
    [>] at its ends; and it returns [None] for every line that, freed
    of blanks, tabs and line ends at its ends, does not begin with
    [<]. *)
Theorem get_tag_shape (line : str) :
  (forall t x,
      get_tag line = Some t ->
      head t = Some x \/ last t = Some x ->
      x <> " "%char /\ x <> "<"%char /\ x <> ">"%char) /\
  (head (strip (one_of (" "%char :: LF :: [ascii_of_nat 9])) line)
   <> Some "<"%char ->
   get_tag line = None).
Proof.
  unfold get_tag. split.
  - intros t x Ht Hx.
    destruct (tag_match _); [|discriminate]. injection Ht as <-.
    assert (Hf : one_of (" "%char :: "<"%char :: [">"%char]) x = false).
    { destruct (strip_ends (one_of (" "%char :: "<"%char :: [">"%char]))
                  (strip (one_of (" "%char :: LF :: [ascii_of_nat 9])) line))
        as [Hh Hl].
      destruct Hx as [Hx|Hx]; [exact (Hh x Hx)|exact (Hl x Hx)]. }
    repeat split; intros ->; discriminate Hf.
  - intros Hhead.
    destruct (strip _ line) as [|c s]; [reflexivity|].
    unfold tag_match. destruct (Ascii.eqb_spec c "<") as [->|_]; [|reflexivity].
    exfalso. apply Hhead. reflexivity.
Qed.

(** [get_tag] looks at the head of the line only: when a tag is followed
    by other text, the result is the whole line without its first [<],
    not the tag. *)
Theorem get_tag_keeps_rest (name rest : str) (c : ascii) :
  name <> [] -> Forall (fun x => tag_char x = true) name ->
  head name <> Some " "%char ->
  one_of (" "%char :: LF :: [ascii_of_nat 9]) c = false ->
  one_of (" "%char :: "<"%char :: [">"%char]) c = false ->
  get_tag ("<"%char :: name ++ ">"%char :: rest ++ [c])
  = Some (name ++ ">"%char :: rest ++ [c]).
Proof.
  intros Hne Hname Hhead Hc1 Hc2. unfold get_tag.
  destruct name as [|c0 rest0]; [contradiction|].
  pose proof Hname as Hname'. apply Forall_cons in Hname' as [Hc0 _].
  destruct (tag_char_ends c0 Hc0) as (Hslash & _ & Hblank).
  assert (Hline : strip (one_of (" "%char :: LF :: [ascii_of_nat 9]))
                    ("<"%char :: (c0 :: rest0) ++ ">"%char :: rest ++ [c])
                  = "<"%char :: (c0 :: rest0) ++ ">"%char :: rest ++ [c]).
  { pose proof (strip_core (one_of (" "%char :: LF :: [ascii_of_nat 9])) [] []
                  "<"%char ((c0 :: rest0) ++ ">"%char :: rest) c) as H.
    rewrite app_nil_r in H. cbn [app] in H. rewrite <- !app_assoc in H.
    cbn [app] in H. cbn [app].
    apply H; [reflexivity|exact Hc1|constructor|constructor]. }
  rewrite Hline.
  assert (Hmatch : tag_match ("<"%char :: (c0 :: rest0) ++ ">"%char :: rest ++ [c])
                   = true).
  { unfold tag_match. rewrite Ascii.eqb_refl. cbn [andb app skip_slash].
    rewrite Hslash.
    change (c0 :: rest0 ++ ">"%char :: rest ++ [c])
      with ((c0 :: rest0) ++ ">"%char :: rest ++ [c]).
    rewrite lstrip_all by exact Hname.
    rewrite lstrip_none by reflexivity.
    cbn [skip_slash]. rewrite length_app.
    destruct (Nat.eqb_spec (length (">"%char :: rest ++ [c]))
                (length (c0 :: rest0) + length (">"%char :: rest ++ [c])))
      as [E|_]; [simpl in E; lia|reflexivity]. }
  rewrite Hmatch. f_equal. unfold strip. cbn [app lstrip].
  change (one_of [" "%char; "<"%char; ">"%char] "<"%char) with true. cbv iota.
  rewrite Hblank.
  destruct (Ascii.eqb_spec c0 " ") as [E|_];
    [subst c0; exfalso; apply Hhead; reflexivity|].
  replace (c0 :: rest0 ++ ">"%char :: rest ++ [c])
    with ((c0 :: rest0 ++ ">"%char :: rest) ++ [c])
    by (cbn [app]; rewrite <- app_assoc; reflexivity).
  apply (rstrip_none _ (c0 :: rest0 ++ ">"%char :: rest) c Hc2).
Qed.

(** ** [create_header] *)

Lemma no_line_end_app a b :
  no_line_end (a ++ b) <-> no_line_end a /\ no_line_end b.
Proof.
  unfold no_line_end. rewrite !not_elem_of_app. tauto.
Qed.

Lemma no_line_end_check s :
  forallb (fun x => negb (Ascii.eqb x LF)) s = true ->
  forallb (fun x => negb (Ascii.eqb x CR)) s = true ->
  no_line_end s.
Proof. intros H1 H2. split; apply not_elem_of_check; assumption. Qed.

Lemma no_line_end_Forall s :
  Forall (fun c => isspace c = false) s -> no_line_end s.
Proof.
  intros H. rewrite Forall_forall in H.
  split; intros Hin; apply H in Hin; discriminate Hin.
Qed.

Lemma no_line_end_blanks k : no_line_end (replicate k " "%char).
Proof.
  split; intros Hin; apply elem_of_replicate in Hin as [Hin _]; discriminate Hin.
Qed.

Lemma no_line_end_pad_d w n : no_line_end (pad_d w n).
Proof.
  unfold pad_d. apply no_line_end_app. split; [apply no_line_end_blanks|].
  apply no_line_end_Forall, str_of_int_token.
Qed.

(** A line that starts with [#] and a blank is a header line. *)
Lemma hash_line body :
  no_line_end body -> header_line (lit "# " ++ body ++ [LF]).
Proof.
  intros [HLF HCR]. exists (lit "# " ++ body), (split (" "%char :: body ++ [LF])).
  split; [rewrite <- app_assoc; reflexivity|].
  split.
  { intros Hin. apply elem_of_app in Hin as [Hin|Hin]; [|contradiction].
    revert Hin. apply not_elem_of_check. reflexivity. }
  split.
  { intros Hin. apply elem_of_app in Hin as [Hin|Hin]; [|contradiction].
    revert Hin. apply not_elem_of_check. reflexivity. }
  change (lit "# " ++ body ++ [LF])
    with (["#"%char] ++ " "%char :: body ++ [LF]).
  apply split_token; [discriminate|repeat constructor|reflexivity].
Qed.

Lemma split_blanks k s : split (replicate k " "%char ++ s) = split s.
Proof.
  induction k as [|k IH]; [reflexivity|].
  cbn [replicate app]. rewrite split_space by reflexivity. exact IH.
Qed.

Lemma split_pad_d w n s :
  boundary s -> split (pad_d w n ++ s) = str_of_int n :: split s.
Proof.
  intros Hs. unfold pad_d. rewrite <- app_assoc, split_blanks.
  destruct (str_of_int_token n) as [Hne Hall].
  apply split_token; assumption.
Qed.

(** [format] writes the numbers below the limit, and only them. *)
Lemma format_d_Ok w n s :
  format_d w n = Ok s <-> Z.abs n < str_limit /\ s = pad_d w n.
Proof.
  unfold format_d. destruct (Z.ltb_spec (Z.abs n) str_limit) as [H|H].
  - split; [intros [= <-]; auto|intros [_ ->]; reflexivity].
  - split; [discriminate|lia].
Qed.

Lemma format_d_below w n :
  Z.abs n < str_limit -> format_d w n = Ok (pad_d w n).
Proof. intros H. apply format_d_Ok. auto. Qed.

Lemma format_d_Raise w n :
  str_limit <= Z.abs n -> format_d w n = Raise ValueError.
Proof.
  intros H. unfold format_d.
  destruct (Z.ltb_spec (Z.abs n) str_limit); [lia|reflexivity].
Qed.

Ltac no_line_ends H :=
  repeat first
    [ apply no_line_end_pad_d
    | apply H
    | apply no_line_end_check; reflexivity
    | apply no_line_end_app; split ].

Ltac str_norm :=
  unfold lit;
  repeat (progress (rewrite <- ?app_assoc;
                    cbn [app list_ascii_of_string concat replicate])).

Section CreateHeaderProps.

Context {V T : Type} (formatE8 formatE9 : V -> str) (float_of : T -> option V).

Abbreviation species_line' := (species_line).
Abbreviation position_line' := (position_line V formatE9 T float_of).

Lemma species_loop (sp : list (option str)) text i text' i' :
  for_each sp species_line (text, i) = Ok (text', i') ->
  (forall name, Some name ∈ sp -> no_line_end name) ->
  exists lines,
    text' = text ++ concat lines /\ Forall header_line lines /\
    length lines = length sp.
Proof.
  revert text i. induction sp as [|typ sp IH]; intros text i H Hnames.
  - injection H as <- _. exists []. rewrite app_nil_r. auto.
  - simpl in H. bind_inv H as st1 H1. unfold species_line in H1.
    bind_inv H1 as ityp Hityp. cbn [snd] in Hityp.
    apply format_d_Ok in Hityp as [_ ->].
    bind_inv H1 as name Hname. injection H1 as <-.
    destruct typ as [name'|]; [|discriminate]. injection Hname as ->.
    cbn [fst snd] in H.
    apply IH in H as (lines & -> & Hlines & Hlen).
    2:{ intros n Hn. apply Hnames. right. exact Hn. }
    exists ((lit "# " ++ (pad_d 4 i ++ lit " " ++ name) ++ [LF]) :: lines).
    split; [|split; [|simpl; lia]].
    + str_norm. reflexivity.
    + constructor; [|exact Hlines]. apply hash_line.
      apply no_line_end_app. split; [apply no_line_end_pad_d|].
      apply no_line_end_app. split; [apply no_line_end_check; reflexivity|].
      apply Hnames. left.
Qed.

Lemma positions_loop (ps : list (position T)) text i text' i' :
  for_each ps position_line' (text, i) = Ok (text', i') ->
  (forall v, no_line_end (formatE9 v)) ->
  (forall pos name, pos ∈ ps -> pos_name T pos = Some name -> no_line_end name) ->
  exists lines,
    text' = text ++ concat lines /\ Forall header_line lines /\
    length lines = length ps.
Proof.
  intros H HE Hnames. revert text i H.
  induction ps as [|pos ps IH]; intros text i H.
  - injection H as <- _. exists []. rewrite app_nil_r. auto.
  - simpl in H. bind_inv H as st1 H1. unfold position_line in H1.
    bind_inv H1 as ipos Hipos. cbn [snd] in Hipos.
    apply format_d_Ok in Hipos as [_ ->].
    bind_inv H1 as xs Hxs. bind_inv H1 as cs Hcs.
    bind_inv H1 as c0 Hc0. bind_inv H1 as c1 Hc1. bind_inv H1 as c2 Hc2.
    bind_inv H1 as name Hname. injection H1 as <-.
    destruct (pos_name T pos) as [name'|] eqn:Epos; [|discriminate].
    injection Hname as ->. cbn [fst snd] in H.
    apply IH in H as (lines & -> & Hlines & Hlen).
    2:{ intros p n Hp. apply Hnames. right. exact Hp. }
    exists ((lit "# " ++ (pad_d 4 i ++ lit "  " ++ lit " " ++ formatE9 c0
                          ++ lit " " ++ formatE9 c1 ++ lit " " ++ formatE9 c2
                          ++ lit "  " ++ name) ++ [LF]) :: lines).
    split; [|split; [|simpl; lia]].
    + str_norm. reflexivity.
    + constructor; [|exact Hlines]. apply hash_line.
      no_line_ends HE.
      apply (Hnames pos); [left|exact Epos].
Qed.

(** The lines of the header, and the dimensions on the second one. *)
Lemma create_header_layout (prefix : str) (nr nr_smooth : dims) (ibrav : Z)
    (celldms : list V) (nat_ ntyp : Z) (atomic_species : list (option str))
    (atomic_positions : list (position T)) (header : str) :
  create_header V formatE8 formatE9 T float_of prefix nr nr_smooth ibrav celldms
    nat_ ntyp atomic_species atomic_positions = Ok header ->
  no_line_end prefix ->
  (forall v, no_line_end (formatE8 v)) ->
  (forall v, no_line_end (formatE9 v)) ->
  (forall name, Some name ∈ atomic_species -> no_line_end name) ->
  (forall pos name, pos ∈ atomic_positions -> pos_name T pos = Some name ->
                    no_line_end name) ->
  exists line1 line2 more,
    header = concat (line1 :: line2 :: more) /\
    Forall header_line (line1 :: line2 :: more) /\
    length more = (2 + length atomic_species + length atomic_positions)%nat /\
    ((let '(nr0, nr1, nr2) := nr in
      (- 2 ^ 63 <= nr0 < 2 ^ 63) /\ (- 2 ^ 63 <= nr1 < 2 ^ 63) /\
      (- 2 ^ 63 <= nr2 < 2 ^ 63)) ->
     read_dims (split line2) = Ok nr).
Proof.
  intros H Hprefix HE8 HE9 Hsp Hpos.
  destruct nr as [[nr0 nr1] nr2], nr_smooth as [[ns0 ns1] ns2].
  unfold create_header in H.
  bind_inv H as f0 Hf0. bind_inv H as f1 Hf1. bind_inv H as f2 Hf2.
  bind_inv H as f3 Hf3. bind_inv H as f4 Hf4. bind_inv H as f5 Hf5.
  bind_inv H as f6 Hf6. bind_inv H as f7 Hf7. bind_inv H as fb Hfb.
  apply format_d_Ok in Hf0 as [L0 ->], Hf1 as [L1 ->], Hf2 as [L2 ->],
    Hf3 as [_ ->], Hf4 as [_ ->], Hf5 as [_ ->], Hf6 as [_ ->], Hf7 as [_ ->],
    Hfb as [_ ->].
  bind_inv H as c0 Hc0. bind_inv H as c1 Hc1. bind_inv H as c2 Hc2.
  bind_inv H as c3 Hc3. bind_inv H as c4 Hc4. bind_inv H as c5 Hc5.
  bind_inv H as st1 Hloop1. bind_inv H as st2 Hloop2. injection H as <-.
  destruct st1 as [text1 i1], st2 as [text2 i2]. cbn [fst] in *.
  apply species_loop in Hloop1 as (lines1 & -> & Hlines1 & Hlen1);
    [|exact Hsp].
  apply positions_loop in Hloop2 as (lines2 & -> & Hlines2 & Hlen2);
    [|exact HE9|exact Hpos].
  set (body2 := pad_d 8 nr0 ++ lit " " ++ pad_d 8 nr1 ++ lit " "
                ++ pad_d 8 nr2 ++ lit " " ++ pad_d 8 ns0 ++ lit " "
                ++ pad_d 8 ns1 ++ lit " " ++ pad_d 8 ns2 ++ lit " "
                ++ pad_d 8 nat_ ++ lit " " ++ pad_d 8 ntyp).
  set (body3 := pad_d 6 ibrav ++ lit "    " ++ formatE8 c0 ++ lit "  "
                ++ formatE8 c1 ++ lit "  " ++ formatE8 c2 ++ lit "  "
                ++ formatE8 c3 ++ lit "  " ++ formatE8 c4 ++ lit "  "
                ++ formatE8 c5).
  set (body4 := lit "     " ++ concat (replicate 4 (lit "XXXX   "))).
  exists (lit "# " ++ prefix ++ [LF]), (lit "# " ++ body2 ++ [LF]),
    ((lit "# " ++ body3 ++ [LF]) :: (lit "# " ++ body4 ++ [LF])
       :: lines1 ++ lines2).
  split.
  { subst body2 body3 body4. cbn [concat]. rewrite concat_app.
    str_norm. reflexivity. }
  split.
  { repeat (apply List.Forall_cons; [apply hash_line|]).
    - exact Hprefix.
    - subst body2. no_line_ends HE8.
    - subst body3. no_line_ends HE8.
    - apply no_line_end_check; reflexivity.
    - apply Forall_app. split; assumption. }
  split; [simpl; rewrite length_app; lia|].
  intros (B0 & B1 & B2). apply read_dims_Ok.
  exists (lit "#"), (str_of_int nr0), (str_of_int nr1), (str_of_int nr2).
  eexists. split; [|rewrite !int_str_of_int by assumption; auto 10].
  subst body2.
  change (lit "# ") with (["#"%char] ++ [" "%char]).
  change (lit " ") with [" "%char].
  rewrite <- !app_assoc.
  rewrite (split_token ["#"%char])
    by first [discriminate | reflexivity | repeat constructor].
  cbn [app]. rewrite split_space by reflexivity.
  rewrite split_pad_d by reflexivity.
  cbn [app]. rewrite split_space by reflexivity.
  rewrite split_pad_d by reflexivity.
  cbn [app]. rewrite split_space by reflexivity.
  rewrite split_pad_d by reflexivity.
  reflexivity.
Qed.

(** The text [create_header] returns is made of complete lines that the
    reader of the text dump takes for header lines, four and one for each
    species and each position, when the prefix, the names and the
    formatted floats are free of line ends; and the reader finds the
    dimensions [nr] on the second of them when they fit 64 bits. *)
Theorem create_header_lines (prefix : str) (nr nr_smooth : dims) (ibrav : Z)
    (celldms : list V) (nat_ ntyp : Z) (atomic_species : list (option str))
    (atomic_positions : list (position T)) (header : str) :
  create_header V formatE8 formatE9 T float_of prefix nr nr_smooth ibrav celldms
    nat_ ntyp atomic_species atomic_positions = Ok header ->
  no_line_end prefix ->
  (forall v, no_line_end (formatE8 v)) ->
  (forall v, no_line_end (formatE9 v)) ->
  (forall name, Some name ∈ atomic_species -> no_line_end name) ->
  (forall pos name, pos ∈ atomic_positions -> pos_name T pos = Some name ->
                    no_line_end name) ->
  exists line1 line2 more,
    header = concat (line1 :: line2 :: more) /\
    Forall header_line (line1 :: line2 :: more) /\
    length more = (2 + length atomic_species + length atomic_positions)%nat /\
    ((let '(nr0, nr1, nr2) := nr in
      (- 2 ^ 63 <= nr0 < 2 ^ 63) /\ (- 2 ^ 63 <= nr1 < 2 ^ 63) /\
      (- 2 ^ 63 <= nr2 < 2 ^ 63)) ->
     read_dims (split line2) = Ok nr).
Proof. apply create_header_layout. Qed.

End CreateHeaderProps.

Section CreateHeaderSuccess.

Context {V T : Type} (formatE8 formatE9 : V -> str) (float_of : T -> option V).

Abbreviation printable := (printable V T float_of).

Lemma floats_of_loop xs acc acc' :
  for_each xs
    (fun x acc => match float_of x with
                  | Some v => Ok (acc ++ [v])
                  | None => Raise ValueError
                  end) acc = Ok acc' <->
  exists cs, acc' = acc ++ cs /\ Forall2 (fun x v => float_of x = Some v) xs cs.
Proof.
  revert acc. induction xs as [|x xs IH]; intros acc; simpl.
  - split.
    + intros [= <-]. exists []. rewrite app_nil_r. split; [reflexivity|constructor].
    + intros (cs & -> & H). inversion H. rewrite app_nil_r. reflexivity.
  - destruct (float_of x) as [v|] eqn:Hx; simpl.
    + rewrite IH. split.
      * intros (cs & -> & H). exists (v :: cs). rewrite <- app_assoc.
        split; [reflexivity|constructor; assumption].
      * intros (cs & -> & H). inversion H as [|? v' ? cs' Hv Hcs]; subst.
        assert (v' = v) by congruence. subst. exists cs'.
        rewrite <- app_assoc. auto.
    + split; [discriminate|]. intros (cs & _ & H). inversion H; congruence.
Qed.

Lemma arg_Ok {A} (l : list A) i : (i < length l)%nat -> exists x, arg l i = Ok x.
Proof.
  intros Hi. unfold arg. destruct (lookup_lt_is_Some_2 l i Hi) as [x ->]. eauto.
Qed.

Lemma arg_Raise {A} (l : list A) i : (length l <= i)%nat -> arg l i = Raise IndexError.
Proof. intros Hi. unfold arg. rewrite lookup_ge_None_2 by exact Hi. reflexivity. Qed.

(** A loop that counts its turns, on a list short enough for the counter
    to stay below the limit of [format]. *)
Lemma for_each_counted {X} (l : list X)
    (body : X -> str * Z -> result (str * Z)) (good : X -> Prop) :
  (forall x st, Z.abs (snd st) < str_limit ->
                (exists st', body x st = Ok st') <-> good x) ->
  (forall x st st', body x st = Ok st' -> snd st' = snd st + 1) ->
  forall st,
    0 <= snd st -> snd st + Z.of_nat (length l) <= str_limit ->
    (exists st', for_each l body st = Ok st') <-> Forall good l.
Proof.
  intros Hbody Hstep. induction l as [|x l IH]; intros st H0 Hlen.
  - cbn [for_each]. split; [constructor|eauto].
  - cbn [for_each]. cbn [length] in Hlen. split.
    + intros [st' H]. bind_inv H as s1 H1. constructor.
      * apply (Hbody x st); [lia|eauto].
      * pose proof (Hstep _ _ _ H1) as Hs.
        apply (IH s1); [lia|lia|eauto].
    + intros H. apply Forall_cons in H as [Hx Hl].
      apply (Hbody x st) in Hx as [s1 H1]; [|lia].
      pose proof (Hstep _ _ _ H1) as Hs. rewrite H1. cbn [bind].
      apply IH; [lia|lia|exact Hl].
Qed.

Lemma position_line_Ok pos st :
  Z.abs (snd st) < str_limit ->
  (exists st', position_line V formatE9 T float_of pos st = Ok st')
  <-> printable pos.
Proof.
  intros Hst. unfold position_line, printable, floats_of.
  rewrite (format_d_below _ _ Hst). cbn [bind]. split.
  - intros [st' H]. bind_inv H as xs Hxs. bind_inv H as cs Hcs.
    bind_inv H as c0 Hc0. bind_inv H as c1 Hc1. bind_inv H as c2 Hc2.
    bind_inv H as name Hname.
    destruct (coords T pos) as [xs'|]; [|discriminate]. injection Hxs as ->.
    destruct (pos_name T pos) as [name'|]; [|discriminate].
    apply floats_of_loop in Hcs as (cs' & -> & Hall). simpl in *.
    split; [|eauto]. exists xs. split; [reflexivity|]. split.
    + rewrite (Forall2_length _ _ _ Hall). unfold arg in Hc2.
      destruct (cs' !! 2%nat) eqn:E; [|discriminate].
      apply lookup_lt_Some in E. lia.
    + clear -Hall. induction Hall; constructor; eauto.
  - intros [(xs & -> & Hlen & Hall) [name ->]]. simpl.
    assert (Hcs : exists cs, Forall2 (fun x v => float_of x = Some v) xs cs).
    { clear -Hall. induction Hall as [|x xs [v Hv] _ [cs IH]];
        [exists []; constructor|]. exists (v :: cs). constructor; assumption. }
    destruct Hcs as [cs Hcs].
    rewrite (proj2 (floats_of_loop xs [] cs)) by eauto. simpl.
    pose proof (Forall2_length _ _ _ Hcs) as Hl.
    destruct (arg_Ok cs 0) as [c0 ->]; [lia|].
    destruct (arg_Ok cs 1) as [c1 ->]; [lia|].
    destruct (arg_Ok cs 2) as [c2 ->]; [lia|]. simpl. eauto.
Qed.

Lemma position_line_step pos st st' :
  position_line V formatE9 T float_of pos st = Ok st' -> snd st' = snd st + 1.
Proof.
  unfold position_line. intros H.
  bind_inv H as ipos Hipos. bind_inv H as xs Hxs. bind_inv H as cs Hcs.
  bind_inv H as c0 Hc0. bind_inv H as c1 Hc1. bind_inv H as c2 Hc2.
  bind_inv H as name Hname. injection H as <-. reflexivity.
Qed.

Lemma species_line_Ok typ st :
  Z.abs (snd st) < str_limit ->
  (exists st', species_line typ st = Ok st') <-> is_Some typ.
Proof.
  intros Hst. unfold species_line. rewrite (format_d_below _ _ Hst).
  cbn [bind]. destruct typ as [name|]; simpl.
  - split; eauto.
  - split; [intros [st' H]; discriminate|intros [x H]; discriminate].
Qed.

Lemma species_line_step typ st st' :
  species_line typ st = Ok st' -> snd st' = snd st + 1.
Proof.
  unfold species_line. intros H.
  bind_inv H as ityp Hityp. bind_inv H as name Hname. injection H as <-.
  reflexivity.
Qed.

(** [create_header] returns a header exactly when the nine integers are
    within the limit of digits of [format], there are six or more cell
    parameters, every species has a name and every position has a name
    and three or more coordinates that convert to floats. An integer
    beyond the limit gives a [ValueError]; with the integers within the
    limit, fewer than six cell parameters give an [IndexError]. The lists
    of species and of positions are short enough for their counters to
    stay within the limit. *)
Theorem create_header_succeeds (prefix : str) (nr nr_smooth : dims) (ibrav : Z)
    (celldms : list V) (nat_ ntyp : Z) (atomic_species : list (option str))
    (atomic_positions : list (position T)) :
  Z.of_nat (length atomic_species) < str_limit ->
  Z.of_nat (length atomic_positions) < str_limit ->
  ((exists header,
       create_header V formatE8 formatE9 T float_of prefix nr nr_smooth ibrav
         celldms nat_ ntyp atomic_species atomic_positions = Ok header)
   <-> Forall (fun n => Z.abs n < str_limit)
         (header_ints nr nr_smooth nat_ ntyp ibrav) /\
       (6 <= length celldms)%nat /\ Forall is_Some atomic_species /\
       Forall printable atomic_positions) /\
  (Exists (fun n => str_limit <= Z.abs n)
     (header_ints nr nr_smooth nat_ ntyp ibrav) ->
   create_header V formatE8 formatE9 T float_of prefix nr nr_smooth ibrav
     celldms nat_ ntyp atomic_species atomic_positions = Raise ValueError) /\
  (Forall (fun n => Z.abs n < str_limit)
     (header_ints nr nr_smooth nat_ ntyp ibrav) ->
   (length celldms < 6)%nat ->
   create_header V formatE8 formatE9 T float_of prefix nr nr_smooth ibrav
     celldms nat_ ntyp atomic_species atomic_positions = Raise IndexError).
Proof.
  intros Hnsp Hnpos.
  destruct nr as [[nr0 nr1] nr2], nr_smooth as [[ns0 ns1] ns2].
  unfold create_header, header_ints. split; [|split].
  - split.
    + intros [header H].
      bind_inv H as f0 Hf0. bind_inv H as f1 Hf1. bind_inv H as f2 Hf2.
      bind_inv H as f3 Hf3. bind_inv H as f4 Hf4. bind_inv H as f5 Hf5.
      bind_inv H as f6 Hf6. bind_inv H as f7 Hf7. bind_inv H as fb Hfb.
      apply format_d_Ok in Hf0 as [L0 _], Hf1 as [L1 _], Hf2 as [L2 _],
        Hf3 as [L3 _], Hf4 as [L4 _], Hf5 as [L5 _], Hf6 as [L6 _],
        Hf7 as [L7 _], Hfb as [Lb _].
      bind_inv H as c0 Hc0. bind_inv H as c1 Hc1. bind_inv H as c2 Hc2.
      bind_inv H as c3 Hc3. bind_inv H as c4 Hc4. bind_inv H as c5 Hc5.
      bind_inv H as st1 Hloop1. bind_inv H as st2 Hloop2.
      split; [repeat constructor; assumption|].
      split.
      { unfold arg in Hc5. destruct (celldms !! 5%nat) eqn:E; [|discriminate].
        apply lookup_lt_Some in E. lia. }
      split.
      * eapply (for_each_counted _ _ _ species_line_Ok species_line_step);
          [| |eauto]; cbn [snd]; lia.
      * eapply (for_each_counted _ _ _ position_line_Ok position_line_step);
          [| |eauto]; cbn [snd]; lia.
    + intros (Hints & Hlen & Hsp & Hpos).
      repeat (apply Forall_cons in Hints as [? Hints]).
      rewrite !format_d_below by assumption. cbn [bind].
      destruct (arg_Ok celldms 0) as [c0 ->]; [lia|].
      destruct (arg_Ok celldms 1) as [c1 ->]; [lia|].
      destruct (arg_Ok celldms 2) as [c2 ->]; [lia|].
      destruct (arg_Ok celldms 3) as [c3 ->]; [lia|].
      destruct (arg_Ok celldms 4) as [c4 ->]; [lia|].
      destruct (arg_Ok celldms 5) as [c5 ->]; [lia|].
      cbn [bind].
      match goal with
      | |- context [for_each atomic_species species_line ?s] =>
          destruct (proj2 (for_each_counted atomic_species species_line _
                             species_line_Ok species_line_step s
                             ltac:(cbn [snd]; lia) ltac:(cbn [snd]; lia)) Hsp)
            as [st1 ->]
      end.
      cbn [bind].
      match goal with
      | |- context [for_each atomic_positions ?b ?s] =>
          destruct (proj2 (for_each_counted atomic_positions b _
                             position_line_Ok position_line_step s
                             ltac:(cbn [snd]; lia) ltac:(cbn [snd]; lia)) Hpos)
            as [st2 ->]
      end.
      cbn [bind]. eauto.
  - intros Hbig. rewrite !Exists_cons, Exists_nil in Hbig.
    destruct (Z.lt_ge_cases (Z.abs nr0) str_limit) as [L0|L0];
      [rewrite (format_d_below 8 nr0 L0); cbn [bind]
      |rewrite (format_d_Raise 8 nr0 L0); reflexivity].
    destruct (Z.lt_ge_cases (Z.abs nr1) str_limit) as [L1|L1];
      [rewrite (format_d_below 8 nr1 L1); cbn [bind]
      |rewrite (format_d_Raise 8 nr1 L1); reflexivity].
    destruct (Z.lt_ge_cases (Z.abs nr2) str_limit) as [L2|L2];
      [rewrite (format_d_below 8 nr2 L2); cbn [bind]
      |rewrite (format_d_Raise 8 nr2 L2); reflexivity].
    destruct (Z.lt_ge_cases (Z.abs ns0) str_limit) as [L3|L3];
      [rewrite (format_d_below 8 ns0 L3); cbn [bind]
      |rewrite (format_d_Raise 8 ns0 L3); reflexivity].
    destruct (Z.lt_ge_cases (Z.abs ns1) str_limit) as [L4|L4];
      [rewrite (format_d_below 8 ns1 L4); cbn [bind]
      |rewrite (format_d_Raise 8 ns1 L4); reflexivity].
    destruct (Z.lt_ge_cases (Z.abs ns2) str_limit) as [L5|L5];
      [rewrite (format_d_below 8 ns2 L5); cbn [bind]
      |rewrite (format_d_Raise 8 ns2 L5); reflexivity].
    destruct (Z.lt_ge_cases (Z.abs nat_) str_limit) as [L6|L6];
      [rewrite (format_d_below 8 nat_ L6); cbn [bind]
      |rewrite (format_d_Raise 8 nat_ L6); reflexivity].
    destruct (Z.lt_ge_cases (Z.abs ntyp) str_limit) as [L7|L7];
      [rewrite (format_d_below 8 ntyp L7); cbn [bind]
      |rewrite (format_d_Raise 8 ntyp L7); reflexivity].
    destruct (Z.lt_ge_cases (Z.abs ibrav) str_limit) as [Lb|Lb];
      [|rewrite (format_d_Raise 6 ibrav Lb); reflexivity].
    lia.
  - intros Hints Hlen.
    repeat (apply Forall_cons in Hints as [? Hints]).
    rewrite !format_d_below by assumption. cbn [bind].
    destruct (celldms !! 0%nat) as [c0|] eqn:E0; unfold arg at 1; rewrite E0;
      [|reflexivity]. cbn [bind].
    destruct (celldms !! 1%nat) as [c1|] eqn:E1; unfold arg at 1; rewrite E1;
      [|reflexivity]. cbn [bind].
    destruct (celldms !! 2%nat) as [c2|] eqn:E2; unfold arg at 1; rewrite E2;
      [|reflexivity]. cbn [bind].
    destruct (celldms !! 3%nat) as [c3|] eqn:E3; unfold arg at 1; rewrite E3;
      [|reflexivity]. cbn [bind].
    destruct (celldms !! 4%nat) as [c4|] eqn:E4; unfold arg at 1; rewrite E4;
      [|reflexivity]. cbn [bind].
    rewrite arg_Raise by lia. reflexivity.
Qed.

End CreateHeaderSuccess.

(** ** The header of [create_header] in front of a field *)

Section HeaderRoundTrip.

Context {V T : Type} (format9E : V -> str) (float : str -> option V) (zero : V)
        (formatE8 formatE9 : V -> str) (float_of : T -> option V).

Variable approx : V -> V -> Prop.
Hypothesis format_token : forall v, token (format9E v) /\ format9E v <> lit "#".
Hypothesis float_format :
  forall v, exists v', float (format9E v) = Some v' /\ approx v v'.
Hypothesis formatE8_line : forall v, no_line_end (formatE8 v).
Hypothesis formatE9_line : forall v, no_line_end (formatE9 v).



End HeaderRoundTrip.

(** ** More on the scatter loop and the reconstruction *)

Lemma norm_index_Raise n i e : norm_index n i = Raise e -> e = IndexError.
Proof.
  unfold norm_index.
  destruct (i <? 0); [destruct (- n <=? i)|destruct (i <? n)];
    intros H; try discriminate H; congruence.
Qed.

Lemma locate_Raise nr p e : locate nr p = Raise e -> e = IndexError.
Proof.
  destruct nr as [[n1 n2] n3], p as [[i j] k]. unfold locate. intros H.
  destruct (norm_index n1 i) eqn:E1; simpl in H;
    [|injection H as <-; eapply norm_index_Raise; eassumption].
  destruct (norm_index n2 j) eqn:E2; simpl in H;
    [|injection H as <-; eapply norm_index_Raise; eassumption].
  destruct (norm_index n3 k) eqn:E3; simpl in H;
    [discriminate|injection H as <-; eapply norm_index_Raise; eassumption].
Qed.


Lemma setitem_Raise {A} (a : ndarray A) p v e :
  setitem a p v = Raise e -> e = IndexError.
Proof.
  unfold setitem. intros H.
  destruct (locate (shape a) p) eqn:E; simpl in H; [discriminate|].
  injection H as <-. eapply locate_Raise; eassumption.
Qed.

Lemma scatter_Raise {A} (a : ndarray A) l e :
  scatter a l = Raise e -> e = IndexError.
Proof.
  revert a. induction l as [|[p c] l IH]; intros a H; simpl in H;
    [discriminate|].
  destruct (setitem a p c) eqn:E; simpl in H; [eauto|].
  injection H as <-. eapply setitem_Raise; eassumption.
Qed.

Lemma setitem_swap {A} (a : ndarray A) p q (x y : A) :
  locate (shape a) p <> locate (shape a) q ->
  bind (setitem a p x) (fun g => setitem g q y)
  = bind (setitem a q y) (fun g => setitem g p x).
Proof.
  intros Hne. unfold setitem.
  destruct (locate (shape a) p) as [p'|e1] eqn:Ep,
           (locate (shape a) q) as [q'|e2] eqn:Eq; simpl;
    rewrite ?Ep, ?Eq; simpl; try reflexivity.
  - f_equal. f_equal. apply list_insert_insert_ne.
    intros E. apply Hne. f_equal.
    apply (offset_inj (shape a)); eauto using locate_Ok.
    pose proof (offset_bound _ _ (locate_Ok _ _ _ Ep)).
    pose proof (offset_bound _ _ (locate_Ok _ _ _ Eq)). lia.
  - apply locate_Raise in Ep, Eq. congruence.
Qed.

(** The order of the coefficients does not matter when no two of them
    address the same cell: the loop gives the same grid, or fails
    likewise, on every rearrangement of the list. *)
Theorem scatter_order_irrelevant {A} (rho_temp : ndarray A)
    (els els' : list (dims * A)) :
  els ≡ₚ els' ->
  NoDup (locate (shape rho_temp) <$> els.*1) ->
  scatter rho_temp els = scatter rho_temp els'.
Proof.
  intros Hperm. revert rho_temp.
  induction Hperm as [|[p x] l l' Hperm IH|[p x] [q y] l|l1 l2 l3 H12 IH12 H23 IH23];
    intros a Hnd.
  - reflexivity.
  - simpl. destruct (setitem a p x) as [g|e] eqn:E; simpl; [|reflexivity].
    apply IH. rewrite (setitem_shape _ _ _ _ E).
    simpl in Hnd. apply NoDup_cons in Hnd as [_ Hnd]. exact Hnd.
  - simpl in Hnd. apply NoDup_cons in Hnd as [Hnotin _].
    apply not_elem_of_cons in Hnotin as [Hne _].
    simpl.
    pose proof (setitem_swap a q p y x Hne) as Hswap.
    destruct (setitem a q y) as [g1|e1] eqn:E1,
             (setitem a p x) as [g2|e2] eqn:E2; simpl in *.
    + destruct (setitem g1 p x) as [g12|] eqn:E12,
               (setitem g2 q y) as [g21|] eqn:E21; simpl;
        try discriminate Hswap; congruence.
    + destruct (setitem g1 p x) eqn:E12; simpl; [discriminate Hswap|].
      congruence.
    + destruct (setitem g2 q y) eqn:E21; simpl; [discriminate Hswap|].
      congruence.
    + apply setitem_Raise in E1, E2. congruence.
  - rewrite IH12 by exact Hnd. apply IH23.
    assert (Hp : locate (shape a) <$> l1.*1 ≡ₚ locate (shape a) <$> l2.*1)
      by (apply fmap_Permutation, fmap_Permutation, H12).
    rewrite <- Hp. exact Hnd.
Qed.


#[local] Arguments zeros : simpl never.
#[local] Arguments positions : simpl never.
#[local] Arguments ifftn : simpl never.



Lemma zeros_of_reconstruct (h5f : h5file) name nr t :
  reconstruct h5f name nr = Ok t ->
  zeros Czero nr = Ok (mk nr (replicate (Z.to_nat (size nr)) Czero)).
Proof.
  destruct nr as [[n1 n2] n3]. unfold reconstruct. intros H.
  bind_inv H as d Hd. bind_inv H as aux Haux. bind_inv H as grid0 Hgrid0.
  clear H. unfold zeros in *.
  destruct ((n1 <? 0) || (n2 <? 0) || (n3 <? 0)); [discriminate|reflexivity].
Qed.

(** The difference field is the zero field of the dimensions asked for
    whenever the block that rebuilds it fails, for whatever reason: the
    function reports no error then. A dataset [rhodiff_g] that does not
    hold [2*ngm_g] numbers is such a reason. *)
Theorem unusable_rhodiff_gives_zero_field (h5f : h5file) (nr : dims)
    (rhotot_r : ndarray C) :
  reconstruct h5f (rhotot_g h5f) nr = Ok rhotot_r ->
  (forall e,
      reconstruct h5f (rhodiff_g h5f) nr = Raise e ->
      read_charge_file_hdf5 h5f nr
      = Ok (real rhotot_r, mk nr (replicate (Z.to_nat (size nr)) 0%R))) /\
  (forall n d,
      attr_ngm_g h5f = Some n -> 0 <= n ->
      rhodiff_g h5f = Some d -> Z.of_nat (length d) <> n * 2 ->
      read_charge_file_hdf5 h5f nr
      = Ok (real rhotot_r, mk nr (replicate (Z.to_nat (size nr)) 0%R))).
Proof.
  intros Htot.
  assert (Hgen : forall e,
             reconstruct h5f (rhodiff_g h5f) nr = Raise e ->
             read_charge_file_hdf5 h5f nr
             = Ok (real rhotot_r, mk nr (replicate (Z.to_nat (size nr)) 0%R))).
  { intros e Hdiff. unfold read_charge_file_hdf5. rewrite Htot, Hdiff.
    cbn [bind try_except]. rewrite (zeros_of_reconstruct _ _ _ _ Htot).
    cbn [bind]. unfold real at 2, NdArray.map. cbn [shape data].
    rewrite fmap_replicate. reflexivity. }
  split; [exact Hgen|].
  intros n d Hngm Hn Hd Hlen. apply (Hgen ValueError).
  unfold reconstruct. destruct nr as [[n1 n2] n3]. rewrite Hd, Hngm.
  cbn [dataset bind]. unfold reshape2.
  destruct (Z.eqb_spec n (-1)); [lia|].
  destruct (Z.ltb_spec n 0); [lia|].
  destruct (Z.eqb_spec (Z.of_nat (length d)) (n * 2)); [contradiction|].
  reflexivity.
Qed.

Lemma positions_head nr1 nr2 nr3 :
  0 < nr1 -> 0 < nr2 -> 0 < nr3 ->
  exists ps, positions (nr1, nr2, nr3) = (0, 0, 0) :: ps.
Proof.
  intros H1 H2 H3. unfold positions, range.
  rewrite (seqZ_cons 0 nr1), (seqZ_cons 0 nr2), (seqZ_cons 0 nr3) by lia.
  rewrite !bind_cons. cbn [app]. eexists. reflexivity.
Qed.

Lemma root_of_unity_0 n : root_of_unity n 0 = (1%R, 0%R).
Proof.
  unfold root_of_unity.
  replace (2 * PI * 0 / IZR n)%R with 0%R by (unfold Rdiv; ring).
  rewrite cos_0, sin_0. reflexivity.
Qed.

Lemma kernel_origin nr q : kernel nr (0, 0, 0) q = (1%R, 0%R).
Proof.
  destruct nr as [[n1 n2] n3], q as [[x y] z]. unfold kernel.
  rewrite !Z.mul_0_l, !root_of_unity_0. unfold Cmul. simpl. f_equal; ring.
Qed.

(** A charge whose only coefficient is [c] at the Miller index [(0,0,0)]
    is rebuilt as the constant field of value [Re c]. *)
Theorem constant_field (h5f : h5file) nr1 nr2 nr3 (c : C) :
  0 < nr1 -> 0 < nr2 -> 0 < nr3 ->
  attr_ngm_g h5f = Some 1 ->
  MillerIndices h5f = Some [(0, 0, 0)] ->
  rhotot_g h5f = Some [fst c; snd c] ->
  exists rhodiff_r,
    read_charge_file_hdf5 h5f (nr1, nr2, nr3)
    = Ok (mk (nr1, nr2, nr3) (replicate (Z.to_nat (nr1 * nr2 * nr3)) (Cre c)),
          rhodiff_r).
Proof.
  intros H1 H2 H3 Hngm Hmi Htot.
  destruct (reconstruct_Ok h5f (rhotot_g h5f) nr1 nr2 nr3 [(0, 0, 0)] [c])
    as (rho_temp & f & Hsc & Hs & Hf & Hrec);
    try assumption; try reflexivity.
  { constructor; [simpl; lia|constructor]. }
  assert (0 < nr1 * nr2) by (apply Z.mul_pos_pos; lia).
  assert (HN : 0 < nr1 * nr2 * nr3) by (apply Z.mul_pos_pos; lia).
  (* the grid behind the loop *)
  simpl in Hsc. unfold setitem in Hsc. cbn [shape data] in Hsc.
  rewrite (locate_in_grid (nr1, nr2, nr3) (0, 0, 0)) in Hsc by (simpl; lia).
  cbn [bind] in Hsc. injection Hsc as <-.
  (* its transform *)
  rewrite ifftn_Ok with (nr1 := nr1) (nr2 := nr2) (nr3 := nr3) in Hf
    by (assumption || reflexivity).
  injection Hf as <-.
  assert (Hsum : forall q,
             fourier_sum
               (mk (nr1, nr2, nr3)
                  (<[Z.to_nat (offset (nr1, nr2, nr3) (0, 0, 0)) := c]>
                     (replicate (Z.to_nat (nr1 * nr2 * nr3)) Czero))) q = c).
  { intros q. unfold fourier_sum. cbn [shape data].
    destruct (positions_head nr1 nr2 nr3 H1 H2 H3) as [ps ->].
    destruct (Z.to_nat (nr1 * nr2 * nr3)) as [|k] eqn:Ek; [lia|].
    change (Z.to_nat (offset (nr1, nr2, nr3) (0, 0, 0))) with 0%nat.
    cbn [replicate]. cbn [list_insert insert]. simpl zip. rewrite fmap_cons.
    cbn [Csum foldr fst snd]. fold (Csum
      ((fun pv : dims * C => Cmul pv.2 (kernel (nr1, nr2, nr3) pv.1 q))
         <$> zip ps (replicate k Czero))).
    rewrite kernel_origin, Csum_zeros.
    - destruct c as [a b]. unfold Cadd, Cmul, Czero, RtoC. simpl. f_equal; ring.
    - apply Forall_fmap, Forall_forall. intros [p v] Hin. simpl.
      apply elem_of_zip_r, elem_of_replicate in Hin as [-> _].
      apply Cmul_zero_l. }
  assert (Hdiff : exists d, try_except (reconstruct h5f (rhodiff_g h5f) (nr1, nr2, nr3))
                              (zeros Czero (nr1, nr2, nr3)) = Ok d).
  { destruct (reconstruct h5f (rhodiff_g h5f) (nr1, nr2, nr3)); simpl; eauto.
    rewrite zeros_Ok by lia. eauto. }
  destruct Hdiff as [d Hd]. exists (real d).
  unfold read_charge_file_hdf5. rewrite Hrec. cbn [bind]. rewrite Hd.
  cbn [bind]. f_equal. f_equal. unfold real, times, NdArray.map.
  cbn [shape data]. f_equal.
  rewrite <- !list_fmap_compose.
  transitivity (replicate (length (positions (nr1, nr2, nr3))) (Cre c));
    [|rewrite length_positions by lia; reflexivity].
  apply const_fmap. intros q x _. unfold compose.
  rewrite rescale_cancels by assumption.
  rewrite Hsum. reflexivity.
Qed.

(** ** The wave functions: [read_wavefunction_file_hdf5] *)

Lemma raises_within_Ok {A} es (a : A) : raises_within es (Ok a).
Proof. intros e H. discriminate. Qed.

Lemma raises_within_Raise {A} es e : e ∈ es -> raises_within es (@Raise A e).
Proof. intros He e' [= <-]. exact He. Qed.

Lemma raises_within_bind {A B} es (m : result A) (k : A -> result B) :
  raises_within es m -> (forall a, raises_within es (k a)) ->
  raises_within es (bind m k).
Proof.
  intros Hm Hk. destruct m as [a|e]; simpl; [apply Hk|].
  intros e' [= <-]. apply Hm. reflexivity.
Qed.

Lemma raises_within_for_each {X S} es (l : list X) (body : X -> S -> result S) s :
  (forall x s, raises_within es (body x s)) ->
  raises_within es (for_each l body s).
Proof.
  intros Hb. revert s. induction l as [|x l IH]; intros s; simpl.
  - apply raises_within_Ok.
  - apply raises_within_bind; [apply Hb|exact IH].
Qed.

Lemma raises_within_getitem_key {X} es (d : list (str * X)) k :
  KeyError ∈ es -> raises_within es (getitem_key d k).
Proof.
  intros He. unfold getitem_key.
  destruct (lookup_key k d); [apply raises_within_Ok|apply raises_within_Raise, He].
Qed.

Lemma lookup_key_app {X} k (d1 d2 : list (str * X)) :
  lookup_key k (d1 ++ d2)
  = match lookup_key k d1 with
    | Some x => Some x
    | None => lookup_key k d2
    end.
Proof.
  induction d1 as [|[k' x] d1 IH]; simpl; [reflexivity|].
  destruct (eqb k' k); [reflexivity|exact IH].
Qed.

Lemma lookup_key_None {X} k (d : list (str * X)) :
  lookup_key k d = None <-> k ∉ d.*1.
Proof.
  induction d as [|[k' x] d IH]; simpl.
  - split; [intros _; apply not_elem_of_nil|reflexivity].
  - rewrite not_elem_of_cons. destruct (eqb k' k) eqn:E.
    + apply eqb_eq in E. split; [discriminate|]. intros [H _]. congruence.
    + rewrite IH. split; [|tauto]. intros H. split; [|exact H].
      intros ->. rewrite (proj2 (eqb_eq k' k') eq_refl) in E. discriminate.
Qed.

(** Storing under a key that is not there adds the item at the end. *)
Lemma setitem_key_fresh {X} (d : list (str * X)) k x :
  lookup_key k d = None -> setitem_key d k x = d ++ [(k, x)].
Proof.
  induction d as [|[k' x'] d IH]; simpl; [reflexivity|].
  destruct (eqb k' k); [discriminate|]. intros H. rewrite IH by exact H.
  reflexivity.
Qed.

(** A loop that stores one value per turn under keys that are new and
    differ from each other. *)
Lemma for_each_setitem {X Y} (key : X -> str) (val : X -> result Y)
    (xs : list X) (d d' : list (str * Y)) :
  NoDup (key <$> xs) ->
  (forall x, x ∈ xs -> key x ∉ d.*1) ->
  for_each xs (fun x d => v <- val x ;; Ok (setitem_key d (key x) v)) d = Ok d'
  <-> exists vs, Forall2 (fun x v => val x = Ok v) xs vs /\
                 d' = d ++ zip (key <$> xs) vs.
Proof.
  revert d. induction xs as [|x xs IH]; intros d Hnd Hfresh.
  - simpl. split.
    + intros [= <-]. exists []. rewrite app_nil_r. split; [constructor|reflexivity].
    + intros (vs & Hvs & ->). inversion Hvs. rewrite app_nil_r. reflexivity.
  - rewrite fmap_cons in Hnd. apply NoDup_cons in Hnd as [Hx Hnd].
    simpl for_each. destruct (val x) as [v|e] eqn:Hv; cbn [bind].
    + rewrite setitem_key_fresh
        by (apply lookup_key_None, Hfresh; left).
      rewrite IH; [|exact Hnd|].
      * split.
        -- intros (vs & Hvs & ->). exists (v :: vs).
           split; [constructor; assumption|].
           rewrite <- app_assoc. reflexivity.
        -- intros (vs & Hvs & ->).
           inversion Hvs as [|? v' ? vs' Hv' Hvs']; subst.
           assert (v' = v) by congruence. subst v'.
           exists vs'. split; [exact Hvs'|]. rewrite <- app_assoc. reflexivity.
      * intros y Hy. rewrite fmap_app, not_elem_of_app. split.
        -- apply Hfresh. right. exact Hy.
        -- simpl. rewrite not_elem_of_cons. split; [|apply not_elem_of_nil].
           intros E. apply Hx. rewrite <- E. apply list_elem_of_fmap_2, Hy.
    + split; [discriminate|]. intros (vs & Hvs & _).
      inversion Hvs; subst. congruence.
Qed.

(** How a loop fails: at the first turn that fails. *)
Lemma for_each_Raise {X S} (xs : list X) (body : X -> S -> result S) s e :
  for_each xs body s = Raise e <->
  exists pre x post s',
    xs = pre ++ x :: post /\ for_each pre body s = Ok s' /\
    body x s' = Raise e.
Proof.
  revert s. induction xs as [|x xs IH]; intros s; simpl.
  - split; [discriminate|]. intros (pre & y & post & s' & H & _).
    destruct pre; discriminate.
  - destruct (body x s) as [s1|e1] eqn:Hb; cbn [bind].
    + rewrite IH. split.
      * intros (pre & y & post & s' & -> & Hpre & Hy).
        exists (x :: pre), y, post, s'. simpl. rewrite Hb. auto.
      * intros (pre & y & post & s' & Hxs & Hpre & Hy).
        destruct pre as [|x' pre]; simpl in *.
        -- injection Hpre as <-. injection Hxs as <- <-. congruence.
        -- injection Hxs as <- ->. rewrite Hb in Hpre. simpl in Hpre.
           exists pre, y, post, s'. auto.
    + split.
      * intros [= <-]. exists [], x, xs, s. auto.
      * intros (pre & y & post & s' & Hxs & Hpre & Hy).
        destruct pre as [|x' pre]; simpl in *.
        -- injection Hpre as <-. injection Hxs as <- <-. congruence.
        -- injection Hxs as <- ->. rewrite Hb in Hpre. discriminate.
Qed.

Lemma str_of_int_inj m n : str_of_int m = str_of_int n -> m = n.
Proof.
  intros H.
  destruct (str_of_int_digits m) as (dm & Em & Hm & Am & Vm).
  destruct (str_of_int_digits n) as (dn & En & Hn & An & Vn).
  rewrite Em, En in H.
  destruct (Z.ltb_spec m 0) as [Sm|Sm], (Z.ltb_spec n 0) as [Sn|Sn].
  - injection H as ->. assert (Z.abs m = Z.abs n) by congruence. lia.
  - destruct dn as [|c dn]; [contradiction|]. injection H as <- _.
    apply Forall_cons in An as [[d Hd] _]. discriminate Hd.
  - destruct dm as [|c dm]; [contradiction|]. injection H as -> _.
    apply Forall_cons in Am as [[d Hd] _]. discriminate Hd.
  - subst dn. assert (Z.abs m = Z.abs n) by congruence. lia.
Qed.

Lemma kpoint_label_inj i j : kpoint_label i = kpoint_label j -> i = j.
Proof.
  unfold kpoint_label. intros H. apply app_inv_head, str_of_int_inj in H. lia.
Qed.

Lemma band_label_inj i j : band_label i = band_label j -> i = j.
Proof.
  unfold band_label. intros H. apply app_inv_head, str_of_int_inj in H. lia.
Qed.

Lemma NoDup_fmap_range (key : Z -> str) n :
  (forall i j, key i = key j -> i = j) -> NoDup (key <$> range n).
Proof.
  intros Hinj. apply NoDup_fmap_2; [|apply NoDup_seqZ].
  intros i j. apply Hinj.
Qed.

Lemma bind_assoc {X Y Z'} (m : result X) (k : X -> result Y) (h : Y -> result Z') :
  bind (bind m k) h = bind m (fun x => bind (k x) h).
Proof. destruct m; reflexivity. Qed.

Section WavefunctionProps.

Context {A D : Type}.

Implicit Types (f : list (str * kgroup A D)) (g : kgroup A D).

Lemma attrs_loop f label :
  for_each attrs_to_read (read_attr A D f label) []
  = match lookup_key label f with
    | Some g => Ok ((fun attr => (attr, attrs_get A D g attr)) <$> attrs_to_read)
    | None => Raise KeyError
    end.
Proof.
  unfold read_attr, getitem_key.
  destruct (lookup_key label f) as [g|]; reflexivity.
Qed.

Lemma band_count_attrs g :
  band_count A D ((fun attr => (attr, attrs_get A D g attr)) <$> attrs_to_read)
  = match lookup_key (lit "nbnd") (g_attrs A D g) with
    | Some (AInt _ n) => Ok n
    | _ => Raise TypeError
    end.
Proof.
  unfold band_count, getitem_key, attrs_get, lit. cbn.
  destruct (lookup_key _ (g_attrs A D g)) as [[n|a]|]; reflexivity.
Qed.

Lemma band_label_fresh g j :
  band_label j ∉ ((fun attr => (attr, attrs_get A D g attr)) <$> attrs_to_read).*1.
Proof.
  rewrite <- list_fmap_compose. unfold band_label, attrs_to_read, lit. simpl.
  rewrite !not_elem_of_cons. repeat split; try discriminate.
  apply not_elem_of_nil.
Qed.

Lemma range_of_length {X} (P : Z -> X -> Prop) n (l : list X) :
  Forall2 P (range n) l -> range (Z.of_nat (length l)) = range n.
Proof.
  intros H. apply Forall2_length in H. unfold range in *.
  rewrite length_seqZ in H. destruct (Z.le_gt_cases 0 n).
  - f_equal. lia.
  - assert (length l = 0%nat) by lia. rewrite H1. simpl.
    unfold seqZ. replace (Z.to_nat n) with 0%nat by lia. reflexivity.
Qed.

Lemma bands_values g (xs : list Z) (vs : list (wfc_value A D)) :
  Forall2 (fun j v =>
             (d <- getitem_key (g_bands A D g) (band_label j) ;; Ok (WArray A D d))
             = Ok v) xs vs
  <-> exists bands,
        vs = WArray A D <$> bands /\
        Forall2 (fun j d => lookup_key (band_label j) (g_bands A D g) = Some d)
          xs bands.
Proof.
  split.
  - induction 1 as [|j v xs vs Hv _ (bands & -> & IH)].
    + exists []. split; [reflexivity|constructor].
    + unfold getitem_key in Hv.
      destruct (lookup_key (band_label j) (g_bands A D g)) as [d|] eqn:Hd;
        [|discriminate].
      injection Hv as <-. exists (d :: bands). split; [reflexivity|].
      constructor; assumption.
  - intros (bands & -> & H). induction H as [|j d xs bands Hd _ IH].
    + constructor.
    + rewrite fmap_cons. constructor; [|exact IH].
      unfold getitem_key. rewrite Hd. reflexivity.
Qed.

(** What the reader makes of one group. *)
Lemma kpoint_temp f i temp :
  (temp0 <- for_each attrs_to_read (read_attr A D f (kpoint_label i)) [] ;;
   nbnd <- band_count A D temp0 ;;
   for_each (range nbnd) (read_band A D f (kpoint_label i)) temp0) = Ok temp
  <-> kpoint_entry A D f i temp.
Proof.
  rewrite attrs_loop. unfold kpoint_entry, complete.
  destruct (lookup_key (kpoint_label i) f) as [g|] eqn:Hg; cbn [bind].
  2:{ split; [discriminate|]. intros (g & bands & [=] & _). }
  rewrite band_count_attrs.
  destruct (lookup_key (lit "nbnd") (g_attrs A D g)) as [[nbnd|a]|] eqn:Hn;
    cbn [bind].
  2,3: split; [discriminate|];
    intros (g' & bands & [= <-] & (nb & Hnb & _) & _); congruence.
  rewrite (for_each_ext _ _
             (fun j temp =>
                v <- (d <- getitem_key (g_bands A D g) (band_label j) ;;
                      Ok (WArray A D d)) ;;
                Ok (setitem_key temp (band_label j) v))).
  2:{ intros j t. unfold read_band, getitem_key at 1. rewrite Hg. cbn [bind].
      rewrite bind_assoc. reflexivity. }
  rewrite for_each_setitem.
  2:{ apply NoDup_fmap_range, band_label_inj. }
  2:{ intros j _. apply band_label_fresh. }
  split.
  - intros (vs & Hvs & ->). apply bands_values in Hvs as (bands & -> & Hb).
    exists g, bands. split; [reflexivity|]. split; [eauto|].
    unfold kpoint_dict. rewrite (range_of_length _ _ _ Hb). reflexivity.
  - intros (g' & bands & [= <-] & (nb & Hnb & Hb) & ->).
    assert (nb = nbnd) by congruence. subst nb.
    exists (WArray A D <$> bands). split.
    + apply bands_values. eauto.
    + unfold kpoint_dict. rewrite (range_of_length _ _ _ Hb). reflexivity.
Qed.

Lemma read_kpoint_body f i w :
  read_kpoint A D f i w
  = (temp <- (temp0 <- for_each attrs_to_read (read_attr A D f (kpoint_label i)) [] ;;
              nbnd <- band_count A D temp0 ;;
              for_each (range nbnd) (read_band A D f (kpoint_label i)) temp0) ;;
     Ok (setitem_key w (kpoint_label i) temp)).
Proof.
  unfold read_kpoint.
  destruct (for_each attrs_to_read _ _) as [temp0|]; cbn [bind]; [|reflexivity].
  destruct (band_count A D temp0) as [nbnd|]; cbn [bind]; [|reflexivity].
  destruct (for_each (range nbnd) _ _); reflexivity.
Qed.

(** The reader succeeds exactly when the file has a group [KPOINT1] and,
    for every [i] below the number of attributes of that group, a
    complete group [KPOINTi+1]; the result then has one entry per such
    [i], in this order, with the nine attributes of the group followed by
    its bands. *)
Theorem read_wavefunction_result f (w : list (str * list (str * wfc_value A D))) :
  read_wavefunction_file_hdf5 A D f = Ok w <->
  exists g1 temps,
    lookup_key (lit "KPOINT1") f = Some g1 /\
    Forall2 (kpoint_entry A D f)
      (range (Z.of_nat (length (g_attrs A D g1)))) temps /\
    w = zip (kpoint_label <$> range (Z.of_nat (length (g_attrs A D g1)))) temps.
Proof.
  unfold read_wavefunction_file_hdf5, getitem_key.
  destruct (lookup_key (lit "KPOINT1") f) as [g1|]; cbn [bind].
  2:{ split; [discriminate|]. intros (g & temps & [=] & _). }
  rewrite (for_each_ext _ _ _ _ (read_kpoint_body f)).
  rewrite for_each_setitem.
  2:{ apply NoDup_fmap_range, kpoint_label_inj. }
  2:{ intros i _. apply not_elem_of_nil. }
  split.
  - intros (temps & Ht & ->). exists g1, temps. split; [reflexivity|].
    split; [|reflexivity].
    eapply Forall2_impl; [exact Ht|]. intros i temp. apply kpoint_temp.
  - intros (g & temps & [= <-] & Ht & ->). exists temps. split; [|reflexivity].
    eapply Forall2_impl; [exact Ht|]. intros i temp. apply kpoint_temp.
Qed.

(** The number of groups the reader asks for is the number of attributes
    of [KPOINT1], not the number of groups of the file: it fails with a
    [KeyError] when the first group that is missing among [KPOINT1], ...,
    [KPOINTn], for [n] that number of attributes, comes behind complete
    groups. *)
Theorem read_wavefunction_missing_group f g1 i temps :
  lookup_key (lit "KPOINT1") f = Some g1 ->
  0 <= i < Z.of_nat (length (g_attrs A D g1)) ->
  Forall2 (kpoint_entry A D f) (range i) temps ->
  lookup_key (kpoint_label i) f = None ->
  read_wavefunction_file_hdf5 A D f = Raise KeyError.
Proof.
  intros Hg1 Hi Ht Hmiss.
  unfold read_wavefunction_file_hdf5, getitem_key. rewrite Hg1. cbn [bind].
  set (n := Z.of_nat (length (g_attrs A D g1))) in *.
  assert (Hsplit : range n = range i ++ i :: seqZ (i + 1) (n - i - 1)).
  { unfold range. replace n with (i + (n - i)) at 1 by lia.
    rewrite seqZ_app by lia. f_equal. rewrite seqZ_cons by lia.
    reflexivity. }
  rewrite Hsplit, for_each_app.
  assert (Hpre : for_each (range i) (read_kpoint A D f) []
                 = Ok ([] ++ zip (kpoint_label <$> range i) temps)).
  { rewrite (for_each_ext _ _ _ _ (read_kpoint_body f)).
    apply for_each_setitem.
    - apply NoDup_fmap_range, kpoint_label_inj.
    - intros j _. apply not_elem_of_nil.
    - exists temps. split; [|reflexivity].
      eapply Forall2_impl; [exact Ht|]. intros j temp. apply kpoint_temp. }
  rewrite Hpre. cbn [bind for_each].
  unfold read_kpoint. rewrite attrs_loop, Hmiss. reflexivity.
Qed.

(** A file without the group [KPOINT1] gives a [KeyError], a group whose
    [nbnd] is missing or no integer a [TypeError], and the reader ends
    with no other exception than these two. *)
Theorem read_wavefunction_exceptions f :
  (lookup_key (lit "KPOINT1") f = None ->
   read_wavefunction_file_hdf5 A D f = Raise KeyError) /\
  (forall g1,
      lookup_key (lit "KPOINT1") f = Some g1 -> g_attrs A D g1 <> [] ->
      (forall n, lookup_key (lit "nbnd") (g_attrs A D g1) <> Some (AInt A n)) ->
      read_wavefunction_file_hdf5 A D f = Raise TypeError) /\
  (forall e, read_wavefunction_file_hdf5 A D f = Raise e ->
             e = KeyError \/ e = TypeError).
Proof.
  split; [|split].
  - intros H. unfold read_wavefunction_file_hdf5, getitem_key. rewrite H.
    reflexivity.
  - intros g1 Hg1 Hne Hnb.
    unfold read_wavefunction_file_hdf5, getitem_key. rewrite Hg1. cbn [bind].
    destruct (g_attrs A D g1) as [|a attrs] eqn:Hattrs; [contradiction|].
    unfold range. rewrite seqZ_cons by (simpl length; lia).
    cbn [for_each]. unfold read_kpoint at 1. rewrite attrs_loop.
    change (kpoint_label 0) with (lit "KPOINT1"). rewrite Hg1. cbn [bind].
    rewrite band_count_attrs, Hattrs.
    destruct (lookup_key (lit "nbnd") (a :: attrs)) as [[n|o]|] eqn:E;
      [|reflexivity|reflexivity].
    exfalso. apply (Hnb n). reflexivity.
  - assert (H : raises_within [KeyError; TypeError]
                  (read_wavefunction_file_hdf5 A D f)).
    { unfold read_wavefunction_file_hdf5.
      assert (HK : KeyError ∈ [KeyError; TypeError]) by left.
      assert (HT : TypeError ∈ [KeyError; TypeError]) by (right; left).
      apply raises_within_bind; [apply raises_within_getitem_key, HK|intros g1].
      apply raises_within_for_each. intros i w. unfold read_kpoint.
      apply raises_within_bind.
      { apply raises_within_for_each. intros attr t. unfold read_attr.
        apply raises_within_bind; [apply raises_within_getitem_key, HK|intros g].
        apply raises_within_Ok. }
      intros temp0. apply raises_within_bind.
      { unfold band_count.
        apply raises_within_bind; [apply raises_within_getitem_key, HK|intros v].
        destruct v as [|[n|a]|d];
          first [apply raises_within_Ok|apply raises_within_Raise, HT]. }
      intros nbnd. apply raises_within_bind; [|intros t; apply raises_within_Ok].
      apply raises_within_for_each. intros j t. unfold read_band.
      apply raises_within_bind; [apply raises_within_getitem_key, HK|intros g].
      apply raises_within_bind; [apply raises_within_getitem_key, HK|intros d].
      apply raises_within_Ok. }
    intros e He. apply H in He.
    rewrite !elem_of_cons, elem_of_nil in He. tauto.
Qed.

End WavefunctionProps.

(** ** The tree of a pseudopotential: [read_pseudo_file] behind the parser *)

Section PseudoTree.

Context {V : Type} (float : str -> option V).

Lemma raises_within_node es o :
  AttributeError ∈ es -> raises_within es (node o).
Proof.
  intros He. destruct o; [apply raises_within_Ok|apply raises_within_Raise, He].
Qed.

Lemma raises_within_floats es e :
  AttributeError ∈ es -> ValueError ∈ es -> raises_within es (floats V float e).
Proof.
  intros HA HV. unfold floats.
  destruct (text e); [|apply raises_within_Raise, HA].
  apply raises_within_for_each. intros x acc.
  destruct (float x); [apply raises_within_Ok|apply raises_within_Raise, HV].
Qed.

Lemma raises_within_try_except {X} es (m h : result X) :
  raises_within es h -> raises_within es (try_except m h).
Proof. intros Hh. destruct m; [apply raises_within_Ok|exact Hh]. Qed.

Ltac raises :=
  repeat first
    [ apply raises_within_Ok
    | apply raises_within_node; assumption
    | apply raises_within_floats; assumption
    | apply raises_within_try_except
    | apply raises_within_bind; [|intros ?]
    | apply raises_within_for_each; intros ? ?
    | match goal with
      | |- raises_within _ (if ?b then _ else _) => destruct b
      | |- raises_within _ (match ?x with _ => _ end) => destruct x
      end ].

(** The dictionary built from a tree has the six keys of the reader, in
    the order of the code, and the value under [PP_LOCAL], [PP_RHOATOM]
    or [PP_NONLOCAL] is [None] exactly when the tree has no such node. *)
Theorem read_tree_keys (psroot : Element) (pseudo : list (str * pyval V)) :
  read_tree V float psroot = Ok pseudo ->
  pseudo.*1 = pseudo_keys /\
  forall name,
    name ∈ [lit "PP_LOCAL"; lit "PP_RHOATOM"; lit "PP_NONLOCAL"] ->
    (lookup_key name pseudo = Some (PyNone V) <-> find1 name psroot = None).
Proof.
  intros H. unfold read_tree in H.
  bind_inv H as info Hinfo. bind_inv H as pp_input Hinput.
  bind_inv H as header Hheader. bind_inv H as mesh Hmesh.
  bind_inv H as r Hr. bind_inv H as pp_r Hpp_r.
  bind_inv H as rab Hrab. bind_inv H as pp_rab Hpp_rab.
  bind_inv H as pp_local Hlocal. bind_inv H as pp_rhoatom Hrhoatom.
  bind_inv H as pp_nonlocal Hnonlocal. injection H as <-.
  split; [reflexivity|].
  intros name Hname. rewrite !elem_of_cons, elem_of_nil in Hname.
  destruct Hname as [->|[->|[->|[]]]].
  - change (lookup_key (lit "PP_LOCAL") _) with (Some pp_local).
    destruct (find1 (lit "PP_LOCAL") psroot) as [n|].
    + bind_inv Hlocal as a Ha. injection Hlocal as <-.
      split; discriminate.
    + injection Hlocal as <-. tauto.
  - change (lookup_key (lit "PP_RHOATOM") _) with (Some pp_rhoatom).
    destruct (find1 (lit "PP_RHOATOM") psroot) as [n|].
    + bind_inv Hrhoatom as a Ha. injection Hrhoatom as <-.
      split; discriminate.
    + injection Hrhoatom as <-. tauto.
  - change (lookup_key (lit "PP_NONLOCAL") _) with (Some pp_nonlocal).
    destruct (find1 (lit "PP_NONLOCAL") psroot) as [n|].
    + bind_inv Hnonlocal as a Ha. injection Hnonlocal as <-.
      split; discriminate.
    + injection Hnonlocal as <-. tauto.
Qed.

(** A tree without [PP_INFO], [PP_HEADER], [PP_MESH] or [PP_R] inside
    [PP_MESH] makes the reader fail with an [AttributeError], and the
    reader ends with no other exception than [AttributeError] and
    [ValueError]. *)
Theorem read_tree_failures (psroot : Element) :
  (find1 (lit "PP_INFO") psroot = None \/
   find1 (lit "PP_HEADER") psroot = None \/
   find1 (lit "PP_MESH") psroot = None \/
   find2 (lit "PP_MESH") (lit "PP_R") psroot = None ->
   read_tree V float psroot = Raise AttributeError) /\
  (forall e, read_tree V float psroot = Raise e ->
             e = AttributeError \/ e = ValueError).
Proof.
  split.
  - intros H. unfold read_tree.
    destruct (find1 (lit "PP_INFO") psroot) as [info|]; [|reflexivity].
    cbn [node bind].
    destruct (try_except _ _) as [pp_input|e] eqn:Hin.
    2:{ destruct (find2 (lit "PP_INFO") (lit "PP_INPUTFILE") psroot);
          discriminate Hin. }
    cbn [bind].
    destruct (find1 (lit "PP_HEADER") psroot) as [header|]; [|reflexivity].
    cbn [node bind].
    destruct (find1 (lit "PP_MESH") psroot) as [mesh|]; [|reflexivity].
    cbn [node bind].
    destruct (find2 (lit "PP_MESH") (lit "PP_R") psroot) as [r|]; [|reflexivity].
    destruct H as [H|[H|[H|H]]]; discriminate H.
  - assert (H : raises_within [AttributeError; ValueError]
                  (read_tree V float psroot)).
    { assert (HA : AttributeError ∈ [AttributeError; ValueError]) by left.
      assert (HV : ValueError ∈ [AttributeError; ValueError]) by (right; left).
      unfold read_tree. raises.
      - unfold nonlocal_child. raises. unfold aug_child. raises. }
    intros e He. apply H in He.
    rewrite !elem_of_cons, elem_of_nil in He. tauto.
Qed.

Lemma nonlocal_loop (els : list Element) (st st' : nonlocal_state V) :
  for_each els (nonlocal_child V float) st = Ok st' ->
  exists bs,
    betas V st' = betas V st ++ bs /\
    Forall2 (beta_entry V float)
      (List.filter (fun el => contains (lit "PP_BETA") (tag el)) els) bs.
Proof.
  revert st. induction els as [|el els IH]; intros st H.
  - injection H as <-. exists []. rewrite app_nil_r. split; [reflexivity|constructor].
  - simpl in H. bind_inv H as st1 H1. apply IH in H as (bs & Hbs & Hall).
    unfold nonlocal_child in H1. cbn [List.filter].
    destruct (contains (lit "PP_BETA") (tag el)).
    + bind_inv H1 as val Hval. injection H1 as <-. simpl in Hbs.
      eexists (_ :: bs). rewrite Hbs, <- app_assoc. split; [reflexivity|].
      constructor; [|exact Hall]. exists val. split; [exact Hval|reflexivity].
    + exists bs. split; [|exact Hall]. rewrite Hbs. f_equal.
      destruct (contains (lit "PP_DIJ") (tag el)).
      * bind_inv H1 as val Hval. injection H1 as <-. reflexivity.
      * destruct (contains (lit "PP_AUGMENTATION") (tag el)).
        -- bind_inv H1 as a Ha. injection H1 as <-. reflexivity.
        -- injection H1 as <-. reflexivity.
Qed.

(** The list under [PP_BETA] has one entry for every child of
    [PP_NONLOCAL] with [PP_BETA] in its tag, in the order of the
    document; the entry holds the attributes of the child and its numbers
    under the key [beta]. *)
Theorem nonlocal_betas (psroot n : Element) (pseudo : list (str * pyval V)) :
  read_tree V float psroot = Ok pseudo ->
  find1 (lit "PP_NONLOCAL") psroot = Some n ->
  exists bs dij aug,
    lookup_key (lit "PP_NONLOCAL") pseudo
    = Some (PyDict V [(lit "PP_BETA", PyList V bs); (lit "PP_DIJ", dij);
                      (lit "PP_AUGMENTATION", aug)]) /\
    Forall2 (beta_entry V float) (beta_children n) bs.
Proof.
  intros H Hn. unfold read_tree in H.
  bind_inv H as info Hinfo. bind_inv H as pp_input Hinput.
  bind_inv H as header Hheader. bind_inv H as mesh Hmesh.
  bind_inv H as r Hr. bind_inv H as pp_r Hpp_r.
  bind_inv H as rab Hrab. bind_inv H as pp_rab Hpp_rab.
  bind_inv H as pp_local Hlocal. bind_inv H as pp_rhoatom Hrhoatom.
  bind_inv H as pp_nonlocal Hnonlocal. injection H as <-.
  change (lookup_key (lit "PP_NONLOCAL") _) with (Some pp_nonlocal).
  rewrite Hn in Hnonlocal. bind_inv Hnonlocal as st Hst.
  injection Hnonlocal as <-.
  apply nonlocal_loop in Hst as (bs & Hbs & Hall). simpl in Hbs. subst bs.
  eexists _, _, _. split; [reflexivity|exact Hall].
Qed.

End PseudoTree.
(** ** More on the reader of the text codec *)

Section ReaderEdges.

Context {V : Type} (float : str -> option V) (zero : V).

Lemma Forall_is_Some_reads (toks : list str) :
  Forall (fun t => is_Some (float t)) toks ->
  exists vs, Forall2 (fun t v => float t = Some v) toks vs.
Proof.
  induction 1 as [|t toks [v Hv] _ [vs IH]].
  - exists []. constructor.
  - exists (v :: vs). constructor; assumption.
Qed.

(** The first loop on lines that have tokens and whose values are
    numbers. *)
Lemma scan_lines_reads (content : str) (n : dims) :
  Forall (fun l => split l <> []) (file_lines content) ->
  Forall (fun t => is_Some (float t)) (value_tokens (file_lines content)) ->
  match file_lines content !! 1%nat with
  | Some line2 => read_dims (split line2) = Ok n
  | None => n = (0, 0, 0)
  end ->
  exists vs,
    scan_lines V float content
    = Ok {| tempcharge := vs;
            count := Z.of_nat (length (file_lines content));
            nr := n |}.
Proof.
  intros Hlines Htoks Hdims.
  destruct (Forall_is_Some_reads _ Htoks) as [vs Hvs].
  exists vs. unfold scan_lines. apply scan_loop_Ok.
  split; [exact Hlines|]. split; [exact Hdims|].
  split; [reflexivity|]. exists vs. split; [reflexivity|exact Hvs].
Qed.

(** A negative dimension on the second line makes the reader fail with a
    [ValueError], after all the lines have been read. *)
Theorem reader_negative_dimension (content line2 : str) (n0 n1 n2 : Z) :
  Forall (fun l => split l <> []) (file_lines content) ->
  Forall (fun t => is_Some (float t)) (value_tokens (file_lines content)) ->
  file_lines content !! 1%nat = Some line2 ->
  read_dims (split line2) = Ok (n0, n1, n2) ->
  n0 < 0 \/ n1 < 0 \/ n2 < 0 ->
  read_postqe_output_file V float zero content = Raise ValueError.
Proof.
  intros Hlines Htoks Hline2 Hdims Hneg.
  destruct (scan_lines_reads content (n0, n1, n2) Hlines Htoks) as [vs Hscan].
  { rewrite Hline2. exact Hdims. }
  unfold read_postqe_output_file. rewrite Hscan. cbn [bind].
  unfold fold_grid. cbn [nr]. unfold zeros.
  destruct (Z.ltb_spec n0 0), (Z.ltb_spec n1 0), (Z.ltb_spec n2 0);
    try reflexivity; lia.
Qed.

(** A file of fewer than two lines sets no dimensions: its values are
    read and dropped, and the result is the empty field of shape
    [(0, 0, 0)]. *)
Theorem reader_short_file (content : str) :
  (length (file_lines content) <= 1)%nat ->
  Forall (fun l => split l <> []) (file_lines content) ->
  Forall (fun t => is_Some (float t)) (value_tokens (file_lines content)) ->
  read_postqe_output_file V float zero content = Ok (mk (0, 0, 0) []).
Proof.
  intros Hlen Hlines Htoks.
  destruct (scan_lines_reads content (0, 0, 0) Hlines Htoks) as [vs Hscan].
  { rewrite lookup_ge_None_2 by lia. reflexivity. }
  unfold read_postqe_output_file. rewrite Hscan. reflexivity.
Qed.

(** A line without any token, such as an empty line at the end of the
    file, makes the reader fail with an [IndexError] when the lines
    before it are read. *)
Theorem reader_blank_line (content : str) (pre : list str) (l : str)
    (rest : list str) (st : reader_state V) :
  file_lines content = pre ++ l :: rest ->
  for_each pre (read_line V float)
    {| tempcharge := []; count := 0; nr := (0, 0, 0) |} = Ok st ->
  split l = [] ->
  read_postqe_output_file V float zero content = Raise IndexError.
Proof.
  intros Hlines Hpre Hl.
  unfold read_postqe_output_file, scan_lines.
  rewrite Hlines, for_each_app, Hpre. cbn [bind for_each].
  unfold read_line. rewrite Hl.
  destruct (count V st =? 1); reflexivity.
Qed.

End ReaderEdges.

(** ** The further theorems at concrete inputs *)

Lemma read_EtotV_short_line_witness :
  read_EtotV Sample.float4 Sample.float short_EtotV_text = Raise IndexError.
Proof.
  apply (read_EtotV_short_line Sample.float short_EtotV_text
           [lit "1.0 0.5" ++ [LF]] (lit "1.0" ++ [LF]) []
           [(Sample.f_one, Sample.f_half)]).
  - reflexivity.
  - constructor; [|constructor].
    exists (lit "1.0"), (lit "0.5"), []. repeat split; reflexivity.
  - right. exists (lit "1.0"), Sample.f_one. split; reflexivity.
Defined.

Lemma read_EtotV_errors_witness :
  read_EtotV Sample.float4 Sample.float (lit "1.0 x" ++ [LF]) = Raise ValueError /\
  (ValueError = IndexError \/ ValueError = ValueError).
Proof.
  split; [reflexivity|].
  apply (read_EtotV_errors Sample.float (lit "1.0 x" ++ [LF]) ValueError).
  reflexivity.
Defined.

Lemma vector_of_decimals_witness :
  vector (str_of_int 12 ++ ","%char :: str_of_int (-3) ++ ","%char :: str_of_int 0)
  = Return (12, -3, 0).
Proof.
  apply (vector_of_decimals 12 (-3) 0).
  - vm_compute. reflexivity.
  - vm_compute. reflexivity.
  - vm_compute. reflexivity.
Defined.

Lemma get_tag_of_tag_witness :
  get_tag (lit "  " ++ ("<"%char :: (slash false ++ lit "PP_HEADER" ++ slash true)
                        ++ [">"%char]) ++ [LF])
  = Some (lit "PP_HEADER/").
Proof.
  apply (get_tag_of_tag (lit "  ") [LF] (lit "PP_HEADER") false true).
  - apply Forall_check. reflexivity.
  - apply Forall_check. reflexivity.
  - discriminate.
  - apply Forall_check. reflexivity.
  - discriminate.
  - discriminate.
Defined.

Lemma get_tag_keeps_rest_witness :
  get_tag ("<"%char :: lit "PP_R" ++ ">"%char :: lit "1." ++ ["0"%char])
  = Some (lit "PP_R>1.0").
Proof.
  apply (get_tag_keeps_rest (lit "PP_R") (lit "1.") "0"%char).
  - discriminate.
  - apply Forall_check. reflexivity.
  - discriminate.
  - reflexivity.
  - reflexivity.
Defined.

Lemma sample_formatE_line : forall v, no_line_end (sample_formatE v).
Proof. intros v. destruct v; apply no_line_end_check; reflexivity. Defined.

Lemma sample_species_line :
  forall name, Some name ∈ sample_species -> no_line_end name.
Proof.
  intros name H. apply list_elem_of_singleton in H. injection H as ->.
  apply no_line_end_check; reflexivity.
Defined.

Lemma sample_positions_line :
  forall pos name,
    pos ∈ sample_positions -> pos_name str pos = Some name -> no_line_end name.
Proof.
  intros pos name H Hname. apply list_elem_of_singleton in H. subst pos.
  injection Hname as <-. apply no_line_end_check; reflexivity.
Defined.

Lemma create_header_lines_witness :
  exists header line1 line2 more,
    sample_header (2, 2, 2) = Ok header /\
    header = concat (line1 :: line2 :: more) /\
    length more = 4%nat /\
    read_dims (split line2) = Ok (2, 2, 2).
Proof.
  destruct (sample_header (2, 2, 2)) as [header|e] eqn:Hh;
    [|vm_compute in Hh; discriminate Hh].
  destruct (create_header_lines sample_formatE sample_formatE Sample.float
              (lit "si") (2, 2, 2) (2, 2, 2) 2 sample_celldms 1 1
              sample_species sample_positions header)
    as (line1 & line2 & more & Hheader & _ & Hlen & Hdims).
  - exact Hh.
  - apply no_line_end_check; reflexivity.
  - exact sample_formatE_line.
  - exact sample_formatE_line.
  - exact sample_species_line.
  - exact sample_positions_line.
  - exists header, line1, line2, more. split; [reflexivity|].
    split; [exact Hheader|]. split; [exact Hlen|].
    apply Hdims. lia.
Defined.

(** A dimension with 4301 digits: [format] refuses it. *)
Lemma create_header_succeeds_witness :
  create_header Sample.float4 sample_formatE sample_formatE str Sample.float
    (lit "si") (str_limit, 1, 1) (1, 1, 1) 2 sample_celldms 1 1
    sample_species sample_positions = Raise ValueError.
Proof.
  apply (create_header_succeeds sample_formatE sample_formatE Sample.float
           (lit "si") (str_limit, 1, 1) (1, 1, 1) 2 sample_celldms 1 1
           sample_species sample_positions).
  - vm_compute. reflexivity.
  - vm_compute. reflexivity.
  - apply Exists_cons_hd. vm_compute. discriminate.
Defined.


Lemma scatter_order_irrelevant_witness :
  scatter sample_grid [((0, 0, 0), 3); ((-1, 0, 0), 7)]
  = scatter sample_grid [((-1, 0, 0), 7); ((0, 0, 0), 3)].
Proof.
  apply (scatter_order_irrelevant sample_grid
           [((0, 0, 0), 3); ((-1, 0, 0), 7)] [((-1, 0, 0), 7); ((0, 0, 0), 3)]).
  - apply perm_swap.
  - apply NoDup_cons. split.
    + intros H. apply list_elem_of_singleton in H. discriminate H.
    + apply NoDup_singleton.
Defined.


Lemma unusable_rhodiff_witness :
  exists rhotot_r,
    read_charge_file_hdf5 sample_h5_odd (2, 1, 1)
    = Ok (rhotot_r, mk (2, 1, 1) [0%R; 0%R]).
Proof.
  destruct (reconstruct sample_h5_odd (rhotot_g sample_h5_odd) (2, 1, 1))
    as [rhotot_r|e] eqn:Htot; [|discriminate Htot].
  destruct (unusable_rhodiff_gives_zero_field sample_h5_odd (2, 1, 1) rhotot_r)
    as [_ Hsize].
  - exact Htot.
  - exists (real rhotot_r). apply (Hsize 1 [1%R]).
    + reflexivity.
    + lia.
    + reflexivity.
    + simpl. lia.
Defined.

Lemma constant_field_witness :
  exists rhodiff_r,
    read_charge_file_hdf5 sample_h5_origin (2, 1, 1)
    = Ok (mk (2, 1, 1) [3%R; 3%R], rhodiff_r).
Proof.
  destruct (constant_field sample_h5_origin 2 1 1 (3%R, 0%R)) as [rhodiff_r H].
  - lia.
  - lia.
  - lia.
  - reflexivity.
  - reflexivity.
  - reflexivity.
  - exists rhodiff_r. exact H.
Defined.

Lemma read_wavefunction_missing_group_witness :
  read_wavefunction_file_hdf5 unit Z sample_wfc = Raise KeyError.
Proof.
  apply (read_wavefunction_missing_group sample_wfc
           {| g_attrs := [(lit "nbnd", AInt unit 1); (lit "ik", AInt unit 1)];
              g_bands := [(lit "BAND1", 7)] |}
           1
           [kpoint_dict unit Z
              {| g_attrs := [(lit "nbnd", AInt unit 1); (lit "ik", AInt unit 1)];
                 g_bands := [(lit "BAND1", 7)] |} [7]]).
  - reflexivity.
  - simpl. lia.
  - constructor; [|constructor]. eexists _, [7].
    split; [vm_compute; reflexivity|]. split; [|reflexivity].
    exists 1. split; [reflexivity|].
    constructor; [vm_compute; reflexivity|constructor].
  - vm_compute. reflexivity.
Defined.

Lemma read_tree_keys_witness :
  exists pseudo,
    read_tree Sample.float4 Sample.float nonlocal_tree = Ok pseudo /\
    pseudo.*1 = pseudo_keys /\
    lookup_key (lit "PP_LOCAL") pseudo = Some (PyNone Sample.float4).
Proof.
  destruct (read_tree Sample.float4 Sample.float nonlocal_tree)
    as [pseudo|e] eqn:H; [|vm_compute in H; discriminate H].
  destruct (read_tree_keys Sample.float nonlocal_tree pseudo H) as [Hkeys Hnone].
  exists pseudo. split; [reflexivity|]. split; [exact Hkeys|].
  apply Hnone; [left|reflexivity].
Defined.

Lemma nonlocal_betas_witness :
  exists pseudo bs dij aug,
    read_tree Sample.float4 Sample.float nonlocal_tree = Ok pseudo /\
    lookup_key (lit "PP_NONLOCAL") pseudo
    = Some (PyDict Sample.float4
              [(lit "PP_BETA", PyList Sample.float4 bs); (lit "PP_DIJ", dij);
               (lit "PP_AUGMENTATION", aug)]) /\
    length bs = 2%nat.
Proof.
  destruct (read_tree Sample.float4 Sample.float nonlocal_tree)
    as [pseudo|e] eqn:H; [|vm_compute in H; discriminate H].
  destruct (nonlocal_betas Sample.float nonlocal_tree
              (Elem (lit "PP_NONLOCAL") [] None
                 [ Elem (lit "PP_BETA.1") [(lit "index", lit "1")]
                     (Some (lit "1.0 0.5")) [];
                   Elem (lit "PP_DIJ") [] (Some (lit "1.0")) [];
                   Elem (lit "PP_BETA.2") [(lit "index", lit "2")]
                     (Some (lit "0.5")) [] ])
              pseudo H)
    as (bs & dij & aug & Hlookup & Hbs).
  - reflexivity.
  - exists pseudo, bs, dij, aug. split; [reflexivity|]. split; [exact Hlookup|].
    apply Forall2_length in Hbs. rewrite <- Hbs. reflexivity.
Defined.

Lemma reader_negative_dimension_witness :
  read_postqe_output_file Sample.float4 Sample.float Sample.f_zero negative_text
  = Raise ValueError.
Proof.
  apply (reader_negative_dimension Sample.float Sample.f_zero negative_text
           (lit "# -1 1 1" ++ [LF]) (-1) 1 1).
  - repeat constructor; discriminate.
  - constructor.
  - reflexivity.
  - reflexivity.
  - left. lia.
Defined.

Lemma reader_short_file_witness :
  read_postqe_output_file Sample.float4 Sample.float Sample.f_zero one_line_text
  = Ok (mk (0, 0, 0) []).
Proof.
  apply (reader_short_file Sample.float Sample.f_zero one_line_text).
  - simpl. lia.
  - repeat constructor; discriminate.
  - repeat constructor; eexists; reflexivity.
Defined.

Lemma reader_blank_line_witness :
  read_postqe_output_file Sample.float4 Sample.float Sample.f_zero blank_line_text
  = Raise IndexError.
Proof.
  apply (reader_blank_line Sample.float Sample.f_zero blank_line_text
           [lit "# si" ++ [LF];
            lit "#        1        1        1        1        1        1        1        1"
            ++ [LF];
            lit "  1.000000000E+00" ++ [LF]]
           [LF] []
           {| tempcharge := [Sample.f_one]; count := 3; nr := (1, 1, 1) |}).
  - reflexivity.
  - reflexivity.
  - reflexivity.
Defined.
